(** * UserJourneyTracker: a shallow embedding of the visitor-attribution recorder

    The repository holds two revisions of the class [UserJourneyTracker]:

    - [src/src/index.tsx]: events are de-duplicated against the last logged
      event ([isNewAttributionSource]); called [PolicyB] below;
    - the revision with a persisted "current attribution" and an expiry
      window ([getAttributionForPageView], [loadAttributionData]) that also
      posts every event to a backend; called [PolicyA] below.

    Methods whose text is the same in both revisions are embedded once;
    methods that differ take the revision as an argument or carry its letter
    in their name.  A method of the class becomes a function from the
    object's fields ([this.t]) and the host environment ([World]) to the new
    fields and environment.  The environment says how each call into the
    browser ends: whether there is a window, what the storage holds and
    whether a write to it succeeds, what the clock and the random source
    give.  A method that an exception can leave also says how it ends; the
    object and the environment are then the ones the exception left behind.
    The text of JSON is not modelled: a storage key holds the value that was
    written under it.  In the environment the cookie jar is the value of the
    one cookie the tracker reads, and what the jar holds after a write is the
    browser's answer; how [getCookie] finds the value in the text of the jar
    is treated apart. *)

From Stdlib Require Import ZArith QArith Lia Ascii String.
From stdpp Require Import base option list strings pretty gmap.

Local Open Scope string_scope.
Local Open Scope list_scope.

(** ** JavaScript helpers *)

(** Truthiness of a string value: the empty string is falsy. *)
Definition truthy (s : string) : bool := negb (String.eqb s "").

(** Truthiness of [string | null]. *)
Definition truthy_opt (o : option string) : bool :=
  match o with
  | Some s => truthy s
  | None => false
  end.

(** [x || undefined] for [x : string | null]. *)
Definition or_undefined (o : option string) : option string :=
  match o with
  | Some s => if truthy s then Some s else None
  | None => None
  end.

(** How a call that may throw ends. *)
Inductive Completion (A : Type) : Type :=
| Return (a : A)
| Throw.
Arguments Return {A} a.
Arguments Throw {A}.

(** [Array.prototype.slice(start)]: a negative [start] counts from the end,
    and the start index is clamped to the array. *)
Definition slice {A : Type} (start : Z) (l : list A) : list A :=
  let len := Z.of_nat (length l) in
  let k := (if start <? 0 then Z.max (len + start) 0 else Z.min start len)%Z in
  drop (Z.to_nat k) l.

(** The [n] last elements of a list, in their order. *)
Definition last_n {A : Type} (n : nat) (l : list A) : list A :=
  drop (length l - n) l.

(** ** Data model *)

(** A parsed URL, as the [URL] class and [window.location] expose it. *)
Module URL.
Record t : Type := mk {
  href : string;
  protocol : string;
  hostname : string;
  port : string;
  pathname : string;
  searchParams : list (string * string)
}.

(** [url.origin]: scheme, host name and port. *)
Definition origin (u : t) : string * string * string :=
  (protocol u, hostname u, port u).

(** [params.get(name)]: the first value of the name, or [null]. *)
Fixpoint get (name : string) (params : list (string * string)) : option string :=
  match params with
  | [] => None
  | (k, v) :: rest => if String.eqb k name then Some v else get name rest
  end.
End URL.

(** [interface AttributionData].  The field [attribution_timestamp] exists in
    the [PolicyA] revision only; [PolicyB] never sets it. *)
Module AttributionData.
Record t : Type := mk {
  utm_campaign : option string;
  utm_medium : option string;
  utm_source : option string;
  utm_term : option string;
  utm_ad_id : option string;
  utm_ad_group_id : option string;
  utm_campaign_id : option string;
  gclid : option string;
  fbclid : option string;
  mkclid : option string;
  referrer : option string;
  landing_page : option string;
  attribution_timestamp : option Z
}.

(** The object literal [{}]. *)
Definition empty : t :=
  mk None None None None None None None None None None None None None.

(** The string-valued property names of the interface. *)
Inductive key : Type :=
| Utm_campaign | Utm_medium | Utm_source | Utm_term
| Utm_ad_id | Utm_ad_group_id | Utm_campaign_id
| Gclid | Fbclid | Mkclid
| Referrer | Landing_page.

Definition key_eqb (a b : key) : bool :=
  match a, b with
  | Utm_campaign, Utm_campaign | Utm_medium, Utm_medium
  | Utm_source, Utm_source | Utm_term, Utm_term
  | Utm_ad_id, Utm_ad_id | Utm_ad_group_id, Utm_ad_group_id
  | Utm_campaign_id, Utm_campaign_id
  | Gclid, Gclid | Fbclid, Fbclid | Mkclid, Mkclid
  | Referrer, Referrer | Landing_page, Landing_page => true
  | _, _ => false
  end.

(** The property name as it is spelled in the query string. *)
Definition name (k : key) : string :=
  match k with
  | Utm_campaign => "utm_campaign"
  | Utm_medium => "utm_medium"
  | Utm_source => "utm_source"
  | Utm_term => "utm_term"
  | Utm_ad_id => "utm_ad_id"
  | Utm_ad_group_id => "utm_ad_group_id"
  | Utm_campaign_id => "utm_campaign_id"
  | Gclid => "gclid"
  | Fbclid => "fbclid"
  | Mkclid => "mkclid"
  | Referrer => "referrer"
  | Landing_page => "landing_page"
  end.

(** [attribution[key]] *)
Definition get (k : key) (a : t) : option string :=
  match k with
  | Utm_campaign => utm_campaign a
  | Utm_medium => utm_medium a
  | Utm_source => utm_source a
  | Utm_term => utm_term a
  | Utm_ad_id => utm_ad_id a
  | Utm_ad_group_id => utm_ad_group_id a
  | Utm_campaign_id => utm_campaign_id a
  | Gclid => gclid a
  | Fbclid => fbclid a
  | Mkclid => mkclid a
  | Referrer => referrer a
  | Landing_page => landing_page a
  end.

(** [attribution[key] = value] *)
Definition set (k : key) (v : string) (a : t) : t :=
  match a with
  | mk c m s tm ai ag ci g f mk' r lp ts =>
    match k with
    | Utm_campaign => mk (Some v) m s tm ai ag ci g f mk' r lp ts
    | Utm_medium => mk c (Some v) s tm ai ag ci g f mk' r lp ts
    | Utm_source => mk c m (Some v) tm ai ag ci g f mk' r lp ts
    | Utm_term => mk c m s (Some v) ai ag ci g f mk' r lp ts
    | Utm_ad_id => mk c m s tm (Some v) ag ci g f mk' r lp ts
    | Utm_ad_group_id => mk c m s tm ai (Some v) ci g f mk' r lp ts
    | Utm_campaign_id => mk c m s tm ai ag (Some v) g f mk' r lp ts
    | Gclid => mk c m s tm ai ag ci (Some v) f mk' r lp ts
    | Fbclid => mk c m s tm ai ag ci g (Some v) mk' r lp ts
    | Mkclid => mk c m s tm ai ag ci g f (Some v) r lp ts
    | Referrer => mk c m s tm ai ag ci g f mk' (Some v) lp ts
    | Landing_page => mk c m s tm ai ag ci g f mk' r (Some v) ts
    end
  end.

(** [attribution.attribution_timestamp = n] *)
Definition set_timestamp (n : Z) (a : t) : t :=
  match a with
  | mk c m s tm ai ag ci g f mk' r lp _ =>
    mk c m s tm ai ag ci g f mk' r lp (Some n)
  end.

(** The ten marketing fields: seven UTM-style fields and three click ids. *)
Definition marketing : list key :=
  [Utm_source; Utm_medium; Utm_campaign; Utm_term;
   Utm_ad_id; Utm_ad_group_id; Utm_campaign_id;
   Gclid; Fbclid; Mkclid].

Definition all_keys : list key := marketing ++ [Referrer; Landing_page].

(** [Object.keys(a).length > 0] *)
Definition has_keys (a : t) : bool :=
  existsb (fun k => bool_decide (is_Some (get k a))) all_keys
  || bool_decide (is_Some (attribution_timestamp a)).

(** [Object.entries(a)] restricted to the string-valued properties. *)
Definition entries (a : t) : list (key * string) :=
  omap (fun k => match get k a with Some v => Some (k, v) | None => None end)
       all_keys.
End AttributionData.

(** [interface PageViewEvent] *)
Module PageViewEvent.
Record t : Type := mk {
  url : string;
  timestamp : Z;
  referrer : option string;
  title : option string;
  attribution : AttributionData.t;
  uuid : string;
  is_loggedin : bool;
  event_id : string
}.

Definition set_is_loggedin (b : bool) (e : t) : t :=
  mk (url e) (timestamp e) (referrer e) (title e) (attribution e)
     (uuid e) b (event_id e).
End PageViewEvent.

(** [interface UserJourneyTrackerOptions], after the constructor has merged
    the defaults in.  Counts and durations are JavaScript numbers; they are
    integers here. *)
Module Options.
Record t : Type := mk {
  cookieDomain : string;
  cookieExpireDays : Z;
  maxEvents : Z;
  resetOnLogin : bool;
  resetOnSignup : bool;
  autoTrack : bool;
  trackHashChange : bool;
  trackHistoryChange : bool;
  attributionExpiry : Z
}.

(** The defaults of the constructor; [attributionExpiry] is [30 * 24 * 60]
    minutes. *)
Definition defaults (domain : string) : t :=
  mk domain 365 100 true true true true true (30 * 24 * 60)%Z.
End Options.

(** ** The host environment *)

(** How [localStorage.setItem] ends: it returns, it throws the
    [DOMException] named [QuotaExceededError] (or
    [NS_ERROR_DOM_QUOTA_REACHED]), or it throws something else. *)
Inductive SetItemResult : Type :=
| Stored
| QuotaExceeded
| OtherFailure.

(** The text under a storage key, read through [JSON.parse]: it parses to a
    value of the expected interface, or [JSON.parse] throws. *)
Inductive Item (A : Type) : Type :=
| Unparsable
| Json (a : A).
Arguments Unparsable {A}.
Arguments Json {A} a.

(** [localStorage], by the four keys the tracker uses:
    [user_journey_history], [user_journey_history_attribution],
    [user_journey_history_user_id] and [user_journey_history_old_uuid]. *)
Module Storage.
Record t : Type := mk {
  history : option (Item (list PageViewEvent.t));
  attribution : option (Item AttributionData.t);
  user_id : option string;
  old_uuid : option string
}.

Definition empty : t := mk None None None None.

Definition set_history (v : option (Item (list PageViewEvent.t))) (s : t) : t :=
  mk v (attribution s) (user_id s) (old_uuid s).
Definition set_attribution (v : option (Item AttributionData.t)) (s : t) : t :=
  mk (history s) v (user_id s) (old_uuid s).
Definition set_user_id (v : option string) (s : t) : t :=
  mk (history s) (attribution s) v (old_uuid s).
Definition set_old_uuid (v : option string) (s : t) : t :=
  mk (history s) (attribution s) (user_id s) v.
End Storage.

(** The [window] object: location, document and storage.  [cookie] is the
    decoded value of the [user_journey_uuid] cookie, if the jar has one. *)
Module Window.
Record t : Type := mk {
  location : URL.t;
  document_referrer : string;
  document_title : string;
  localStorage : Storage.t;
  cookie : option string
}.

Definition set_localStorage (s : Storage.t) (w : t) : t :=
  mk (location w) (document_referrer w) (document_title w) s (cookie w).
Definition set_cookie (c : option string) (w : t) : t :=
  mk (location w) (document_referrer w) (document_title w) (localStorage w) c.
End Window.

(** The body of a POST to the backend ([sendEventToBackend]). *)
Module Payload.
Record t : Type := mk {
  uuid : string;
  deriv_user_id : option string;
  old_uuid : option string;
  event : PageViewEvent.t;
  timestamp : Z
}.
End Payload.

(** Everything outside the object.  [window = None] stands for
    [typeof window === 'undefined'].  [new_URL] is the [URL] constructor
    ([None]: it throws).  [setItem_history] and [setItem_attribution] say how
    a write of that value under the history, respectively attribution, key
    ends.  [random n] is the [n]-th value of [Math.random() * 16 | 0] and
    [drawn] counts the values used so far.  [outbox] lists the requests
    handed to [fetch], oldest first.  [setItem_user_id] and
    [setItem_old_uuid] say how a write under the user-id key and under the
    key of the prior device identifier ends.  [assign_cookie value days
    domain] is the device cookie as the jar gives it once [document.cookie]
    has been assigned that value with a lifetime of [days] days and that
    [domain] attribute: the value where the browser keeps the cookie, and
    what the jar is left with where it does not (a browser refuses a domain
    that does not cover the host or is a public suffix, and keeps no cookie
    whose lifetime is not positive). *)
Record World : Type := mkWorld {
  window : option Window.t;
  now : Z;
  new_URL : string -> option URL.t;
  setItem_history : list PageViewEvent.t -> SetItemResult;
  setItem_attribution : AttributionData.t -> SetItemResult;
  random : nat -> Z;
  drawn : nat;
  outbox : list Payload.t;
  setItem_user_id : string -> SetItemResult;
  setItem_old_uuid : string -> SetItemResult;
  assign_cookie : string -> Z -> string -> option string
}.

Definition set_window (v : option Window.t) (w : World) : World :=
  mkWorld v (now w) (new_URL w) (setItem_history w) (setItem_attribution w)
          (random w) (drawn w) (outbox w) (setItem_user_id w)
          (setItem_old_uuid w) (assign_cookie w).
Definition set_drawn (n : nat) (w : World) : World :=
  mkWorld (window w) (now w) (new_URL w) (setItem_history w)
          (setItem_attribution w) (random w) n (outbox w) (setItem_user_id w)
          (setItem_old_uuid w) (assign_cookie w).
Definition set_outbox (o : list Payload.t) (w : World) : World :=
  mkWorld (window w) (now w) (new_URL w) (setItem_history w)
          (setItem_attribution w) (random w) (drawn w) o (setItem_user_id w)
          (setItem_old_uuid w) (assign_cookie w).

(** A browser that keeps every cookie it is given. *)
Definition keeps_cookies (value : string) (days : Z) (domain : string)
  : option string :=
  Some value.

(** Apply a change to [localStorage] where there is a window. *)
Definition with_storage (f : Storage.t -> Storage.t) (w : World) : World :=
  match window w with
  | Some win =>
    set_window (Some (Window.set_localStorage (f (Window.localStorage win)) win)) w
  | None => w
  end.

(** The storage of a world, where there is one. *)
Definition storage (w : World) : option Storage.t :=
  Window.localStorage <$> window w.

(** ** The object *)

(** The two revisions of the class. *)
Inductive Policy : Type :=
| PolicyA
| PolicyB.

(** The private fields of [UserJourneyTracker] ([storageKey], [cookieName]
    and [API_ENDPOINT] are constants).  [currentAttribution] exists in
    [PolicyA] only. *)
Module this.
Record t : Type := mk {
  options : Options.t;
  events : list PageViewEvent.t;
  isInitialized : bool;
  uuid : string;
  derivUserId : option string;
  isLoggedIn : bool;
  oldUuid : option string;
  lastTrackedUrl : string;
  currentPageEventId : option string;
  currentAttribution : AttributionData.t
}.

Definition set_events (v : list PageViewEvent.t) (o : t) : t :=
  mk (options o) v (isInitialized o) (uuid o) (derivUserId o) (isLoggedIn o)
     (oldUuid o) (lastTrackedUrl o) (currentPageEventId o) (currentAttribution o).
Definition set_isInitialized (v : bool) (o : t) : t :=
  mk (options o) (events o) v (uuid o) (derivUserId o) (isLoggedIn o)
     (oldUuid o) (lastTrackedUrl o) (currentPageEventId o) (currentAttribution o).
Definition set_derivUserId (v : option string) (o : t) : t :=
  mk (options o) (events o) (isInitialized o) (uuid o) v (isLoggedIn o)
     (oldUuid o) (lastTrackedUrl o) (currentPageEventId o) (currentAttribution o).
Definition set_isLoggedIn (v : bool) (o : t) : t :=
  mk (options o) (events o) (isInitialized o) (uuid o) (derivUserId o) v
     (oldUuid o) (lastTrackedUrl o) (currentPageEventId o) (currentAttribution o).
Definition set_oldUuid (v : option string) (o : t) : t :=
  mk (options o) (events o) (isInitialized o) (uuid o) (derivUserId o)
     (isLoggedIn o) v (lastTrackedUrl o) (currentPageEventId o)
     (currentAttribution o).
Definition set_lastTrackedUrl (v : string) (o : t) : t :=
  mk (options o) (events o) (isInitialized o) (uuid o) (derivUserId o)
     (isLoggedIn o) (oldUuid o) v (currentPageEventId o) (currentAttribution o).
Definition set_currentPageEventId (v : option string) (o : t) : t :=
  mk (options o) (events o) (isInitialized o) (uuid o) (derivUserId o)
     (isLoggedIn o) (oldUuid o) (lastTrackedUrl o) v (currentAttribution o).
Definition set_currentAttribution (v : AttributionData.t) (o : t) : t :=
  mk (options o) (events o) (isInitialized o) (uuid o) (derivUserId o)
     (isLoggedIn o) (oldUuid o) (lastTrackedUrl o) (currentPageEventId o) v.
End this.

(** ** Identifiers *)

(** [v.toString(16)] for [0 <= v < 16]. *)
Definition hex_digit (v : Z) : ascii :=
  nth (Z.to_nat v) (list_ascii_of_string "0123456789abcdef") "0"%char.

(** The callback of [replace(/[xy]/g, ...)], run over the template from left
    to right; [i] is the index of the next random value.  [r & 0x3 | 0x8] is
    [(r & 3) | 8]. *)
Fixpoint replace_xy (rnd : nat -> Z) (i : nat) (template : list ascii)
  : list ascii * nat :=
  match template with
  | [] => ([], i)
  | c :: rest =>
    if Ascii.eqb c "x" then
      let '(s, j) := replace_xy rnd (S i) rest in
      (hex_digit (rnd i mod 16) :: s, j)
    else if Ascii.eqb c "y" then
      let '(s, j) := replace_xy rnd (S i) rest in
      (hex_digit (Z.lor (Z.land (rnd i mod 16) 3) 8) :: s, j)
    else
      let '(s, j) := replace_xy rnd i rest in
      (c :: s, j)
  end.

Definition uuid_template : string := "xxxxxxxx-xxxx-4xxx-yxxx-xxxxxxxxxxxx".

(** [generateUUID()] *)
Definition generateUUID (w : World) : string * World :=
  let '(s, j) := replace_xy (random w) (drawn w) (list_ascii_of_string uuid_template) in
  (string_of_list_ascii s, set_drawn j w).

Arguments generateUUID : simpl never.

(** [setCookie(name, value, days)] for the device cookie.  The text that is
    assigned to [document.cookie] carries the value, an expiry date [days]
    days from now and, if [cookieDomain] is not empty, the [domain]
    attribute; what the jar holds afterwards is the browser's answer. *)
Definition setCookie (value : string) (days : Z) (options : Options.t) (w : World)
  : World :=
  match window w with
  | None => w
  | Some win =>
    let domain :=
      if truthy (Options.cookieDomain options)
      then "; domain=" +:+ Options.cookieDomain options
      else "" in
    set_window (Some (Window.set_cookie (assign_cookie w value days domain) win)) w
  end.

(** [getOrCreateUUID()]: the cookie's value, or a new identifier that is
    handed to [setCookie] with [cookieExpireDays].  The constructor calls it
    once [this.options] is set. *)
Definition getOrCreateUUID (options : Options.t) (w : World) : string * World :=
  match window w with
  | None => generateUUID w
  | Some win =>
    if truthy_opt (Window.cookie win) then
      (default "" (Window.cookie win), w)
    else
      let '(u, w1) := generateUUID w in
      (u, setCookie u (Options.cookieExpireDays options) options w1)
  end.

(** ** The cookie domain and the cookie jar

    [getOrCreateUUID] above works on the value of the device cookie.  The
    two methods below are embedded on the text they work on:
    [getTopLevelDomain] on the host name of the page and [getCookie] on
    [document.cookie]. *)

(** [s.split(sep)] for a separator of one character: the pieces between the
    separators; there is always at least one piece. *)
Fixpoint split (sep : ascii) (s : string) : list string :=
  match s with
  | EmptyString => [""]
  | String c rest =>
    if Ascii.eqb c sep then "" :: split sep rest
    else
      match split sep rest with
      | piece :: pieces => String c piece :: pieces
      | [] => [String c ""]
      end
  end.

(** [getTopLevelDomain()]; [join] is [String.concat]. *)
Definition getTopLevelDomain (w : World) : string :=
  match window w with
  | None => ""
  | Some win =>
    let hostname := URL.hostname (Window.location win) in
    let hostParts := split "." hostname in
    if (length hostParts <=? 1)%nat then hostname
    else "." +:+ String.concat "." (slice (-2) hostParts)
  end.

(** [while (c.charAt(0) === ' ') c = c.substring(1, c.length)] *)
Fixpoint strip_spaces (c : string) : string :=
  match c with
  | String ch rest => if Ascii.eqb ch " " then strip_spaces rest else c
  | EmptyString => ""
  end.

(** [c.substring(n, c.length)] *)
Fixpoint substring_from (n : nat) (c : string) : string :=
  match n, c with
  | O, _ => c
  | S n', String _ rest => substring_from n' rest
  | S _, EmptyString => ""
  end.

(** The loop of [getCookie] over the pieces of [document.cookie];
    [c.indexOf(nameEQ) === 0] says that [nameEQ] is a prefix of [c].
    [decodeURIComponent] is the function of the host: it gives [None] where
    it throws a [URIError], which [getCookie] does not catch. *)
Fixpoint getCookie_loop (decodeURIComponent : string -> option string)
  (nameEQ : string) (ca : list string) : Completion (option string) :=
  match ca with
  | [] => Return None
  | c :: rest =>
    let c' := strip_spaces c in
    if String.prefix nameEQ c' then
      match decodeURIComponent (substring_from (String.length nameEQ) c') with
      | Some value => Return (Some value)
      | None => Throw
      end
    else getCookie_loop decodeURIComponent nameEQ rest
  end.

(** [getCookie(name)]; [document_cookie] is [None] where there is no
    window. *)
Definition getCookie (decodeURIComponent : string -> option string)
  (document_cookie : option string) (name : string) : Completion (option string) :=
  match document_cookie with
  | None => Return None
  | Some text =>
    getCookie_loop decodeURIComponent (name +:+ "=") (split ";" text)
  end.

(** ** The event log *)

(** [sendEventToBackend(event)]: the request is built and handed to [fetch]
    before the first [await]; what the server answers is only logged. *)
Definition sendEventToBackend (event : PageViewEvent.t) (o : this.t) (w : World)
  : World :=
  let payload :=
    Payload.mk (this.uuid o) (or_undefined (this.derivUserId o))
               (or_undefined (this.oldUuid o)) event (now w) in
  set_outbox (outbox w ++ [payload]) w.

(** [saveEvents()].  The method calls itself after it has cut the log down to
    ten events; [fuel] bounds the depth of these calls.  One nested call is
    all that can happen: the cut log has ten events, which is not more than
    ten (see [saveEvents_fuel_enough]). *)
Fixpoint saveEvents_fuel (fuel : nat) (o : this.t) (w : World) : this.t * World :=
  match window w with
  | None => (o, w)
  | Some _ =>
    match setItem_history w (this.events o) with
    | Stored =>
      (o, with_storage (Storage.set_history (Some (Json (this.events o)))) w)
    | QuotaExceeded =>
      if (10 <? length (this.events o))%nat then
        let o' :=
          this.set_events
            (slice (Z.of_nat (length (this.events o)) - 10) (this.events o)) o in
        match fuel with
        | O => (o', w)
        | S fuel' => saveEvents_fuel fuel' o' w
        end
      else (o, w)
    | OtherFailure => (o, w)
    end
  end.

Definition saveEvents (o : this.t) (w : World) : this.t * World :=
  saveEvents_fuel 1 o w.

(** [loadEvents()] *)
Definition loadEvents (o : this.t) (w : World) : this.t :=
  match window w with
  | None => o
  | Some win =>
    match Storage.history (Window.localStorage win) with
    | Some (Json evs) => this.set_events evs o
    | Some Unparsable => o
    | None => o
    end
  end.

(** [addEvent(event)].  [PolicyA] also posts the event. *)
Definition addEvent (p : Policy) (event : PageViewEvent.t) (o : this.t) (w : World)
  : this.t * World :=
  let pushed := this.events o ++ [event] in
  let max := Options.maxEvents (this.options o) in
  let trimmed :=
    if (max <? Z.of_nat (length pushed))%Z
    then slice (Z.of_nat (length pushed) - max) pushed
    else pushed in
  let '(o1, w1) := saveEvents (this.set_events trimmed o) w in
  match p with
  | PolicyA => (o1, sendEventToBackend event o1 w1)
  | PolicyB => (o1, w1)
  end.

(** [this.events.findIndex(event => event.event_id === eventId)] *)
Definition findIndex (eventId : string) (evs : list PageViewEvent.t) : option nat :=
  fst <$> list_find (fun e => PageViewEvent.event_id e = eventId) evs.

(** [this.events.find(event => event.event_id === eventId)] *)
Definition find (eventId : string) (evs : list PageViewEvent.t)
  : option PageViewEvent.t :=
  snd <$> list_find (fun e => PageViewEvent.event_id e = eventId) evs.

(** [updateEventLoginState(eventId, isLoggedIn)] *)
Definition updateEventLoginState (eventId : string) (isLoggedIn : bool)
  (o : this.t) (w : World) : this.t * World :=
  match findIndex eventId (this.events o) with
  | Some eventIndex =>
    saveEvents
      (this.set_events
         (alter (PageViewEvent.set_is_loggedin isLoggedIn) eventIndex (this.events o))
         o)
      w
  | None => (o, w)
  end.

(** [getEvents()]: a new array with the same elements.  At the level of
    values a list is its own copy; the module [Heap] below keeps track of
    which objects the copy shares with the log. *)
Definition getEvents (o : this.t) : list PageViewEvent.t := this.events o.

(** [clearEvents()] *)
Definition clearEvents (o : this.t) (w : World) : this.t * World :=
  (this.set_events [] o, with_storage (Storage.set_history None) w).

(** The object [exportJourney()] returns. *)
Module Journey.
Record t : Type := mk {
  uuid : string;
  deriv_user_id : option string;
  old_uuid : option string;
  events : list PageViewEvent.t
}.
End Journey.

(** [exportJourney()] *)
Definition exportJourney (o : this.t) : Journey.t :=
  Journey.mk (this.uuid o) (or_undefined (this.derivUserId o))
             (or_undefined (this.oldUuid o)) (getEvents o).

(** ** Attribution *)

(** [x || undefined] for a string [x]. *)
Definition nonempty (s : string) : option string :=
  if truthy s then Some s else None.

(** The arrays [utmParams] and [clickIds] of [parseAttributionData]; the two
    revisions list the UTM names in different orders. *)
Definition utmParams (p : Policy) : list AttributionData.key :=
  match p with
  | PolicyA =>
    [AttributionData.Utm_source; AttributionData.Utm_medium;
     AttributionData.Utm_campaign; AttributionData.Utm_term;
     AttributionData.Utm_ad_id; AttributionData.Utm_ad_group_id;
     AttributionData.Utm_campaign_id]
  | PolicyB =>
    [AttributionData.Utm_campaign; AttributionData.Utm_medium;
     AttributionData.Utm_source; AttributionData.Utm_term;
     AttributionData.Utm_ad_id; AttributionData.Utm_ad_group_id;
     AttributionData.Utm_campaign_id]
  end.

Definition clickIds : list AttributionData.key :=
  [AttributionData.Gclid; AttributionData.Fbclid; AttributionData.Mkclid].

(** The body of the two [forEach] loops:
    [const value = params.get(param); if (value) attribution[param] = value]. *)
Definition extract (params : list (string * string))
  (attribution : AttributionData.t) (param : AttributionData.key)
  : AttributionData.t :=
  match URL.get (AttributionData.name param) params with
  | Some value =>
    if truthy value then AttributionData.set param value attribution
    else attribution
  | None => attribution
  end.

(** The referrer step of [parseAttributionData]: [new URL(document.referrer)]
    inside [try]; a referrer that does not parse is ignored. *)
Definition add_referrer (win : Window.t) (new_URL : string -> option URL.t)
  (attribution : AttributionData.t) : AttributionData.t :=
  if truthy (Window.document_referrer win) then
    match new_URL (Window.document_referrer win) with
    | Some referrerUrl =>
      if negb (String.eqb (URL.hostname referrerUrl)
                          (URL.hostname (Window.location win)))
      then AttributionData.set AttributionData.Referrer
             (Window.document_referrer win) attribution
      else attribution
    | None => attribution
    end
  else attribution.

(** [parseAttributionData()].  [new URL(window.location.href)] is the location
    itself: the browser keeps [location.href] the text of a valid URL.
    [PolicyA] stamps the record with the time of capture. *)
Definition parseAttributionData (p : Policy) (w : World) : AttributionData.t :=
  match window w with
  | None => AttributionData.empty
  | Some win =>
    let params := URL.searchParams (Window.location win) in
    let a1 := foldl (extract params) AttributionData.empty (utmParams p) in
    let a2 := foldl (extract params) a1 clickIds in
    let a3 := add_referrer win (new_URL w) a2 in
    let a4 :=
      AttributionData.set AttributionData.Landing_page
        (URL.pathname (Window.location win)) a3 in
    match p with
    | PolicyA => AttributionData.set_timestamp (now w) a4
    | PolicyB => a4
    end
  end.

(** [hasNewAttributionData(newAttribution)] ([PolicyA]) *)
Definition hasNewAttributionData (newAttribution : AttributionData.t) : bool :=
  existsb (fun param => bool_decide (is_Some (AttributionData.get param newAttribution)))
          AttributionData.marketing.

(** [saveAttributionData()] ([PolicyA]); a failed write is logged and
    dropped. *)
Definition saveAttributionData (o : this.t) (w : World) : World :=
  match window w with
  | None => w
  | Some _ =>
    match setItem_attribution w (this.currentAttribution o) with
    | Stored =>
      with_storage
        (Storage.set_attribution (Some (Json (this.currentAttribution o)))) w
    | QuotaExceeded => w
    | OtherFailure => w
    end
  end.

(** [(now - attribution.attribution_timestamp) / (1000 * 60)], as an exact
    fraction. *)
Definition ageInMinutes (now timestamp : Z) : Q :=
  Qmake (now - timestamp) (1000 * 60).

(** [if (attribution.attribution_timestamp)]: the property is there and is
    not [0]. *)
Definition has_timestamp (a : AttributionData.t) : bool :=
  match AttributionData.attribution_timestamp a with
  | Some ts => negb (ts =? 0)%Z
  | None => false
  end.

(** [loadAttributionData()] ([PolicyA]) *)
Definition loadAttributionData (o : this.t) (w : World) : this.t * World :=
  match window w with
  | None => (o, w)
  | Some win =>
    match Storage.attribution (Window.localStorage win) with
    | Some (Json attribution) =>
      if has_timestamp attribution then
        if Qle_bool
             (ageInMinutes (now w)
                (default 0%Z (AttributionData.attribution_timestamp attribution)))
             (inject_Z (Options.attributionExpiry (this.options o)))
        then (this.set_currentAttribution attribution o, w)
        else (o, with_storage (Storage.set_attribution None) w)
      else (this.set_currentAttribution attribution o, w)
    | Some Unparsable => (o, w)
    | None => (o, w)
    end
  end.

(** [getAttributionForPageView()] ([PolicyA]).  The method is private and
    its one caller, [trackCurrentPageView], has checked that there is a
    window: [win] is that window. *)
Definition getAttributionForPageView (win : Window.t) (o : this.t) (w : World)
  : AttributionData.t * this.t * World :=
  let urlAttribution := parseAttributionData PolicyA w in
  if hasNewAttributionData urlAttribution then
    let o1 := this.set_currentAttribution urlAttribution o in
    (urlAttribution, o1, saveAttributionData o1 w)
  else if AttributionData.has_keys (this.currentAttribution o) then
    (AttributionData.set AttributionData.Landing_page
       (URL.pathname (Window.location win)) (this.currentAttribution o), o, w)
  else (urlAttribution, o, w).

(** [isNewAttributionSource(attribution)] ([PolicyB]); private, called by
    [trackCurrentPageView] only, with its window [win]. *)
Definition isNewAttributionSource (win : Window.t)
  (attribution : AttributionData.t) (o : this.t) : bool :=
  match last (this.events o) with
  | None => true
  | Some lastEvent =>
    if negb (String.eqb (PageViewEvent.url lastEvent)
                        (URL.href (Window.location win)))
    then true
    else
      existsb
        (fun '(key, value) =>
           if AttributionData.key_eqb key AttributionData.Referrer
              || AttributionData.key_eqb key AttributionData.Landing_page
           then false
           else truthy value
                && bool_decide
                     (AttributionData.get key (PageViewEvent.attribution lastEvent)
                      <> Some value))
        (AttributionData.entries attribution)
  end.

(** ** Page views *)

(** The event object both revisions of [trackCurrentPageView] build. *)
Definition page_view (win : Window.t) (attribution : AttributionData.t)
  (eventId : string) (o : this.t) (w : World) : PageViewEvent.t :=
  PageViewEvent.mk (URL.href (Window.location win)) (now w)
    (nonempty (Window.document_referrer win))
    (nonempty (Window.document_title win))
    attribution (this.uuid o) (this.isLoggedIn o) eventId.

(** [trackCurrentPageView()] of [PolicyA] *)
Definition trackCurrentPageView_A (o : this.t) (w : World) : this.t * World :=
  match window w with
  | None => (o, w)
  | Some win =>
    if String.eqb (this.lastTrackedUrl o) (URL.href (Window.location win))
    then (o, w)
    else
      let o1 := this.set_lastTrackedUrl (URL.href (Window.location win)) o in
      let '(attribution, o2, w2) := getAttributionForPageView win o1 w in
      let '(eventId, w3) := generateUUID w2 in
      let event := page_view win attribution eventId o2 w3 in
      addEvent PolicyA event (this.set_currentPageEventId (Some eventId) o2) w3
  end.

(** [trackCurrentPageView()] of [PolicyB] *)
Definition trackCurrentPageView_B (o : this.t) (w : World) : this.t * World :=
  match window w with
  | None => (o, w)
  | Some win =>
    let attribution := parseAttributionData PolicyB w in
    if isNewAttributionSource win attribution o then
      let '(eventId, w1) := generateUUID w in
      let event := page_view win attribution eventId o w1 in
      addEvent PolicyB event (this.set_currentPageEventId (Some eventId) o) w1
    else (o, w)
  end.

(** [trackPageView()] called without a URL: [PolicyB] first records the
    current address as the last tracked one. *)
Definition trackPageView (p : Policy) (o : this.t) (w : World) : this.t * World :=
  match window w with
  | None => (o, w)
  | Some win =>
    match p with
    | PolicyA => trackCurrentPageView_A o w
    | PolicyB =>
      trackCurrentPageView_B
        (this.set_lastTrackedUrl (URL.href (Window.location win)) o) w
    end
  end.

(** ** Identity transitions *)

(** The block "update the current page event if it exists" of [recordLogin]
    and [recordSignup]: the event the pointer names gets the flag, and
    [PolicyA] posts the event it then finds under that identifier. *)
Definition update_current_event (p : Policy) (isLoggedIn : bool)
  (o : this.t) (w : World) : this.t * World :=
  match this.currentPageEventId o with
  | Some eventId =>
    if truthy eventId then
      let '(o1, w1) := updateEventLoginState eventId isLoggedIn o w in
      match p with
      | PolicyA =>
        match find eventId (this.events o1) with
        | Some updatedEvent => (o1, sendEventToBackend updatedEvent o1 w1)
        | None => (o1, w1)
        end
      | PolicyB => (o1, w1)
      end
    else (o, w)
  | None => (o, w)
  end.

(** [if (typeof window !== 'undefined') localStorage.setItem(key, value)]
    for the two identity keys.  Unlike the writes of the log and of the
    attribution record, these stand outside every [try]: where the browser
    does not store the value, the exception leaves the method. *)
Definition store_user_id (userId : string) (w : World) : Completion World :=
  match window w with
  | None => Return w
  | Some _ =>
    match setItem_user_id w userId with
    | Stored => Return (with_storage (Storage.set_user_id (Some userId)) w)
    | QuotaExceeded => Throw
    | OtherFailure => Throw
    end
  end.

Definition store_old_uuid (oldUuid : string) (w : World) : Completion World :=
  match window w with
  | None => Return w
  | Some _ =>
    match setItem_old_uuid w oldUuid with
    | Stored => Return (with_storage (Storage.set_old_uuid (Some oldUuid)) w)
    | QuotaExceeded => Throw
    | OtherFailure => Throw
    end
  end.

(** [recordLogin(derivUserId)].  The result is the object and the
    environment the call leaves, and how it ends: when the write of the user
    id throws, the two fields are set and nothing else has happened. *)
Definition recordLogin (p : Policy) (derivUserId : string) (o : this.t) (w : World)
  : this.t * World * Completion unit :=
  let o1 := this.set_derivUserId (Some derivUserId) (this.set_isLoggedIn true o) in
  match store_user_id derivUserId w with
  | Throw => (o1, w, Throw)
  | Return w1 =>
    let '(o2, w2) := update_current_event p true o1 w1 in
    (if Options.resetOnLogin (this.options o2) then clearEvents o2 w2 else (o2, w2),
     Return tt)
  end.

(** [recordSignup(derivUserId)]: as [recordLogin], with the write of the
    prior device identifier after the write of the user id. *)
Definition recordSignup (p : Policy) (derivUserId : string) (o : this.t) (w : World)
  : this.t * World * Completion unit :=
  let o0 := this.set_oldUuid (Some (this.uuid o)) o in
  let o1 := this.set_derivUserId (Some derivUserId) (this.set_isLoggedIn true o0) in
  match store_user_id derivUserId w with
  | Throw => (o1, w, Throw)
  | Return w0 =>
    let stored :=
      match this.oldUuid o1 with
      | Some oldUuid => if truthy oldUuid then store_old_uuid oldUuid w0 else Return w0
      | None => Return w0
      end in
    match stored with
    | Throw => (o1, w0, Throw)
    | Return w1 =>
      let '(o2, w2) := update_current_event p true o1 w1 in
      (if Options.resetOnSignup (this.options o2) then clearEvents o2 w2 else (o2, w2),
       Return tt)
    end
  end.

(** [updateLoginState(isLoggedIn, userId?)].  [PolicyA] amends and posts the
    current event only when the flag changes.  When the write of the user id
    throws, the login state and the user id of the object are set and the
    current event is not touched. *)
Definition updateLoginState (p : Policy) (isLoggedIn : bool) (userId : option string)
  (o : this.t) (w : World) : this.t * World * Completion unit :=
  let previousState := this.isLoggedIn o in
  let o1 := this.set_isLoggedIn isLoggedIn o in
  let '(o2, stored) :=
    match userId with
    | Some u =>
      if truthy u
      then (this.set_derivUserId (Some u) o1, store_user_id u w)
      else (o1, Return w)
    | None => (o1, Return w)
    end in
  match stored with
  | Throw => (o2, w, Throw)
  | Return w2 =>
    (match p with
     | PolicyA =>
       if negb (Bool.eqb previousState isLoggedIn)
       then update_current_event PolicyA isLoggedIn o2 w2
       else (o2, w2)
     | PolicyB => update_current_event PolicyB isLoggedIn o2 w2
     end,
     Return tt)
  end.

(** [new UserJourneyTracker(options)], with [options] already merged with
    the defaults.  [PolicyA] loads the persisted attribution. *)
Definition constructor (p : Policy) (options : Options.t) (w : World)
  : this.t * World :=
  let '(uuid, w1) := getOrCreateUUID options w in
  let o :=
    this.mk options [] false uuid None false None "" None AttributionData.empty in
  match p with
  | PolicyA => loadAttributionData o w1
  | PolicyB => (o, w1)
  end.

(** [init(isLoggedIn?, userId?)].  In [PolicyB], [setupAutoTracking] records
    the address and tracks the first page view; in [PolicyA] it only
    registers the listeners and [init] tracks the page view itself.
    Registering the listeners changes neither the object nor the part of the
    environment kept here; what a listener does when the browser calls it is
    [on_navigation]. *)
Definition init (p : Policy) (isLoggedIn : option bool) (userId : option string)
  (o : this.t) (w : World) : this.t * World :=
  if this.isInitialized o then (o, w)
  else
    let o1 :=
      match isLoggedIn with
      | Some b => this.set_isLoggedIn b o
      | None => o
      end in
    let o2 :=
      if truthy_opt userId then this.set_derivUserId userId o1
      else
        match storage w ≫= Storage.user_id with
        | Some storedUserId =>
          if truthy storedUserId
          then this.set_isLoggedIn true (this.set_derivUserId (Some storedUserId) o1)
          else o1
        | None => o1
        end in
    let o3 := loadEvents o2 w in
    let '(o4, w4) :=
      match p with
      | PolicyA =>
        let '(oa, wa) := loadAttributionData o3 w in
        trackCurrentPageView_A oa wa
      | PolicyB =>
        if Options.autoTrack (this.options o3) then
          match window w with
          | Some win =>
            trackCurrentPageView_B
              (this.set_lastTrackedUrl (URL.href (Window.location win)) o3) w
          | None => (o3, w)
          end
        else (o3, w)
      end in
    (this.set_isInitialized true o4, w4).

(** What a registered listener ([popstate], [hashchange], the wrapped
    [pushState] and [replaceState]) does once the address has changed:
    [PolicyA] calls [trackPageView()]; [PolicyB] tracks the page view if the
    address is not the last tracked one.  [PolicyB] registers listeners only
    where there is a window. *)
Definition on_navigation (p : Policy) (o : this.t) (w : World) : this.t * World :=
  match p with
  | PolicyA => trackPageView PolicyA o w
  | PolicyB =>
    match window w with
    | Some win =>
      if negb (String.eqb (URL.href (Window.location win)) (this.lastTrackedUrl o))
      then
        trackCurrentPageView_B
          (this.set_lastTrackedUrl (URL.href (Window.location win)) o) w
      else (o, w)
    | None => (o, w)
    end
  end.

(** ** The tracker as a transition system *)

(** The calls that change a tracker: the public methods, and the listeners
    the browser calls. *)
Inductive Call : Type :=
| Init (isLoggedIn : option bool) (userId : option string)
| TrackPageView
| Navigation
| UpdateLoginState (isLoggedIn : bool) (userId : option string)
| RecordLogin (derivUserId : string)
| RecordSignup (derivUserId : string)
| ClearEvents.

(** The object and the environment a call leaves, whether it returns or
    throws. *)
Definition call (p : Policy) (c : Call) (o : this.t) (w : World) : this.t * World :=
  match c with
  | Init isLoggedIn userId => init p isLoggedIn userId o w
  | TrackPageView => trackPageView p o w
  | Navigation => on_navigation p o w
  | UpdateLoginState isLoggedIn userId =>
    (updateLoginState p isLoggedIn userId o w).1
  | RecordLogin derivUserId => (recordLogin p derivUserId o w).1
  | RecordSignup derivUserId => (recordSignup p derivUserId o w).1
  | ClearEvents => clearEvents o w
  end.

(** How a call ends.  Only the three methods that write an identity key
    outside [try] can throw. *)
Definition completion (p : Policy) (c : Call) (o : this.t) (w : World)
  : Completion unit :=
  match c with
  | UpdateLoginState isLoggedIn userId =>
    (updateLoginState p isLoggedIn userId o w).2
  | RecordLogin derivUserId => (recordLogin p derivUserId o w).2
  | RecordSignup derivUserId => (recordSignup p derivUserId o w).2
  | _ => Return tt
  end.

(** The objects a tracker can become: it is constructed in some environment
    and then takes calls, each in whatever environment the browser is in at
    that moment. *)
Inductive reachable (p : Policy) : this.t -> Prop :=
| reachable_new (options : Options.t) (w : World) :
    reachable p (constructor p options w).1
| reachable_call (c : Call) (o : this.t) (w : World) :
    reachable p o -> reachable p (call p c o w).1.

(** A sequence of calls, each with the environment it runs in. *)
Fixpoint calls (p : Policy) (cs : list (Call * World)) (o : this.t) : this.t :=
  match cs with
  | [] => o
  | (c, w) :: cs' => calls p cs' (call p c o w).1
  end.

(** * Vocabulary of the properties

    The propositions and functions the theorems are stated with, the claims
    as they are worded (where the code turns out to do otherwise), and the
    sample trackers and browsers that the examples run on. *)

(** ** The event log *)

#[global] Instance SetItemResult_eq_dec : EqDecision SetItemResult.
Proof. solve_decision. Defined.

(** The write of [evs] hits the quota while more than ten events are held:
    the one case in which [saveEvents] changes the log. *)
Definition quota_cut (w : World) (evs : list PageViewEvent.t) : bool :=
  bool_decide (is_Some (window w))
  && bool_decide (setItem_history w evs = QuotaExceeded)
  && (10 <? length evs)%nat.

(** What [saveEvents] leaves in the log. *)
Definition persisted_log (w : World) (evs : list PageViewEvent.t)
  : list PageViewEvent.t :=
  if quota_cut w evs then last_n 10 evs else evs.

(** No write of the log hits the quota in this world. *)
Definition quota_free (w : World) : Prop :=
  forall evs, setItem_history w evs <> QuotaExceeded.

(** The trim of [addEvent], for any [maxEvents]. *)
Definition trimmed (max : Z) (pushed : list PageViewEvent.t) : list PageViewEvent.t :=
  if (max <? Z.of_nat (length pushed))%Z
  then slice (Z.of_nat (length pushed) - max) pushed
  else pushed.

(** A sequence of appends, oldest event first. *)
Fixpoint addEvents (p : Policy) (es : list PageViewEvent.t) (o : this.t) (w : World)
  : this.t * World :=
  match es with
  | [] => (o, w)
  | e :: es' => let '(o1, w1) := addEvent p e o w in addEvents p es' o1 w1
  end.

(** The bound as it is claimed for one append: at most [maxEvents] events
    are held afterwards, and if the log then holds fewer events than it was
    given, it holds exactly the [maxEvents] newest of them. *)
Definition keeps_newest_maxEvents (p : Policy) (e : PageViewEvent.t)
  (o : this.t) (w : World) : Prop :=
  let N := Z.to_nat (Options.maxEvents (this.options o)) in
  let log := this.events (addEvent p e o w).1 in
  length log <= N /\
  (length log < length (this.events o ++ [e]) ->
   log = last_n N (this.events o ++ [e])).

(** ** Sample trackers and browsers *)

Definition sample_event (n : Z) : PageViewEvent.t :=
  PageViewEvent.mk "https://shop.example.com/" n None None
    AttributionData.empty "device-1" false ("event-" +:+ pretty n).

Definition sample_location : URL.t :=
  URL.mk "https://shop.example.com/" "https:" "shop.example.com" "" "/" [].

Definition sample_window : Window.t :=
  Window.mk sample_location "" "" Storage.empty (Some "device-1").

(** A browser in which every write succeeds. *)
Definition sample_world : World :=
  mkWorld (Some sample_window) 1700000000000 (fun _ => None)
          (fun _ => Stored) (fun _ => Stored) (fun _ => 0%Z) 0 []
    (fun _ => Stored) (fun _ => Stored) keeps_cookies.

(** A browser whose storage is full: every write of the log hits the
    quota. *)
Definition full_storage_world : World :=
  mkWorld (Some sample_window) 1700000000000 (fun _ => None)
          (fun _ => QuotaExceeded) (fun _ => Stored) (fun _ => 0%Z) 0 []
    (fun _ => Stored) (fun _ => Stored) keeps_cookies.

(** A browser whose storage takes the log and refuses the identity keys. *)
Definition locked_identity_world : World :=
  mkWorld (Some sample_window) 1700000000000 (fun _ => None)
          (fun _ => Stored) (fun _ => Stored) (fun _ => 0%Z) 0 []
          (fun _ => QuotaExceeded) (fun _ => QuotaExceeded) keeps_cookies.

(** A tracker with the default options that holds the given log. *)
Definition sample_tracker (evs : list PageViewEvent.t) : this.t :=
  this.mk (Options.defaults ".example.com") evs true "device-1" None false None
          "https://shop.example.com/" None AttributionData.empty.

Definition ten_events : list PageViewEvent.t :=
  sample_event <$> [1; 2; 3; 4; 5; 6; 7; 8; 9; 10]%Z.

(** ** Identity transitions *)

(** Two objects have the same device identifier and the same prior device
    identifier. *)
Definition same_device (a b : this.t) : Prop :=
  this.uuid a = this.uuid b /\ this.oldUuid a = this.oldUuid b.

(** The copy of the log in storage, if there is one. *)
Definition persisted_history (w : World) : option (Item (list PageViewEvent.t)) :=
  storage w ≫= Storage.history.

(** The index of the event the current-page pointer names, if the pointer is
    set and an event of the log carries that identifier ([findIndex] gives
    the first such event). *)
Definition current_index (o : this.t) : option nat :=
  match this.currentPageEventId o with
  | Some eventId =>
    if truthy eventId then findIndex eventId (this.events o) else None
  | None => None
  end.

(** The log with the flag of the current event set to [b]. *)
Definition flag_current (b : bool) (o : this.t) : list PageViewEvent.t :=
  match current_index o with
  | Some i => alter (PageViewEvent.set_is_loggedin b) i (this.events o)
  | None => this.events o
  end.

(** The log after the current event was flagged and, if there was such an
    event, written to storage. *)
Definition log_after_flag (b : bool) (w : World) (o : this.t)
  : list PageViewEvent.t :=
  match current_index o with
  | Some _ => persisted_log w (flag_current b o)
  | None => this.events o
  end.

(** The write of a user id is refused: there is a window, and its storage
    does not take the value.  The method that writes it then throws. *)
Definition user_id_refused (w : World) (u : string) : Prop :=
  is_Some (window w) /\ setItem_user_id w u <> Stored.

(** The same for the write of a prior device identifier. *)
Definition old_uuid_refused (w : World) (v : string) : Prop :=
  is_Some (window w) /\ setItem_old_uuid w v <> Stored.

(** The two writes of [recordSignup], one after the other. *)
Definition store_identity (u : string) (o : this.t) (w : World) : Completion World :=
  match store_user_id u w with
  | Throw => Throw
  | Return w0 =>
    if truthy (this.uuid o) then store_old_uuid (this.uuid o) w0 else Return w0
  end.

(** A tracker that was constructed in a browser with a device cookie and has
    recorded a signup before. *)
Definition signed_up_before : this.t :=
  (recordSignup PolicyA "user-41"
     (constructor PolicyA (Options.defaults ".example.com") sample_world).1
     sample_world).1.1.

(** A log with the flag of one event set: the first event that carries the
    identifier, if there is one.  Every event stays, in its place, and no
    other field of any event differs. *)
Fixpoint flag_first (eventId : string) (b : bool) (evs : list PageViewEvent.t)
  : list PageViewEvent.t :=
  match evs with
  | [] => []
  | e :: rest =>
    if String.eqb (PageViewEvent.event_id e) eventId
    then PageViewEvent.set_is_loggedin b e :: rest
    else e :: flag_first eventId b rest
  end.

(** The log of a tracker with the flag of the current event set: the event
    that carries the identifier the current-page pointer holds. *)
Definition current_flagged (b : bool) (o : this.t) : list PageViewEvent.t :=
  match this.currentPageEventId o with
  | Some eventId =>
    if String.eqb eventId "" then this.events o
    else flag_first eventId b (this.events o)
  | None => this.events o
  end.

(** The current-page pointer is set and an event of the log carries its
    identifier. *)
Definition has_current_event (o : this.t) : bool :=
  match this.currentPageEventId o with
  | Some eventId =>
    negb (String.eqb eventId "")
    && existsb (fun e => String.eqb (PageViewEvent.event_id e) eventId)
               (this.events o)
  | None => false
  end.

(** The log after a transition as it is claimed: empty when the reset option
    is set; otherwise the log as it was, but for the flag of the current
    event. *)
Definition transition_log_claimed (reset : bool) (o : this.t)
  (after : list PageViewEvent.t) : Prop :=
  if reset then after = [] else after = current_flagged true o.

(** The log after a transition that returns: empty when the reset option is
    set; otherwise the log with the flag of the current event set, cut to
    its ten newest events where there is a current event and the write of
    the flagged log hits the quota while more than ten events are held. *)
Definition transition_log (reset : bool) (w : World) (o : this.t)
  : list PageViewEvent.t :=
  if reset then []
  else if has_current_event o && quota_cut w (current_flagged true o)
       then last_n 10 (current_flagged true o)
       else current_flagged true o.

(** The log once the current event has been given the flag [b] and the log
    has been written: [transition_log] without reset, for any flag. *)
Definition flagged_log (b : bool) (w : World) (o : this.t) : list PageViewEvent.t :=
  if has_current_event o && quota_cut w (current_flagged b o)
  then last_n 10 (current_flagged b o)
  else current_flagged b o.

(** The write of [updateLoginState]: only a user id that is not empty is
    written. *)
Definition store_login_id (u : option string) (w : World) : Completion World :=
  match u with
  | Some v => if truthy v then store_user_id v w else Return w
  | None => Return w
  end.

(** [updateLoginState] is given a user id whose write is refused. *)
Definition login_id_refused (w : World) (u : option string) : Prop :=
  exists v, u = Some v /\ v <> "" /\ user_id_refused w v.



(** A tracker that keeps its log at login and signup, holds eleven events
    and points at the newest one. *)
Definition keeping_tracker : this.t :=
  this.mk
    (Options.mk ".example.com" 365 100 false false true true true (30 * 24 * 60))
    (ten_events ++ [sample_event 11]) true "device-1" None false None
    "https://shop.example.com/" (Some "event-11") AttributionData.empty.

(** ** The extracted record *)

#[global] Instance key_eq_dec : EqDecision AttributionData.key.
Proof. solve_decision. Defined.

(** The value a query string gives to a field: the first value under the
    field's name, if it is not empty. *)
Definition query_value (params : list (string * string)) (k : AttributionData.key)
  : option string :=
  match URL.get (AttributionData.name k) params with
  | Some value => if truthy value then Some value else None
  | None => None
  end.

(** What the referrer step adds. *)
Definition external_referrer (win : Window.t) (new_URL : string -> option URL.t)
  : option string :=
  if truthy (Window.document_referrer win) then
    match new_URL (Window.document_referrer win) with
    | Some referrerUrl =>
      if negb (String.eqb (URL.hostname referrerUrl)
                          (URL.hostname (Window.location win)))
      then Some (Window.document_referrer win)
      else None
    | None => None
    end
  else None.

(** The extracted record, field by field. *)
Definition extracted_field (win : Window.t) (new_URL : string -> option URL.t)
  (k : AttributionData.key) : option string :=
  match k with
  | AttributionData.Referrer => external_referrer win new_URL
  | AttributionData.Landing_page => Some (URL.pathname (Window.location win))
  | _ => query_value (URL.searchParams (Window.location win)) k
  end.

(** The rule as it is claimed: the record has a referrer exactly when the
    document's referrer is not empty, parses, and has another origin than the
    page. *)
Definition referrer_by_origin (p : Policy) (w : World) (win : Window.t) : Prop :=
  is_Some (AttributionData.referrer (parseAttributionData p w)) <->
  Window.document_referrer win <> "" /\
  exists r, new_URL w (Window.document_referrer win) = Some r
            /\ URL.origin r <> URL.origin (Window.location win).

(** The page [https://shop.example.com/], reached from the same host over
    plain HTTP. *)
Definition upgraded_window : Window.t :=
  Window.mk sample_location "http://shop.example.com/old" "" Storage.empty
            (Some "device-1").

Definition upgraded_world : World :=
  mkWorld (Some upgraded_window) 1700000000000
    (fun s =>
       if String.eqb s "http://shop.example.com/old"
       then Some (URL.mk "http://shop.example.com/old" "http:" "shop.example.com"
                         "" "/old" [])
       else None)
    (fun _ => Stored) (fun _ => Stored) (fun _ => 0%Z) 0 []
    (fun _ => Stored) (fun _ => Stored) keeps_cookies.

(** A visit from another site. *)
Definition search_window : Window.t :=
  Window.mk sample_location "https://www.google.com/" "" Storage.empty
            (Some "device-1").

Definition search_world : World :=
  mkWorld (Some search_window) 1700000000000
    (fun s =>
       if String.eqb s "https://www.google.com/"
       then Some (URL.mk "https://www.google.com/" "https:" "www.google.com" "" "/" [])
       else None)
    (fun _ => Stored) (fun _ => Stored) (fun _ => 0%Z) 0 []
    (fun _ => Stored) (fun _ => Stored) keeps_cookies.

(** ** The persisted attribution *)

(** The copy of the attribution record in storage, if there is one. *)
Definition persisted_attribution (w : World) : option (Item AttributionData.t) :=
  storage w ≫= Storage.attribution.

(** A record captured thirty days and one minute ago. *)
Definition old_record : AttributionData.t :=
  AttributionData.set_timestamp (1700000000000 - (43200 * 60000 + 60000))
    (AttributionData.set AttributionData.Utm_source "google" AttributionData.empty).

Definition old_record_window : Window.t :=
  Window.mk sample_location "" ""
    (Storage.mk None (Some (Json old_record)) None None) (Some "device-1").

Definition old_record_world : World :=
  mkWorld (Some old_record_window) 1700000000000 (fun _ => None)
          (fun _ => Stored) (fun _ => Stored) (fun _ => 0%Z) 0 []
    (fun _ => Stored) (fun _ => Stored) keeps_cookies.

(** ** Page views under [PolicyA] *)

(** The query string gives one of the ten marketing fields a value that is
    not empty. *)
Definition url_has_marketing (u : URL.t) : Prop :=
  exists k, k ∈ AttributionData.marketing
            /\ exists v, URL.get (AttributionData.name k) (URL.searchParams u) = Some v
                         /\ v <> "".

(** The event of the newest request handed to [fetch]. *)
Definition posted (w : World) : option PageViewEvent.t :=
  Payload.event <$> last (outbox w).

(** What is claimed of such a navigation: the event carries the extracted
    record, which becomes the current attribution and the stored one. *)
Definition new_attribution_claimed (o : this.t) (w : World) : Prop :=
  let fresh := parseAttributionData PolicyA w in
  let o' := (trackCurrentPageView_A o w).1 in
  let w' := (trackCurrentPageView_A o w).2 in
  PageViewEvent.attribution <$> posted w' = Some fresh
  /\ this.currentAttribution o' = fresh
  /\ persisted_attribution w' = Some (Json fresh).

Definition campaign_location : URL.t :=
  URL.mk "https://shop.example.com/?utm_source=google&utm_medium=cpc&utm_campaign=spring_sale"
         "https:" "shop.example.com" "" "/"
         [("utm_source", "google"); ("utm_medium", "cpc");
          ("utm_campaign", "spring_sale")].

Definition campaign_window : Window.t :=
  Window.mk campaign_location "" "" Storage.empty (Some "device-1").

Definition campaign_world : World :=
  mkWorld (Some campaign_window) 1700000000000 (fun _ => None)
          (fun _ => Stored) (fun _ => Stored) (fun _ => 0%Z) 0 []
    (fun _ => Stored) (fun _ => Stored) keeps_cookies.

(** The same visit in a browser that refuses the write of the attribution
    record. *)
Definition campaign_world_unwritable : World :=
  mkWorld (Some campaign_window) 1700000000000 (fun _ => None)
          (fun _ => Stored) (fun _ => QuotaExceeded) (fun _ => 0%Z) 0 []
    (fun _ => Stored) (fun _ => Stored) keeps_cookies.

(** A tracker of [PolicyA] that has tracked nothing yet. *)
Definition new_tracker : this.t :=
  this.mk (Options.defaults ".example.com") [] true "device-1" None false None
          "" None AttributionData.empty.

(** The expiry test of [loadAttributionData], applied to a record at the
    present time. *)
Definition expired (o : this.t) (w : World) (a : AttributionData.t) : bool :=
  has_timestamp a
  && negb (Qle_bool
             (ageInMinutes (now w)
                (default 0%Z (AttributionData.attribution_timestamp a)))
             (inject_Z (Options.attributionExpiry (this.options o)))).

(** What is claimed of such a navigation: the event carries the current
    attribution, moved to the current path, if there is one and it has not
    expired, and the extracted record otherwise. *)
Definition inherited_claimed (o : this.t) (w : World) (win : Window.t) : Prop :=
  let current := this.currentAttribution o in
  PageViewEvent.attribution <$> posted (trackCurrentPageView_A o w).2 =
  Some (if AttributionData.has_keys current && negb (expired o w current)
        then AttributionData.set AttributionData.Landing_page
               (URL.pathname (Window.location win)) current
        else parseAttributionData PolicyA w).

Definition checkout_location : URL.t :=
  URL.mk "https://shop.example.com/checkout" "https:" "shop.example.com" ""
         "/checkout" [].

Definition checkout_window : Window.t :=
  Window.mk checkout_location "" "" Storage.empty (Some "device-1").

Definition checkout_world : World :=
  mkWorld (Some checkout_window) 1700000000000 (fun _ => None)
          (fun _ => Stored) (fun _ => Stored) (fun _ => 0%Z) 0 []
    (fun _ => Stored) (fun _ => Stored) keeps_cookies.

(** A record captured one minute short of thirty days before the clock of
    the samples reads 1700000000000, and the checkout page in a browser
    that holds it, [elapsed] milliseconds after that reading. *)
Definition recent_capture : Z := 1700000000000 - (43200 * 60000 - 60000).

Definition recent_record : AttributionData.t :=
  AttributionData.set_timestamp recent_capture
    (AttributionData.set AttributionData.Utm_source "google" AttributionData.empty).

Definition recent_record_world (elapsed : Z) : World :=
  mkWorld
    (Some (Window.mk checkout_location "" ""
             (Storage.mk None (Some (Json recent_record)) None None)
             (Some "device-1")))
    (1700000000000 + elapsed) (fun _ => None)
    (fun _ => Stored) (fun _ => Stored) (fun _ => 0%Z) 0 []
    (fun _ => Stored) (fun _ => Stored) keeps_cookies.

(** A tracker whose page has stayed open: the attribution it holds was
    captured thirty days and one minute before the navigation. *)
Definition stale_tracker : this.t :=
  this.set_currentAttribution old_record (sample_tracker []).

(** The environment after the page has moved to another address. *)
Definition navigate (location : URL.t) (w : World) : World :=
  match window w with
  | Some win =>
    set_window
      (Some (Window.mk location (Window.document_referrer win)
               (Window.document_title win) (Window.localStorage win)
               (Window.cookie win))) w
  | None => w
  end.

(** ** Page views under [PolicyB] *)

(** The comparison of [isNewAttributionSource], as a proposition: some
    marketing field of the fresh record has a non-empty value that the last
    event's record does not have. *)
Definition brings_new_value (fresh last_attribution : AttributionData.t) : Prop :=
  exists k v, k ∈ AttributionData.marketing
              /\ AttributionData.get k fresh = Some v
              /\ v <> ""
              /\ AttributionData.get k last_attribution <> Some v.

(** The skip rule as claimed: the log is not empty, its last event has the
    address of the page, and each of the ten marketing fields is the same in
    the fresh record and in the last event's record - present in both with
    one value, or absent from both. *)
Definition same_fields (win : Window.t) (fresh : AttributionData.t) (o : this.t)
  : Prop :=
  exists lastEvent,
    last (this.events o) = Some lastEvent
    /\ PageViewEvent.url lastEvent = URL.href (Window.location win)
    /\ forall k, k ∈ AttributionData.marketing ->
                 AttributionData.get k fresh
                 = AttributionData.get k (PageViewEvent.attribution lastEvent).

(** The claim: nothing happens exactly when [same_fields] holds. *)
Definition dedup_claimed (o : this.t) (w : World) (win : Window.t) : Prop :=
  trackCurrentPageView_B o w = (o, w)
  <-> same_fields win (parseAttributionData PolicyB w) o.

(** A log whose last event is a visit of the sample page that carries
    [utm_source=google], as a log written by [PolicyA] may hold. *)
Definition inherited_event : PageViewEvent.t :=
  PageViewEvent.mk "https://shop.example.com/" 1699999990000 None None
    (AttributionData.set AttributionData.Utm_source "google" AttributionData.empty)
    "device-1" false "event-0".

(** The skip rule of the code: the log is not empty, its last event has the
    address of the page, and every marketing field the fresh record has is
    in the last event's record with the same value.  A field that only the
    last event's record has does not count; the referrer and the landing
    page are not compared. *)
Definition same_source (win : Window.t) (fresh : AttributionData.t) (o : this.t)
  : Prop :=
  exists lastEvent,
    last (this.events o) = Some lastEvent
    /\ PageViewEvent.url lastEvent = URL.href (Window.location win)
    /\ forall k v, k ∈ AttributionData.marketing ->
                   AttributionData.get k fresh = Some v ->
                   AttributionData.get k (PageViewEvent.attribution lastEvent) = Some v.

(** ** Scenarios *)

(** The page of the sample site at a path, without query string. *)
Definition page (path : string) : URL.t :=
  URL.mk ("https://shop.example.com" +:+ path) "https:" "shop.example.com" ""
         path [].

(** A browser in which every write succeeds and successive random values
    differ, so that every generated identifier is new. *)
Definition counting_world : World :=
  mkWorld (Some sample_window) 1700000000000 (fun _ => None)
          (fun _ => Stored) (fun _ => Stored) Z.of_nat 0 []
    (fun _ => Stored) (fun _ => Stored) keeps_cookies.

(** The listener runs after the page has moved to each of the paths in
    turn. *)
Fixpoint visit (p : Policy) (paths : list string) (o : this.t) (w : World)
  : this.t * World :=
  match paths with
  | [] => (o, w)
  | path :: rest =>
    let '(o1, w1) := on_navigation p o (navigate (page path) w) in
    visit p rest o1 w1
  end.

(** A tracker that holds at most three events. *)
Definition small_tracker : this.t :=
  this.mk (Options.mk ".example.com" 365 3 true true true true true (30 * 24 * 60))
          [] true "device-1" None false None "" None AttributionData.empty.

(** ** Objects and references ([getEvents])

    What a caller can do with the array [getEvents] returns depends on which
    objects the array shares with the log.  Here the log is an array object
    that holds references to event objects, each of which holds a reference
    to its attribution object, as in the program; [read_array] gives back
    the list of events the rest of this file works with. *)
Module Heap.

Definition loc : Type := positive.

(** A [PageViewEvent] object; its [attribution] property is a reference. *)
Record event_object : Type := mk_event {
  url : string;
  timestamp : Z;
  referrer : option string;
  title : option string;
  attribution : loc;
  uuid : string;
  is_loggedin : bool;
  event_id : string
}.

Inductive object : Type :=
| Array (elements : list loc)
| EventObject (e : event_object)
| AttributionObject (a : AttributionData.t).

Abbreviation heap := (gmap loc object).

Definition read_attribution (h : heap) (l : loc) : option AttributionData.t :=
  match h !! l with
  | Some (AttributionObject a) => Some a
  | _ => None
  end.

Definition read_event (h : heap) (l : loc) : option PageViewEvent.t :=
  match h !! l with
  | Some (EventObject e) =>
    a ← read_attribution h (attribution e);
    Some (PageViewEvent.mk (url e) (timestamp e) (referrer e) (title e) a
                           (uuid e) (is_loggedin e) (event_id e))
  | _ => None
  end.

(** The events an array object holds, read through its references. *)
Definition read_array (h : heap) (l : loc) : option (list PageViewEvent.t) :=
  match h !! l with
  | Some (Array elements) => mapM (read_event h) elements
  | _ => None
  end.

(** [getEvents()], that is [[...this.events]]: a new array object with the
    elements of the log, which are references. *)
Definition getEvents (h : heap) (events : loc) : heap * loc :=
  let returned := fresh (dom h) in
  match h !! events with
  | Some (Array elements) => (<[returned := Array elements]> h, returned)
  | _ => (h, returned)
  end.

(** What a caller can do to what it reaches from the returned array:
    change the array itself ([push], [pop], [length = 0], [returned[i] = x]),
    assign to a property of an element ([returned[i].is_loggedin = true]), or
    assign to a property of an element's attribution
    ([returned[i].attribution.utm_source = "x"]). *)
Inductive mutation : Type :=
| SetElements (elements : list loc)
| SetEventProperty (i : nat) (f : event_object -> event_object)
| SetAttributionProperty (i : nat) (f : AttributionData.t -> AttributionData.t).

Definition element (h : heap) (array : loc) (i : nat) : option loc :=
  match h !! array with
  | Some (Array elements) => elements !! i
  | _ => None
  end.

Definition mutate (h : heap) (returned : loc) (m : mutation) : heap :=
  match m with
  | SetElements elements =>
    alter (fun o => match o with Array _ => Array elements | _ => o end) returned h
  | SetEventProperty i f =>
    match element h returned i with
    | Some l =>
      alter (fun o => match o with EventObject e => EventObject (f e) | _ => o end) l h
    | None => h
    end
  | SetAttributionProperty i f =>
    match element h returned i with
    | Some l =>
      match h !! l with
      | Some (EventObject e) =>
        alter (fun o => match o with
                        | AttributionObject a => AttributionObject (f a)
                        | _ => o
                        end) (attribution e) h
      | _ => h
      end
    | None => h
    end
  end.

(** The copy is defensive, as claimed: the returned array reads as the log,
    and whatever the caller does through it, the log reads as before. *)
Definition defensive_copy (h : heap) (events : loc) : Prop :=
  let '(h1, returned) := getEvents h events in
  read_array h1 returned = read_array h events
  /\ forall m, read_array (mutate h1 returned m) events = read_array h events.

(** A heap with a log of one event. *)
Definition one_event_heap : heap :=
  {[ 1%positive := Array [2%positive];
     2%positive :=
       EventObject (mk_event "https://shop.example.com/" 1700000000000 None None
                             3%positive "device-1" false "event-1");
     3%positive := AttributionObject AttributionData.empty ]}.

Definition set_is_loggedin (b : bool) (e : event_object) : event_object :=
  mk_event (url e) (timestamp e) (referrer e) (title e) (attribution e)
           (uuid e) b (event_id e).

End Heap.

(** ** Identifiers and cookies *)

(** A lower-case hexadecimal digit. *)
Definition is_hex (c : ascii) : bool :=
  existsb (Ascii.eqb c) (list_ascii_of_string "0123456789abcdef").

(** One of the four digits whose two high bits are [10]. *)
Definition is_variant (c : ascii) : bool :=
  existsb (Ascii.eqb c) (list_ascii_of_string "89ab").

(** A text follows a template: a hexadecimal digit for each [x], one of
    [8 9 a b] for each [y], and the character of the template elsewhere. *)
Fixpoint matches_template (template s : list ascii) : bool :=
  match template, s with
  | [], [] => true
  | t :: template', c :: s' =>
    (if Ascii.eqb t "x" then is_hex c
     else if Ascii.eqb t "y" then is_variant c
     else Ascii.eqb c t)
    && matches_template template' s'
  | _, _ => false
  end.

(** The shape of a version 4 identifier. *)
Definition uuid_v4 (s : string) : bool :=
  matches_template (list_ascii_of_string uuid_template) (list_ascii_of_string s).

(** The character occurs in the string. *)
Fixpoint has_char (c : ascii) (s : string) : bool :=
  match s with
  | EmptyString => false
  | String ch rest => Ascii.eqb ch c || has_char c rest
  end.

(** [document.cookie] for a jar of names and values, as browsers give it:
    the pairs [name=value], joined by a semicolon and a space. *)
Definition cookie_text (jar : list (string * string)) : string :=
  String.concat "; " ((fun nv => nv.1 +:+ "=" +:+ nv.2) <$> jar).

(** The value of the first cookie of that name. *)
Fixpoint cookie_value (name : string) (jar : list (string * string)) : option string :=
  match jar with
  | [] => None
  | (n, v) :: rest => if String.eqb n name then Some v else cookie_value name rest
  end.

(** A cookie a jar can hold: no semicolon in its name or value, no equals
    sign in its name, and no space at the start of its name. *)
Definition cookie_ok (nv : string * string) : Prop :=
  has_char ";" nv.1 = false /\ has_char "=" nv.1 = false
  /\ strip_spaces nv.1 = nv.1 /\ has_char ";" nv.2 = false.

(** What [getCookie] gives for the value found in the jar. *)
Definition decoded (decodeURIComponent : string -> option string)
  (value : option string) : Completion (option string) :=
  match value with
  | None => Return None
  | Some v =>
    match decodeURIComponent v with
    | Some s => Return (Some s)
    | None => Throw
    end
  end.

(** The value of the device cookie, if there is a window and the jar has
    one. *)
Definition device_cookie (w : World) : option string :=
  window w ≫= Window.cookie.

(** The [domain] attribute [setCookie] writes for these options. *)
Definition domain_attribute (options : Options.t) : string :=
  if String.eqb (Options.cookieDomain options) "" then ""
  else "; domain=" +:+ Options.cookieDomain options.

(** The browser keeps the device cookie a tracker with these options writes:
    whatever identifier it is given with the lifetime and the domain
    attribute of the options, the jar holds afterwards. *)
Definition keeps_device_cookie (options : Options.t) (w : World) : Prop :=
  forall value,
    assign_cookie w value (Options.cookieExpireDays options)
                  (domain_attribute options)
    = Some value.

(** The page [https://shop.co.uk/] on a first visit, in a browser that
    refuses a cookie for the public suffix [.co.uk] and keeps no cookie
    whose lifetime is not positive.  Successive random values differ. *)
Definition public_suffix_world : World :=
  mkWorld
    (Some (Window.mk (URL.mk "https://shop.co.uk/" "https:" "shop.co.uk" "" "/" [])
                     "" "" Storage.empty None))
    1700000000000 (fun _ => None) (fun _ => Stored) (fun _ => Stored)
    Z.of_nat 0 [] (fun _ => Stored) (fun _ => Stored)
    (fun value days domain =>
       if String.eqb domain "; domain=.co.uk" || (days <=? 0)%Z then None
       else Some value).

(** The page [https://example.com/]. *)
Definition apex_world : World :=
  mkWorld
    (Some (Window.mk (URL.mk "https://example.com/" "https:" "example.com" "" "/" [])
                     "" "" Storage.empty (Some "device-1")))
    1700000000000 (fun _ => None) (fun _ => Stored) (fun _ => Stored)
    (fun _ => 0%Z) 0 []
    (fun _ => Stored) (fun _ => Stored) keeps_cookies.

(** A browser that comes to the site for the first time: it has no device
    cookie. *)
Definition first_visit_world : World :=
  mkWorld (Some (Window.mk sample_location "" "" Storage.empty None))
          1700000000000 (fun _ => None) (fun _ => Stored) (fun _ => Stored)
          (fun _ => 0%Z) 0 []
    (fun _ => Stored) (fun _ => Stored) keeps_cookies.

(** ** The session and the surroundings *)

(** The user id and the prior device identifier in storage. *)
Definition stored_user_id (w : World) : option string :=
  storage w ≫= Storage.user_id.

Definition stored_old_uuid (w : World) : option string :=
  storage w ≫= Storage.old_uuid.

(** The part of the environment that tracking reads and never writes: the
    page, the clock, how the browser answers, and the two identity keys of
    the storage. *)
Definition surroundings (w : World) :=
  (Window.location <$> window w, Window.document_referrer <$> window w,
   Window.document_title <$> window w, now w, new_URL w, setItem_history w,
   setItem_attribution w, random w, stored_user_id w, stored_old_uuid w,
   setItem_user_id w, setItem_old_uuid w, assign_cookie w).

(** Two objects agree on the configuration, the identifiers and the login
    state. *)
Definition same_session (a b : this.t) : Prop :=
  this.options a = this.options b
  /\ this.uuid a = this.uuid b
  /\ this.oldUuid a = this.oldUuid b
  /\ this.derivUserId a = this.derivUserId b
  /\ this.isLoggedIn a = this.isLoggedIn b.

(** The calls that track page views or clear the log. *)
Definition tracking_call (c : Call) : bool :=
  match c with
  | TrackPageView | Navigation | ClearEvents => true
  | _ => false
  end.

(** The calls that write a user id or the prior device identifier. *)
Definition writes_identity (c : Call) : bool :=
  match c with
  | RecordLogin _ | RecordSignup _ => true
  | UpdateLoginState _ userId => truthy_opt userId
  | _ => false
  end.

(** A browser whose storage holds the user id of an earlier login. *)
Definition returning_world : World :=
  mkWorld
    (Some (Window.mk sample_location "" ""
                     (Storage.mk None None (Some "user-42") None) (Some "device-1")))
    1700000000000 (fun _ => None) (fun _ => Stored) (fun _ => Stored)
    (fun _ => 0%Z) 0 []
    (fun _ => Stored) (fun _ => Stored) keeps_cookies.

(** A tracker with [autoTrack] off on which [init] has not run. *)
Definition manual_tracker : this.t :=
  this.mk (Options.mk ".example.com" 365 100 true true false true true (30 * 24 * 60))
          [] false "device-1" None false None "" None AttributionData.empty.

(** A tracker with [maxEvents = 0]. *)
Definition zero_tracker : this.t :=
  this.mk (Options.mk ".example.com" 365 0 true true true true true (30 * 24 * 60))
          [] true "device-1" None false None "" None AttributionData.empty.

(** ** The log and its copy in storage *)

(** The write of [evs] under the history key succeeds. *)
Definition write_succeeds (w : World) (evs : list PageViewEvent.t) : bool :=
  bool_decide (is_Some (window w)) && bool_decide (setItem_history w evs = Stored).

(** A browser with a storage that takes every write of the log. *)
Definition writable (w : World) : Prop :=
  is_Some (window w) /\ forall evs, setItem_history w evs = Stored.

(** A tracker that starts with an empty log and loads the stored one, as a
    new tracker does in [init], gets the log of [o]. *)
Definition restorable (o : this.t) (w : World) : Prop :=
  this.events (loadEvents (this.set_events [] o) w) = this.events o.

(** The log was left alone, in the object and in storage, or storage holds
    the log of the object. *)
Definition kept_or_written (o : this.t) (w : World) (o' : this.t) (w' : World)
  : Prop :=
  (this.events o' = this.events o /\ persisted_history w' = persisted_history w)
  \/ persisted_history w' = Some (Json (this.events o')).

(** Every event of a log carries the device identifier [u]. *)
Definition stamped (u : string) (evs : list PageViewEvent.t) : Prop :=
  Forall (fun e => PageViewEvent.uuid e = u) evs.

(** The stored log, if storage holds one, carries the device identifier. *)
Definition stored_stamped (u : string) (w : World) : Prop :=
  forall evs, persisted_history w = Some (Json evs) -> stamped u evs.

(** The current-page pointer names the newest event [e] of the log, and no
    older event carries the identifier of [e]. *)
Definition points_at_newest (o : this.t) (e : PageViewEvent.t) : Prop :=
  last (this.events o) = Some e
  /\ this.currentPageEventId o = Some (PageViewEvent.event_id e)
  /\ PageViewEvent.event_id e <> ""
  /\ forall j older,
       j < pred (length (this.events o)) ->
       this.events o !! j = Some older ->
       PageViewEvent.event_id older <> PageViewEvent.event_id e.

(** ** The backend and the attribution *)

(** The request [sendEventToBackend] builds for an event. *)
Definition request (o : this.t) (w : World) (event : PageViewEvent.t) : Payload.t :=
  Payload.mk (this.uuid o) (or_undefined (this.derivUserId o))
             (or_undefined (this.oldUuid o)) event (now w).

(** Between [w] and [w'] nothing was posted, or one request with the
    identifiers of [o] and the time of [w], after the requests posted
    before. *)
Definition posts_at_most_one (o : this.t) (w w' : World) : Prop :=
  outbox w' = outbox w
  \/ exists event, outbox w' = outbox w ++ [request o w event].

(** Neither the backend nor the attribution was touched. *)
Definition silent (o : this.t) (w : World) (o' : this.t) (w' : World) : Prop :=
  outbox w' = outbox w
  /\ persisted_attribution w' = persisted_attribution w
  /\ this.currentAttribution o' = this.currentAttribution o.

(** The campaign page with its parameters in another order, a second
    [utm_source] and a parameter the tracker does not know. *)
Definition campaign_world_shuffled : World :=
  mkWorld
    (Some (Window.mk
             (URL.mk "https://shop.example.com/?utm_content=banner&utm_campaign=spring_sale&utm_medium=cpc&utm_source=google&utm_source=bing"
                     "https:" "shop.example.com" "" "/"
                     [("utm_content", "banner"); ("utm_campaign", "spring_sale");
                      ("utm_medium", "cpc"); ("utm_source", "google");
                      ("utm_source", "bing")])
             "" "" Storage.empty (Some "device-1")))
    1700000000000 (fun _ => None) (fun _ => Stored) (fun _ => Stored)
    (fun _ => 0%Z) 0 []
    (fun _ => Stored) (fun _ => Stored) keeps_cookies.

(** * Properties *)

(** ** Lists: [slice] and [last_n] *)

Section Lists.
Context {A : Type}.
Implicit Types l k : list A.

Lemma slice_last_n (n : Z) l :
  (0 <= n <= Z.of_nat (length l))%Z ->
  slice (Z.of_nat (length l) - n) l = last_n (Z.to_nat n) l.
Proof.
  intros Hn. unfold slice, last_n.
  destruct (Z.ltb_spec (Z.of_nat (length l) - n) 0) as [Hneg | _]; [lia |].
  f_equal. lia.
Qed.

Lemma last_n_length (n : nat) l : length (last_n n l) = n `min` length l.
Proof. unfold last_n. rewrite length_drop. lia. Qed.

Lemma last_n_all (n : nat) l : length l <= n -> last_n n l = l.
Proof.
  intros H. unfold last_n. replace (length l - n) with 0 by lia. reflexivity.
Qed.

Lemma last_n_suffix (n : nat) l : last_n n l `suffix_of` l.
Proof. apply suffix_drop. Qed.

Lemma last_n_last_n (n m : nat) l : n <= m -> last_n n (last_n m l) = last_n n l.
Proof.
  intros H. unfold last_n. rewrite length_drop, drop_drop. f_equal. lia.
Qed.

Lemma last_n_app (n : nat) l k :
  last_n n (l ++ k) = last_n (n - length k) l ++ last_n n k.
Proof.
  unfold last_n. rewrite length_app, drop_app.
  destruct (decide (n <= length k)) as [Hle | Hgt].
  - rewrite (drop_ge l (length l + length k - n)) by lia.
    rewrite (drop_ge l (length l - (n - length k))) by lia.
    simpl. f_equal. lia.
  - f_equal; f_equal; lia.
Qed.

(** Trimming before more elements arrive does not change what is kept. *)
Lemma last_n_app_trimmed (n : nat) l k :
  last_n n (last_n n l ++ k) = last_n n (l ++ k).
Proof.
  rewrite !last_n_app. f_equal. apply last_n_last_n. lia.
Qed.

Lemma last_n_last (n : nat) l : 0 < n -> last (last_n n l) = last l.
Proof.
  intros Hn. unfold last_n.
  destruct (decide (length l = 0)) as [H0 | Hne].
  - destruct l; [reflexivity | discriminate].
  - rewrite !last_lookup, length_drop, lookup_drop. f_equal. lia.
Qed.
End Lists.

(** ** Records *)

Lemma set_events_same (o : this.t) : this.set_events (this.events o) o = o.
Proof. destruct o; reflexivity. Qed.

(** ** Persisting the log ([saveEvents]) *)

Lemma quota_free_no_cut (w : World) evs : quota_free w -> quota_cut w evs = false.
Proof.
  intros H. unfold quota_cut.
  rewrite (bool_decide_eq_false_2 _ (H evs)), andb_false_r. reflexivity.
Qed.

Lemma with_storage_setItem_history f w :
  setItem_history (with_storage f w) = setItem_history w.
Proof. unfold with_storage. destruct (window w); reflexivity. Qed.

Lemma with_storage_setItem_old_uuid f w :
  setItem_old_uuid (with_storage f w) = setItem_old_uuid w.
Proof. unfold with_storage. destruct (window w); reflexivity. Qed.

Lemma with_storage_window_is_Some f w :
  is_Some (window (with_storage f w)) <-> is_Some (window w).
Proof.
  unfold with_storage. destruct (window w) eqn:E; simpl; [| rewrite E; tauto].
  split; intros _; eauto.
Qed.

(** The log [saveEvents] retries with holds ten events. *)
Lemma cut_log_length (evs : list PageViewEvent.t) :
  10 < length evs -> length (slice (Z.of_nat (length evs) - 10) evs) = 10.
Proof. intros H. rewrite slice_last_n, last_n_length by lia. lia. Qed.

Lemma saveEvents_fuel_unfold (fuel : nat) (o : this.t) (w : World) :
  saveEvents_fuel fuel o w =
  match window w with
  | None => (o, w)
  | Some _ =>
    match setItem_history w (this.events o) with
    | Stored =>
      (o, with_storage (Storage.set_history (Some (Json (this.events o)))) w)
    | QuotaExceeded =>
      if (10 <? length (this.events o))%nat then
        let o' :=
          this.set_events
            (slice (Z.of_nat (length (this.events o)) - 10) (this.events o)) o in
        match fuel with
        | O => (o', w)
        | S fuel' => saveEvents_fuel fuel' o' w
        end
      else (o, w)
    | OtherFailure => (o, w)
    end
  end.
Proof. destruct fuel; reflexivity. Qed.

(** With ten events or fewer the method does not call itself. *)
Lemma saveEvents_fuel_small (fuel : nat) (o : this.t) (w : World) :
  length (this.events o) <= 10 -> saveEvents_fuel fuel o w = saveEvents_fuel 0 o w.
Proof.
  intros Hlen. destruct fuel as [| fuel]; [reflexivity |]. simpl.
  destruct (window w); [| reflexivity].
  destruct (setItem_history w (this.events o)); try reflexivity.
  destruct (Nat.ltb_spec 10 (length (this.events o))); [lia | reflexivity].
Qed.

(** One nested call is the deepest [saveEvents] goes: more fuel changes
    nothing. *)
Lemma saveEvents_fuel_enough (fuel : nat) (o : this.t) (w : World) :
  saveEvents_fuel (S fuel) o w = saveEvents o w.
Proof.
  unfold saveEvents.
  rewrite (saveEvents_fuel_unfold (S fuel)), (saveEvents_fuel_unfold 1).
  destruct (window w); [| reflexivity].
  destruct (setItem_history w (this.events o)); try reflexivity.
  destruct (Nat.ltb_spec 10 (length (this.events o))) as [Hlen | Hlen]; [| reflexivity].
  apply saveEvents_fuel_small. simpl. rewrite cut_log_length; lia.
Qed.

Lemma quota_cut_true (w : World) evs :
  quota_cut w evs = true <->
  is_Some (window w) /\ setItem_history w evs = QuotaExceeded /\ 10 < length evs.
Proof.
  unfold quota_cut.
  rewrite !andb_true_iff, !bool_decide_eq_true, Nat.ltb_lt. tauto.
Qed.

(** The object after [saveEvents]: only the log can have changed, and it has
    changed only by the cut to the ten newest events. *)
Lemma saveEvents_this (o : this.t) (w : World) :
  (saveEvents o w).1 = this.set_events (persisted_log w (this.events o)) o.
Proof.
  unfold saveEvents, persisted_log. rewrite saveEvents_fuel_unfold.
  destruct (quota_cut w (this.events o)) eqn:Hq.
  - apply quota_cut_true in Hq as ([win Hw] & Hs & Hlen).
    rewrite Hw, Hs. rewrite (proj2 (Nat.ltb_lt _ _) Hlen).
    cbv zeta. rewrite saveEvents_fuel_unfold, Hw. simpl this.events.
    rewrite cut_log_length by assumption.
    rewrite slice_last_n by lia. change (Z.to_nat 10) with 10.
    destruct (setItem_history w (last_n 10 (this.events o))); reflexivity.
  - destruct (window w) as [win |] eqn:Hw; [| symmetry; apply set_events_same].
    destruct (setItem_history w (this.events o)) eqn:Hs;
      try (symmetry; apply set_events_same).
    destruct (Nat.ltb_spec 10 (length (this.events o))) as [Hlen | Hlen];
      [| symmetry; apply set_events_same].
    assert (quota_cut w (this.events o) = true) as Hq'
      by (apply quota_cut_true; eauto).
    congruence.
Qed.

Lemma saveEvents_fuel_setItem_history (fuel : nat) (o : this.t) (w : World) :
  setItem_history (saveEvents_fuel fuel o w).2 = setItem_history w.
Proof.
  revert o. induction fuel as [| fuel IH]; intros o;
    rewrite saveEvents_fuel_unfold;
    destruct (window w); try reflexivity;
    destruct (setItem_history w (this.events o));
    try reflexivity; try apply with_storage_setItem_history;
    destruct (10 <? length (this.events o))%nat; try reflexivity.
  apply IH.
Qed.

Lemma saveEvents_setItem_history (o : this.t) (w : World) :
  setItem_history (saveEvents o w).2 = setItem_history w.
Proof. apply saveEvents_fuel_setItem_history. Qed.

Lemma persisted_log_suffix (w : World) evs : persisted_log w evs `suffix_of` evs.
Proof.
  unfold persisted_log. destruct (quota_cut w evs); [apply last_n_suffix | reflexivity].
Qed.

Lemma persisted_log_length (w : World) evs : length (persisted_log w evs) <= length evs.
Proof. apply suffix_length, persisted_log_suffix. Qed.

Lemma persisted_log_last (w : World) evs : last (persisted_log w evs) = last evs.
Proof.
  unfold persisted_log. destruct (quota_cut w evs); [| reflexivity].
  apply last_n_last. lia.
Qed.

(** ** Appending to the log ([addEvent]) *)

(** The trim of [addEvent] keeps the [maxEvents] newest events. *)
Lemma trim_last_n (max : Z) (pushed : list PageViewEvent.t) :
  (0 <= max)%Z ->
  (if (max <? Z.of_nat (length pushed))%Z
   then slice (Z.of_nat (length pushed) - max) pushed
   else pushed)
  = last_n (Z.to_nat max) pushed.
Proof.
  intros Hmax. destruct (Z.ltb_spec max (Z.of_nat (length pushed))).
  - apply slice_last_n. lia.
  - symmetry. apply last_n_all. lia.
Qed.

Lemma addEvent_world_setItem_history p e o w :
  setItem_history (addEvent p e o w).2 = setItem_history w.
Proof.
  unfold addEvent. cbv zeta.
  match goal with
  | |- context [saveEvents ?x w] =>
    pose proof (saveEvents_setItem_history x w) as H;
    destruct (saveEvents x w) as [o1 w1]
  end.
  destruct p; exact H.
Qed.

(** The object after [addEvent]: only the log changes. *)
Lemma addEvent_this_any p e o w :
  (addEvent p e o w).1 =
  this.set_events
    (persisted_log w
       (trimmed (Options.maxEvents (this.options o)) (this.events o ++ [e])))
    o.
Proof.
  unfold addEvent, trimmed. cbv zeta.
  match goal with
  | |- context [saveEvents ?x w] =>
    pose proof (saveEvents_this x w) as H;
    destruct (saveEvents x w) as [o1 w1]
  end.
  simpl in H. subst o1. destruct p; reflexivity.
Qed.

(** The object after [addEvent]: the log is the trimmed log as [saveEvents]
    leaves it, and no other field changes. *)
Lemma addEvent_this p e o w :
  (0 <= Options.maxEvents (this.options o))%Z ->
  (addEvent p e o w).1 =
  this.set_events
    (persisted_log w
       (last_n (Z.to_nat (Options.maxEvents (this.options o))) (this.events o ++ [e])))
    o.
Proof.
  intros Hmax. rewrite addEvent_this_any. unfold trimmed.
  rewrite trim_last_n by assumption. reflexivity.
Qed.

Lemma addEvents_snoc p es e o w :
  addEvents p (es ++ [e]) o w =
  addEvent p e (addEvents p es o w).1 (addEvents p es o w).2.
Proof.
  revert o w. induction es as [| e' es IH]; intros o w; simpl.
  - destruct (addEvent p e o w); reflexivity.
  - destruct (addEvent p e' o w) as [o1 w1]. apply IH.
Qed.

Lemma addEvents_options p es o w :
  (0 <= Options.maxEvents (this.options o))%Z ->
  this.options (addEvents p es o w).1 = this.options o.
Proof.
  revert o w. induction es as [| e es IH]; intros o w Hmax; [reflexivity |].
  simpl. destruct (addEvent p e o w) as [o1 w1] eqn:Ea.
  assert (this.options o1 = this.options o) as Ho.
  { replace o1 with (addEvent p e o w).1 by (rewrite Ea; reflexivity).
    rewrite addEvent_this by assumption. reflexivity. }
  rewrite IH; rewrite Ho; done.
Qed.

Lemma addEvents_setItem_history p es o w :
  setItem_history (addEvents p es o w).2 = setItem_history w.
Proof.
  revert o w. induction es as [| e es IH]; intros o w; [reflexivity |].
  simpl. destruct (addEvent p e o w) as [o1 w1] eqn:Ea.
  rewrite IH. replace w1 with (addEvent p e o w).2 by (rewrite Ea; reflexivity).
  apply addEvent_world_setItem_history.
Qed.

Lemma addEvents_quota_free p es o w :
  quota_free w -> quota_free (addEvents p es o w).2.
Proof. unfold quota_free. rewrite addEvents_setItem_history. done. Qed.

(** The log never holds anything but a suffix of what it was given. *)
Lemma addEvents_suffix p es o w :
  (0 <= Options.maxEvents (this.options o))%Z ->
  this.events (addEvents p es o w).1 `suffix_of` this.events o ++ es.
Proof.
  intros Hmax. induction es as [| e es IH] using rev_ind.
  - simpl. rewrite app_nil_r. reflexivity.
  - rewrite addEvents_snoc, addEvent_this
      by (rewrite addEvents_options; assumption).
    simpl. etrans; [apply persisted_log_suffix |].
    etrans; [apply last_n_suffix |].
    rewrite app_assoc. apply suffix_app, IH.
Qed.

(** Without quota failures the log is trimmed and nothing else; trimming
    early or late gives the same events. *)
Lemma addEvents_quota_free_log p es o w k :
  (0 <= Options.maxEvents (this.options o))%Z ->
  quota_free w ->
  last_n (Z.to_nat (Options.maxEvents (this.options o)))
         (this.events (addEvents p es o w).1 ++ k)
  = last_n (Z.to_nat (Options.maxEvents (this.options o)))
           (this.events o ++ es ++ k).
Proof.
  intros Hmax Hfree. revert k.
  induction es as [| e es IH] using rev_ind; intros k; [reflexivity |].
  rewrite addEvents_snoc, addEvent_this
    by (rewrite addEvents_options; assumption).
  simpl. rewrite addEvents_options by assumption.
  unfold persisted_log.
  rewrite quota_free_no_cut by (apply addEvents_quota_free; assumption).
  rewrite last_n_app_trimmed, <- (app_assoc _ [e] k), IH.
  rewrite <- !app_assoc. reflexivity.
Qed.

(** A write that hits the quota while more than ten events are held leaves
    the ten newest events, whatever [maxEvents] is. *)
Lemma addEvent_quota_cut p e o w :
  (0 <= Options.maxEvents (this.options o))%Z ->
  quota_cut w (last_n (Z.to_nat (Options.maxEvents (this.options o)))
                      (this.events o ++ [e])) = true ->
  this.events (addEvent p e o w).1 = last_n 10 (this.events o ++ [e]).
Proof.
  intros Hmax Hcut. rewrite addEvent_this by assumption. simpl.
  unfold persisted_log. rewrite Hcut.
  apply quota_cut_true in Hcut as (_ & _ & Hlen).
  rewrite last_n_length in Hlen. apply last_n_last_n. lia.
Qed.

(** C1, as stated, fails: with the default [maxEvents = 100], ten events held
    and a full storage, the eleventh append drops the oldest event although
    only eleven events exist. *)
Lemma addEvent_quota_counterexample :
  ~ keeps_newest_maxEvents PolicyB (sample_event 11)
      (sample_tracker ten_events) full_storage_world.
Proof.
  intros [_ H]. vm_compute in H.
  specialize (H (le_n 11)). discriminate H.
Qed.

(** C1 (amended): for every non-empty sequence of appends with a maximum
    [N >= 0], the log afterwards holds at most [N] events, it is a suffix of
    the events it held followed by the appended ones (their order, the
    oldest dropped first), its newest event is the last appended one when
    [N > 0], and if no write of the log hits the storage quota it holds
    exactly the [N] newest of these events.  If the write of the last append
    hits the quota while more than ten events are held, the log holds the
    ten newest events. *)
Theorem addEvents_bounded_newest (p : Policy) (es : list PageViewEvent.t)
  (e : PageViewEvent.t) (o : this.t) (w : World) :
  (0 <= Options.maxEvents (this.options o))%Z ->
  let N := Z.to_nat (Options.maxEvents (this.options o)) in
  let before := addEvents p es o w in
  let log := this.events (addEvents p (es ++ [e]) o w).1 in
  length log <= N
  /\ log `suffix_of` this.events o ++ es ++ [e]
  /\ (0 < N -> last log = Some e)
  /\ (quota_free w -> log = last_n N (this.events o ++ es ++ [e]))
  /\ (quota_cut before.2 (last_n N (this.events before.1 ++ [e])) = true ->
      log = last_n 10 (this.events before.1 ++ [e])).
Proof.
  intros Hmax N before log.
  assert (log = persisted_log (addEvents p es o w).2
                  (last_n N (this.events (addEvents p es o w).1 ++ [e]))) as Hlog.
  { unfold log. rewrite addEvents_snoc, addEvent_this
      by (rewrite addEvents_options; assumption).
    simpl. rewrite addEvents_options by assumption. reflexivity. }
  split; [| split; [| split; [| split]]].
  - rewrite Hlog. etrans; [apply persisted_log_length |].
    rewrite last_n_length. lia.
  - apply addEvents_suffix. assumption.
  - intros HN. rewrite Hlog, persisted_log_last, last_n_last by assumption.
    apply last_snoc.
  - intros Hfree. rewrite Hlog. unfold persisted_log.
    rewrite quota_free_no_cut by (apply addEvents_quota_free; assumption).
    apply addEvents_quota_free_log; assumption.
  - intros Hcut. unfold log, before in *. rewrite addEvents_snoc.
    apply addEvent_quota_cut; rewrite addEvents_options by assumption;
      assumption.
Qed.

Lemma sample_world_quota_free : quota_free sample_world.
Proof. intros evs. discriminate. Defined.

Lemma addEvents_bounded_newest_witness :
  quota_free sample_world /\
  this.events
    (addEvents PolicyA ([sample_event 11; sample_event 12] ++ [sample_event 13])
       (sample_tracker ten_events) sample_world).1
  = last_n 100 (ten_events ++ [sample_event 11; sample_event 12] ++ [sample_event 13]).
Proof.
  split; [exact sample_world_quota_free |].
  refine (proj1 (proj2 (proj2 (proj2
    (addEvents_bounded_newest PolicyA [sample_event 11; sample_event 12]
       (sample_event 13) (sample_tracker ten_events) sample_world _))))
    sample_world_quota_free).
  vm_compute. discriminate.
Defined.

(** ** Resetting the log ([clearEvents]) *)

(** C10: [clearEvents] empties the log and removes its persisted copy; the
    device identifier, the user identifier, the prior device identifier, the
    logged-in flag, the current attribution, the last tracked URL and the
    current-page event identifier (and the options and the initialised flag)
    are what they were, and so are the other storage keys and the rest of the
    environment. *)
Theorem clearEvents_frame (o : this.t) (w : World) :
  let o' := (clearEvents o w).1 in
  let w' := (clearEvents o w).2 in
  this.events o' = []
  /\ persisted_history w' = None
  /\ this.uuid o' = this.uuid o
  /\ this.derivUserId o' = this.derivUserId o
  /\ this.oldUuid o' = this.oldUuid o
  /\ this.isLoggedIn o' = this.isLoggedIn o
  /\ this.currentAttribution o' = this.currentAttribution o
  /\ this.lastTrackedUrl o' = this.lastTrackedUrl o
  /\ this.currentPageEventId o' = this.currentPageEventId o
  /\ this.options o' = this.options o
  /\ this.isInitialized o' = this.isInitialized o
  /\ (storage w' ≫= Storage.attribution) = (storage w ≫= Storage.attribution)
  /\ (storage w' ≫= Storage.user_id) = (storage w ≫= Storage.user_id)
  /\ (storage w' ≫= Storage.old_uuid) = (storage w ≫= Storage.old_uuid)
  /\ (Window.location <$> window w') = (Window.location <$> window w)
  /\ (Window.cookie <$> window w') = (Window.cookie <$> window w)
  /\ outbox w' = outbox w.
Proof.
  cbv zeta. unfold clearEvents, persisted_history, storage, with_storage. simpl.
  destruct (window w) as [win |] eqn:Hw; simpl; rewrite ?Hw; simpl;
    repeat split; reflexivity.
Qed.

(** ** Identifiers are never empty *)

Lemma replace_xy_length rnd i template :
  length (replace_xy rnd i template).1 = length template.
Proof.
  revert i. induction template as [| c rest IH]; intros i; [reflexivity |].
  simpl. destruct (Ascii.eqb c "x").
  - specialize (IH (S i)). destruct (replace_xy rnd (S i) rest). simpl in *. lia.
  - destruct (Ascii.eqb c "y").
    + specialize (IH (S i)). destruct (replace_xy rnd (S i) rest). simpl in *. lia.
    + specialize (IH i). destruct (replace_xy rnd i rest). simpl in *. lia.
Qed.

Lemma string_of_list_ascii_length (s : list ascii) :
  String.length (string_of_list_ascii s) = length s.
Proof. induction s; simpl; congruence. Qed.

(** An identifier has the 36 characters of the template. *)
Lemma generateUUID_length (w : World) : String.length (generateUUID w).1 = 36.
Proof.
  unfold generateUUID.
  pose proof (replace_xy_length (random w) (drawn w)
                (list_ascii_of_string uuid_template)) as H.
  destruct (replace_xy _ _ _) as [s j]. simpl in *.
  rewrite string_of_list_ascii_length, H. reflexivity.
Qed.

Lemma generateUUID_nonempty (w : World) : (generateUUID w).1 <> "".
Proof.
  intros H. pose proof (generateUUID_length w) as Hlen.
  rewrite H in Hlen. discriminate.
Qed.

Lemma truthy_nonempty (s : string) : truthy s = true <-> s <> "".
Proof.
  unfold truthy. rewrite negb_true_iff.
  destruct (String.eqb_spec s ""); split; congruence.
Qed.

Lemma getOrCreateUUID_nonempty (options : Options.t) (w : World) :
  (getOrCreateUUID options w).1 <> "".
Proof.
  unfold getOrCreateUUID. destruct (window w) as [win |].
  - pose proof (generateUUID_nonempty w) as Hgen.
    destruct (truthy_opt (Window.cookie win)) eqn:Hc.
    + destruct (Window.cookie win) as [c |]; [| discriminate].
      apply truthy_nonempty. exact Hc.
    + destruct (generateUUID w). exact Hgen.
  - apply generateUUID_nonempty.
Qed.

Lemma loadAttributionData_uuid o w :
  this.uuid (loadAttributionData o w).1 = this.uuid o.
Proof.
  unfold loadAttributionData. destruct (window w) as [win |]; [| reflexivity].
  destruct (Storage.attribution _) as [[| a] |]; try reflexivity.
  destruct (has_timestamp a); [destruct (Qle_bool _ _) |]; reflexivity.
Qed.

(** The device identifier of a new tracker is not empty, in either
    revision. *)
Lemma constructor_uuid_nonempty (p : Policy) (options : Options.t) (w : World) :
  this.uuid (constructor p options w).1 <> "".
Proof.
  unfold constructor. pose proof (getOrCreateUUID_nonempty options w) as H.
  destruct (getOrCreateUUID options w) as [u w1]. simpl in H.
  destruct p; [rewrite loadAttributionData_uuid |]; exact H.
Qed.

(** ** Identity transitions ([recordLogin], [recordSignup]) *)

Lemma quota_cut_with_storage f w evs :
  quota_cut (with_storage f w) evs = quota_cut w evs.
Proof.
  unfold quota_cut. rewrite with_storage_setItem_history.
  f_equal. f_equal. apply bool_decide_ext, with_storage_window_is_Some.
Qed.

Lemma persisted_log_with_storage f w evs :
  persisted_log (with_storage f w) evs = persisted_log w evs.
Proof. unfold persisted_log. rewrite quota_cut_with_storage. reflexivity. Qed.

Lemma quota_free_log_after_flag b w o :
  quota_free w -> log_after_flag b w o = flag_current b o.
Proof.
  intros Hfree. unfold log_after_flag, flag_current, persisted_log.
  rewrite quota_free_no_cut by assumption.
  destruct (current_index o); reflexivity.
Qed.

Lemma updateEventLoginState_this eventId b o w :
  (updateEventLoginState eventId b o w).1 =
  this.set_events
    (match findIndex eventId (this.events o) with
     | Some i =>
       persisted_log w (alter (PageViewEvent.set_is_loggedin b) i (this.events o))
     | None => this.events o
     end) o.
Proof.
  unfold updateEventLoginState.
  destruct (findIndex eventId (this.events o)) as [i |].
  - rewrite saveEvents_this. reflexivity.
  - symmetry. apply set_events_same.
Qed.

(** The block that flags the current event changes the log and nothing
    else of the object. *)
Lemma update_current_event_this p b o w :
  (update_current_event p b o w).1 = this.set_events (log_after_flag b w o) o.
Proof.
  unfold update_current_event, log_after_flag, flag_current, current_index.
  destruct (this.currentPageEventId o) as [eventId |];
    [| symmetry; apply set_events_same].
  destruct (truthy eventId); [| symmetry; apply set_events_same].
  pose proof (updateEventLoginState_this eventId b o w) as H.
  destruct (updateEventLoginState eventId b o w) as [o1 w1]. simpl in H.
  assert ((let '(o2, w2) := (o1, w1) in
           match p with
           | PolicyA =>
             match find eventId (this.events o2) with
             | Some updatedEvent => (o2, sendEventToBackend updatedEvent o2 w2)
             | None => (o2, w2)
             end
           | PolicyB => (o2, w2)
           end).1 = o1) as ->.
  { destruct p; [destruct (find eventId (this.events o1)) |]; reflexivity. }
  rewrite H. destruct (findIndex eventId (this.events o)); reflexivity.
Qed.

(** A write of an identity key that returns has stored the value, where
    there is a window. *)
Lemma store_user_id_Return u w w1 :
  store_user_id u w = Return w1 ->
  w1 = with_storage (Storage.set_user_id (Some u)) w.
Proof.
  unfold store_user_id, with_storage.
  destruct (window w); [destruct (setItem_user_id w u) |]; congruence.
Qed.

Lemma store_old_uuid_Return v w w1 :
  store_old_uuid v w = Return w1 ->
  w1 = with_storage (Storage.set_old_uuid (Some v)) w.
Proof.
  unfold store_old_uuid, with_storage.
  destruct (window w); [destruct (setItem_old_uuid w v) |]; congruence.
Qed.

Lemma store_user_id_throws u w :
  store_user_id u w = Throw <-> user_id_refused w u.
Proof.
  unfold store_user_id, user_id_refused.
  destruct (window w) as [win |].
  - destruct (setItem_user_id w u); split; try discriminate; try tauto;
      intros _; (split; [eauto | discriminate]).
  - split; [discriminate | intros [[? ?] _]; discriminate].
Qed.

Lemma store_old_uuid_throws v w :
  store_old_uuid v w = Throw <-> old_uuid_refused w v.
Proof.
  unfold store_old_uuid, old_uuid_refused.
  destruct (window w) as [win |].
  - destruct (setItem_old_uuid w v); split; try discriminate; try tauto;
      intros _; (split; [eauto | discriminate]).
  - split; [discriminate | intros [[? ?] _]; discriminate].
Qed.

(** The object after [recordLogin]: the two identity fields are set; the log
    is touched only if the write of the user id has not thrown. *)
Lemma recordLogin_this p u o w :
  (recordLogin p u o w).1.1 =
  this.set_events
    (match store_user_id u w with
     | Throw => this.events o
     | Return _ =>
       if Options.resetOnLogin (this.options o) then []
       else log_after_flag true w o
     end)
    (this.set_derivUserId (Some u) (this.set_isLoggedIn true o)).
Proof.
  unfold recordLogin. cbv zeta.
  destruct (store_user_id u w) as [w1 |] eqn:Hs; [| destruct o; reflexivity].
  apply store_user_id_Return in Hs. subst w1.
  match goal with
  | |- context [update_current_event p true ?x ?y] =>
    pose proof (update_current_event_this p true x y) as H;
    destruct (update_current_event p true x y) as [o2 w2]
  end.
  simpl in H. subst o2. simpl.
  destruct (Options.resetOnLogin (this.options o)); simpl; [reflexivity |].
  unfold log_after_flag, flag_current, current_index. simpl.
  rewrite persisted_log_with_storage. reflexivity.
Qed.

(** What [recordLogin] leaves, by the end of its write. *)
Lemma recordLogin_state p u o w :
  (recordLogin p u o w).1 =
  let o1 := this.set_derivUserId (Some u) (this.set_isLoggedIn true o) in
  match store_user_id u w with
  | Throw => (o1, w)
  | Return _ =>
    let w1 := with_storage (Storage.set_user_id (Some u)) w in
    let '(o2, w2) := update_current_event p true o1 w1 in
    if Options.resetOnLogin (this.options o2) then clearEvents o2 w2 else (o2, w2)
  end.
Proof.
  unfold recordLogin. cbv zeta.
  destruct (store_user_id u w) as [w1 |] eqn:Hs; [| reflexivity].
  apply store_user_id_Return in Hs. subst w1.
  destruct (update_current_event _ _ _ _). reflexivity.
Qed.

(** How [recordLogin] ends. *)
Lemma recordLogin_completion p u o w :
  (recordLogin p u o w).2
  = match store_user_id u w with Throw => Throw | Return _ => Return tt end.
Proof.
  unfold recordLogin. cbv zeta. destruct (store_user_id u w); [| reflexivity].
  destruct (update_current_event _ _ _ _). reflexivity.
Qed.

(** The object after [recordSignup]. *)
Lemma recordSignup_this p u o w :
  (recordSignup p u o w).1.1 =
  this.set_events
    (match store_identity u o w with
     | Throw => this.events o
     | Return _ =>
       if Options.resetOnSignup (this.options o) then []
       else log_after_flag true w o
     end)
    (this.set_derivUserId (Some u)
       (this.set_isLoggedIn true (this.set_oldUuid (Some (this.uuid o)) o))).
Proof.
  unfold recordSignup, store_identity. cbv zeta.
  destruct (store_user_id u w) as [w0 |] eqn:Hs; [| destruct o; reflexivity].
  apply store_user_id_Return in Hs. subst w0.
  cbn [this.oldUuid this.set_derivUserId this.set_isLoggedIn this.set_oldUuid].
  match goal with
  | |- context [match ?s with Return _ => _ | Throw => _ end] =>
    destruct s as [w1 |] eqn:Hs1
  end; [| destruct o; reflexivity].
  match goal with
  | |- context [update_current_event p true ?x ?y] =>
    pose proof (update_current_event_this p true x y) as H;
    destruct (update_current_event p true x y) as [o2 w2]
  end.
  simpl in H. subst o2. simpl.
  destruct (Options.resetOnSignup (this.options o)); simpl; [reflexivity |].
  unfold log_after_flag, flag_current, current_index. simpl.
  destruct (truthy (this.uuid o));
    [apply store_old_uuid_Return in Hs1 | injection Hs1 as <-]; subst;
    rewrite !persisted_log_with_storage; reflexivity.
Qed.

(** What [recordSignup] leaves, by the end of its writes. *)
Lemma recordSignup_state p u o w :
  (recordSignup p u o w).1 =
  let o0 := this.set_oldUuid (Some (this.uuid o)) o in
  let o1 := this.set_derivUserId (Some u) (this.set_isLoggedIn true o0) in
  let w0 := with_storage (Storage.set_user_id (Some u)) w in
  match store_user_id u w with
  | Throw => (o1, w)
  | Return _ =>
    match (if truthy (this.uuid o) then store_old_uuid (this.uuid o) w0
           else Return w0) with
    | Throw => (o1, w0)
    | Return _ =>
      let w1 :=
        if truthy_opt (this.oldUuid o1)
        then with_storage (Storage.set_old_uuid (this.oldUuid o1)) w0
        else w0 in
      let '(o2, w2) := update_current_event p true o1 w1 in
      if Options.resetOnSignup (this.options o2) then clearEvents o2 w2 else (o2, w2)
    end
  end.
Proof.
  unfold recordSignup. cbv zeta.
  destruct (store_user_id u w) as [w0 |] eqn:Hs; [| reflexivity].
  apply store_user_id_Return in Hs. subst w0.
  cbn [this.oldUuid this.set_derivUserId this.set_isLoggedIn this.set_oldUuid
       truthy_opt].
  destruct (truthy (this.uuid o)).
  - destruct (store_old_uuid _ _) as [w1 |] eqn:Hs1; [| reflexivity].
    apply store_old_uuid_Return in Hs1. subst w1.
    destruct (update_current_event _ _ _ _). reflexivity.
  - destruct (update_current_event _ _ _ _). reflexivity.
Qed.

(** How [recordSignup] ends. *)
Lemma recordSignup_completion p u o w :
  (recordSignup p u o w).2
  = match store_identity u o w with Throw => Throw | Return _ => Return tt end.
Proof.
  unfold recordSignup, store_identity. cbv zeta.
  destruct (store_user_id u w) as [w0 |]; [| reflexivity].
  cbn [this.oldUuid this.set_derivUserId this.set_isLoggedIn this.set_oldUuid].
  destruct (truthy (this.uuid o)).
  - destruct (store_old_uuid (this.uuid o) w0); [| reflexivity].
    destruct (update_current_event _ _ _ _). reflexivity.
  - destruct (update_current_event _ _ _ _). reflexivity.
Qed.

(** *** The device identifier is assigned once *)

Lemma same_device_refl o : same_device o o.
Proof. split; reflexivity. Qed.

Lemma same_device_trans a b c : same_device a b -> same_device b c -> same_device a c.
Proof. intros [H1 H2] [H3 H4]. split; congruence. Qed.

Lemma set_events_device evs o : same_device (this.set_events evs o) o.
Proof. split; reflexivity. Qed.

Lemma loadEvents_device o w : same_device (loadEvents o w) o.
Proof.
  unfold loadEvents. destruct (window w) as [win |]; [| apply same_device_refl].
  destruct (Storage.history _) as [[| evs] |]; split; reflexivity.
Qed.

Lemma loadAttributionData_device o w : same_device (loadAttributionData o w).1 o.
Proof.
  unfold loadAttributionData. destruct (window w) as [win |]; [| apply same_device_refl].
  destruct (Storage.attribution _) as [[| a] |]; try apply same_device_refl.
  destruct (has_timestamp a); [destruct (Qle_bool _ _) |]; split; reflexivity.
Qed.

Lemma getAttributionForPageView_device win o w :
  same_device (getAttributionForPageView win o w).1.2 o.
Proof.
  unfold getAttributionForPageView.
  destruct (hasNewAttributionData _); [split; reflexivity |].
  destruct (AttributionData.has_keys _); split; reflexivity.
Qed.

Lemma addEvent_device p e o w : same_device (addEvent p e o w).1 o.
Proof. rewrite addEvent_this_any. apply set_events_device. Qed.

Lemma trackCurrentPageView_A_device o w :
  same_device (trackCurrentPageView_A o w).1 o.
Proof.
  unfold trackCurrentPageView_A.
  destruct (window w) as [win |]; [| apply same_device_refl].
  destruct (String.eqb _ _); [apply same_device_refl |].
  match goal with
  | |- context [getAttributionForPageView win ?x w] =>
    pose proof (getAttributionForPageView_device win x w) as H;
    destruct (getAttributionForPageView win x w) as [[a o2] w2]
  end.
  destruct (generateUUID w2) as [eventId w3].
  eapply same_device_trans; [apply addEvent_device |].
  eapply same_device_trans; [| exact H]. split; reflexivity.
Qed.

Lemma trackCurrentPageView_B_device o w :
  same_device (trackCurrentPageView_B o w).1 o.
Proof.
  unfold trackCurrentPageView_B.
  destruct (window w) as [win |]; [| apply same_device_refl].
  destruct (isNewAttributionSource _ _ _); [| apply same_device_refl].
  destruct (generateUUID w) as [eventId w1].
  eapply same_device_trans; [apply addEvent_device | split; reflexivity].
Qed.

Lemma trackPageView_device p o w : same_device (trackPageView p o w).1 o.
Proof.
  unfold trackPageView. destruct (window w) as [win |]; [| apply same_device_refl].
  destruct p; [apply trackCurrentPageView_A_device |].
  eapply same_device_trans; [apply trackCurrentPageView_B_device | split; reflexivity].
Qed.

Lemma on_navigation_device p o w : same_device (on_navigation p o w).1 o.
Proof.
  unfold on_navigation. destruct p; [apply trackPageView_device |].
  destruct (window w) as [win |]; [| apply same_device_refl].
  destruct (negb _); [| apply same_device_refl].
  eapply same_device_trans; [apply trackCurrentPageView_B_device | split; reflexivity].
Qed.

Lemma update_current_event_device p b o w :
  same_device (update_current_event p b o w).1 o.
Proof. rewrite update_current_event_this. apply set_events_device. Qed.

Lemma updateLoginState_device p b u o w :
  same_device (updateLoginState p b u o w).1.1 o.
Proof.
  unfold updateLoginState. cbv zeta.
  assert (forall x y, same_device x o ->
            same_device (update_current_event p b x y).1 o) as Hstep
    by (intros x y Hx; eapply same_device_trans;
        [apply update_current_event_device | exact Hx]).
  destruct u as [u |]; [destruct (truthy u); [destruct (store_user_id u w) |] |];
    destruct p; try destruct (negb _); try apply Hstep; split; reflexivity.
Qed.

Lemma init_device p b u o w : same_device (init p b u o w).1 o.
Proof.
  unfold init. destruct (this.isInitialized o); [apply same_device_refl |]. cbv zeta.
  match goal with
  | |- context [loadEvents ?x w] =>
    assert (same_device (loadEvents x w) o) as Hload;
    [ eapply same_device_trans; [apply loadEvents_device |];
      destruct b, (truthy_opt u);
      try destruct (storage w ≫= Storage.user_id) as [s |];
      try destruct (truthy s); split; reflexivity
    | generalize dependent (loadEvents x w); intros o3 Hload ]
  end.
  destruct p.
  - pose proof (loadAttributionData_device o3 w) as Hla.
    destruct (loadAttributionData o3 w) as [oa wa]. simpl in Hla.
    pose proof (trackCurrentPageView_A_device oa wa) as Ht.
    destruct (trackCurrentPageView_A oa wa) as [o4 w4]. simpl in *.
    destruct Hload, Hla, Ht. split; simpl; congruence.
  - destruct (Options.autoTrack _); [| destruct Hload; split; assumption].
    destruct (window w) as [win |]; [| destruct Hload; split; assumption].
    match goal with
    | |- context [trackCurrentPageView_B ?x w] =>
      pose proof (trackCurrentPageView_B_device x w) as Ht;
      destruct (trackCurrentPageView_B x w) as [o4 w4]
    end.
    simpl in *. destruct Hload, Ht. split; simpl in *; congruence.
Qed.

(** No call changes the device identifier, and only [recordSignup] changes
    the prior device identifier. *)
Lemma call_device p c o w :
  (forall u, c <> RecordSignup u) -> same_device (call p c o w).1 o.
Proof.
  intros Hc. destruct c; simpl.
  - apply init_device.
  - apply trackPageView_device.
  - apply on_navigation_device.
  - apply updateLoginState_device.
  - rewrite recordLogin_this. split; reflexivity.
  - exfalso. eapply Hc. reflexivity.
  - split; reflexivity.
Qed.

Lemma call_uuid p c o w : this.uuid (call p c o w).1 = this.uuid o.
Proof.
  destruct c; try (apply call_device; discriminate).
  simpl. rewrite recordSignup_this. reflexivity.
Qed.

Lemma calls_device p later o :
  Forall (fun cw => forall u, cw.1 <> RecordSignup u) later ->
  same_device (calls p later o) o.
Proof.
  intros Hlater. revert o.
  induction Hlater as [| [c w] later Hc _ IH]; intros o; simpl.
  - apply same_device_refl.
  - eapply same_device_trans; [apply IH | apply call_device; exact Hc].
Qed.

(** The device identifier of a tracker is never empty. *)
Lemma reachable_uuid_nonempty p o : reachable p o -> this.uuid o <> "".
Proof.
  induction 1 as [options w | c o w _ IH].
  - apply constructor_uuid_nonempty.
  - rewrite call_uuid. exact IH.
Qed.




Lemma signed_up_before_reachable : reachable PolicyA signed_up_before.
Proof.
  exact (reachable_call PolicyA (RecordSignup "user-41") _ sample_world
           (reachable_new PolicyA (Options.defaults ".example.com") sample_world)).
Defined.


(** C5, as stated, fails: with [resetOnLogin = false], eleven events held and
    a full storage, [recordLogin] drops the oldest event. *)
Lemma recordLogin_quota_counterexample :
  ~ transition_log_claimed
      (Options.resetOnLogin (this.options keeping_tracker)) keeping_tracker
      (this.events
         (recordLogin PolicyB "user-42" keeping_tracker full_storage_world).1.1).
Proof.
  intros H. vm_compute in H. discriminate H.
Qed.

(** [flag_first] is what [findIndex] and the assignment at the index it
    gives do. *)
Lemma flag_first_alter eventId b evs :
  flag_first eventId b evs =
  match findIndex eventId evs with
  | Some i => alter (PageViewEvent.set_is_loggedin b) i evs
  | None => evs
  end.
Proof.
  unfold findIndex. induction evs as [| e rest IH]; [reflexivity |].
  cbn [flag_first list_find].
  destruct (String.eqb_spec (PageViewEvent.event_id e) eventId) as [He | He].
  - rewrite decide_True by assumption. reflexivity.
  - rewrite decide_False by assumption. rewrite IH.
    destruct (list_find _ rest) as [[i x] |]; reflexivity.
Qed.

Lemma findIndex_existsb eventId evs :
  is_Some (findIndex eventId evs)
  <-> existsb (fun e => String.eqb (PageViewEvent.event_id e) eventId) evs = true.
Proof.
  unfold findIndex. induction evs as [| e rest IH].
  - split; [intros [? ?] |]; discriminate.
  - cbn [existsb list_find].
    destruct (String.eqb_spec (PageViewEvent.event_id e) eventId) as [He | He].
    + rewrite decide_True by assumption. split; [reflexivity | eauto].
    + rewrite decide_False by assumption. rewrite <- IH.
      destruct (list_find _ rest) as [[i x] |]; split; intros [? ?];
        try discriminate; eauto.
Qed.

(** Event by event, [flag_first] keeps the event or sets its flag, and it
    sets the flag only of an event that carries the identifier. *)
Lemma flag_first_Forall2 eventId b evs :
  Forall2 (fun before after =>
             after = before
             \/ (after = PageViewEvent.set_is_loggedin b before
                 /\ PageViewEvent.event_id before = eventId))
          evs (flag_first eventId b evs).
Proof.
  induction evs as [| e rest IH]; [constructor |]. cbn [flag_first].
  destruct (String.eqb_spec (PageViewEvent.event_id e) eventId) as [He | He].
  - constructor; [right; split; [reflexivity | exact He] |].
    clear. induction rest; constructor; auto.
  - constructor; [left; reflexivity | exact IH].
Qed.

Lemma truthy_eqb s : truthy s = negb (String.eqb s "").
Proof. reflexivity. Qed.

Lemma current_flagged_flag_current b o : current_flagged b o = flag_current b o.
Proof.
  unfold current_flagged, flag_current, current_index.
  destruct (this.currentPageEventId o) as [eventId |]; [| reflexivity].
  rewrite truthy_eqb. destruct (String.eqb eventId ""); [reflexivity |].
  apply flag_first_alter.
Qed.

Lemma has_current_event_index o :
  has_current_event o = true <-> is_Some (current_index o).
Proof.
  unfold has_current_event, current_index.
  destruct (this.currentPageEventId o) as [eventId |];
    [| split; [| intros [? ?]]; discriminate].
  rewrite truthy_eqb.
  destruct (String.eqb eventId ""); cbn [negb andb];
    [split; [| intros [? ?]]; discriminate |].
  symmetry. apply findIndex_existsb.
Qed.

(** The log after the flag block, in terms of the log of before. *)
Lemma log_after_flag_flagged b w o : log_after_flag b w o = flagged_log b w o.
Proof.
  unfold log_after_flag, flagged_log, persisted_log.
  rewrite current_flagged_flag_current.
  pose proof (has_current_event_index o) as Hc.
  destruct (current_index o) as [i |] eqn:Hi.
  - rewrite (proj2 Hc) by eauto. reflexivity.
  - destruct (has_current_event o).
    + destruct (proj1 Hc eq_refl) as [? ?]; discriminate.
    + unfold flag_current. rewrite Hi. reflexivity.
Qed.

Lemma log_after_flag_transition w o :
  log_after_flag true w o = transition_log false w o.
Proof. apply log_after_flag_flagged. Qed.

(** When the write of the user id is refused, [recordLogin] throws once it
    has set the login state and the user id: the log, the storage and the
    outbox are as they were. *)
Lemma recordLogin_refused p u o w :
  user_id_refused w u ->
  recordLogin p u o w
  = (this.set_derivUserId (Some u) (this.set_isLoggedIn true o), w, Throw).
Proof.
  intros H. apply store_user_id_throws in H. unfold recordLogin. cbv zeta.
  rewrite H. reflexivity.
Qed.

(** The same for [recordSignup], which has also set the prior device
    identifier by then. *)
Lemma recordSignup_refused p u o w :
  user_id_refused w u ->
  recordSignup p u o w
  = (this.set_derivUserId (Some u)
       (this.set_isLoggedIn true (this.set_oldUuid (Some (this.uuid o)) o)),
     w, Throw).
Proof.
  intros H. apply store_user_id_throws in H. unfold recordSignup. cbv zeta.
  rewrite H. reflexivity.
Qed.

Lemma store_user_id_accepted u w :
  ~ user_id_refused w u ->
  store_user_id u w = Return (with_storage (Storage.set_user_id (Some u)) w).
Proof.
  intros H. destruct (store_user_id u w) as [w1 |] eqn:Hs.
  - f_equal. apply store_user_id_Return. assumption.
  - apply store_user_id_throws in Hs. contradiction.
Qed.

Lemma old_uuid_refused_with_storage f w v :
  old_uuid_refused (with_storage f w) v <-> old_uuid_refused w v.
Proof.
  unfold old_uuid_refused, with_storage.
  destruct (window w) as [win |] eqn:Hw; [| rewrite Hw; reflexivity].
  simpl. split; intros [_ H]; (split; [eauto | exact H]).
Qed.

Lemma store_identity_accepted u o w :
  ~ user_id_refused w u ->
  ~ old_uuid_refused w (this.uuid o) ->
  exists w1, store_identity u o w = Return w1.
Proof.
  intros Hu Hv. unfold store_identity. rewrite (store_user_id_accepted _ _ Hu).
  destruct (truthy (this.uuid o)); [| eauto].
  destruct (store_old_uuid _ _) as [w1 |] eqn:Hs; [eauto |].
  apply store_old_uuid_throws, old_uuid_refused_with_storage in Hs. contradiction.
Qed.

(** With [resetOnLogin = true] and a storage that refuses the user id,
    [recordLogin] throws and the log is not emptied. *)
Lemma recordLogin_refused_counterexample :
  ~ transition_log_claimed
      (Options.resetOnLogin (this.options (sample_tracker ten_events)))
      (sample_tracker ten_events)
      (this.events
         (recordLogin PolicyB "user-42" (sample_tracker ten_events)
            locked_identity_world).1.1).
Proof.
  intros H. vm_compute in H. discriminate H.
Qed.

(** Entry by entry, [flag_current] changes the flag of the current event and
    nothing else. *)
Lemma flag_current_lookup (b : bool) (o : this.t) (j : nat) :
  flag_current b o !! j =
  if decide (current_index o = Some j)
  then PageViewEvent.set_is_loggedin b <$> this.events o !! j
  else this.events o !! j.
Proof.
  unfold flag_current. destruct (current_index o) as [i |].
  - destruct (decide (Some i = Some j)) as [[= ->] | Hne].
    + apply list_lookup_alter_eq.
    + apply list_lookup_alter_ne. congruence.
  - destruct (decide (None = Some j)); [discriminate | reflexivity].
Qed.

(** C5 (amended): a call of [recordLogin] whose write of the user id is not
    refused returns, and so does a call of [recordSignup] whose write of the
    prior device identifier is not refused either.  The log is then empty if
    the reset option of the call is set.  If it is not set, and the write of
    the log does not hit the storage quota, the log is the log of before with
    the flag of the current event set (every event is retained, and no other
    entry or field differs: event by event, the log holds the event of
    before or, for an event the current-page pointer names, that event with
    its flag set); a write that hits the quota while more than ten events
    are held leaves the ten newest of these events. *)
Theorem record_transition_log (p : Policy) (u : string) (o : this.t) (w : World) :
  ~ user_id_refused w u ->
  let login := recordLogin p u o w in
  let signup := recordSignup p u o w in
  login.2 = Return tt
  /\ this.events login.1.1 = transition_log (Options.resetOnLogin (this.options o)) w o
  /\ (~ old_uuid_refused w (this.uuid o) ->
      signup.2 = Return tt
      /\ this.events signup.1.1
         = transition_log (Options.resetOnSignup (this.options o)) w o)
  /\ (quota_free w -> transition_log false w o = current_flagged true o)
  /\ Forall2 (fun before after =>
                after = before
                \/ (after = PageViewEvent.set_is_loggedin true before
                    /\ this.currentPageEventId o
                       = Some (PageViewEvent.event_id before)))
             (this.events o) (current_flagged true o).
Proof.
  intros Hu. cbv zeta.
  rewrite recordLogin_completion, recordLogin_this, (store_user_id_accepted _ _ Hu).
  cbn [this.events this.set_events].
  repeat split.
  - unfold transition_log at 1.
    destruct (Options.resetOnLogin _); [reflexivity | apply log_after_flag_transition].
  - rewrite recordSignup_completion.
    destruct (store_identity_accepted u o w Hu H) as [w1 ->]. reflexivity.
  - rewrite recordSignup_this.
    destruct (store_identity_accepted u o w Hu H) as [w1 ->].
    cbn [this.events this.set_events]. unfold transition_log at 1.
    destruct (Options.resetOnSignup _); [reflexivity | apply log_after_flag_transition].
  - intros Hq. rewrite <- log_after_flag_transition, current_flagged_flag_current.
    apply quota_free_log_after_flag. assumption.
  - unfold current_flagged.
    destruct (this.currentPageEventId o) as [eventId |];
      [destruct (String.eqb eventId "") |];
      try (induction (this.events o); constructor; auto).
    eapply Forall2_impl; [apply flag_first_Forall2 |].
    intros before after [H | [H1 H2]]; [left; exact H | right].
    split; [exact H1 | rewrite H2; reflexivity].
Qed.

Lemma record_transition_log_witness :
  let login := recordLogin PolicyB "user-42" keeping_tracker sample_world in
  let signup := recordSignup PolicyB "user-42" keeping_tracker sample_world in
  login.2 = Return tt
  /\ this.events login.1.1
     = ten_events ++ [PageViewEvent.set_is_loggedin true (sample_event 11)]
  /\ signup.2 = Return tt
  /\ this.events signup.1.1
     = ten_events ++ [PageViewEvent.set_is_loggedin true (sample_event 11)].
Proof.
  assert (~ user_id_refused sample_world "user-42") as Hu
    by (intros [_ H]; apply H; reflexivity).
  assert (~ old_uuid_refused sample_world (this.uuid keeping_tracker)) as Hv
    by (intros [_ H]; apply H; reflexivity).
  destruct (record_transition_log PolicyB "user-42" keeping_tracker sample_world Hu)
    as (Hl & Hlog & Hsignup & _).
  destruct (Hsignup Hv) as [Hs Hslog].
  cbv zeta. split; [exact Hl |].
  split; [etransitivity; [exact Hlog | reflexivity] |].
  split; [exact Hs |].
  etransitivity; [exact Hslog | reflexivity].
Defined.

(** ** The extracted record ([parseAttributionData]) *)

Lemma get_set_same k v a : AttributionData.get k (AttributionData.set k v a) = Some v.
Proof. destruct a, k; reflexivity. Qed.

Lemma get_set_other k k' v a :
  k <> k' -> AttributionData.get k' (AttributionData.set k v a) = AttributionData.get k' a.
Proof. intros H. destruct a, k, k'; try reflexivity; congruence. Qed.

Lemma get_set_timestamp k n a :
  AttributionData.get k (AttributionData.set_timestamp n a) = AttributionData.get k a.
Proof. destruct a, k; reflexivity. Qed.

Lemma timestamp_set k v a :
  AttributionData.attribution_timestamp (AttributionData.set k v a)
  = AttributionData.attribution_timestamp a.
Proof. destruct a, k; reflexivity. Qed.

Lemma timestamp_set_timestamp n a :
  AttributionData.attribution_timestamp (AttributionData.set_timestamp n a) = Some n.
Proof. destruct a; reflexivity. Qed.

Lemma get_extract params a k0 k :
  AttributionData.get k (extract params a k0) =
  if decide (k0 = k)
  then from_option Some (AttributionData.get k a) (query_value params k)
  else AttributionData.get k a.
Proof.
  unfold extract, query_value. destruct (decide (k0 = k)) as [-> | Hne].
  - destruct (URL.get _ params) as [v |]; [| reflexivity].
    destruct (truthy v); [apply get_set_same | reflexivity].
  - destruct (URL.get _ params) as [v |]; [| reflexivity].
    destruct (truthy v); [apply get_set_other; assumption | reflexivity].
Qed.

Lemma timestamp_extract params a k0 :
  AttributionData.attribution_timestamp (extract params a k0)
  = AttributionData.attribution_timestamp a.
Proof.
  unfold extract. destruct (URL.get _ params) as [v |]; [| reflexivity].
  destruct (truthy v); [apply timestamp_set | reflexivity].
Qed.

(** Running the loop over a list of names sets exactly the listed fields
    that the query string gives a value to. *)
Lemma get_foldl_extract params ks a k :
  AttributionData.get k (foldl (extract params) a ks) =
  if decide (k ∈ ks)
  then from_option Some (AttributionData.get k a) (query_value params k)
  else AttributionData.get k a.
Proof.
  revert a. induction ks as [| k0 ks IH]; intros a; simpl.
  - destruct (decide (k ∈ [])) as [Hin | _]; [| reflexivity].
    apply elem_of_nil in Hin. contradiction.
  - rewrite IH, get_extract.
    destruct (decide (k ∈ k0 :: ks)) as [Hin' | Hnin'];
      destruct (decide (k ∈ ks)) as [Hin | Hnin];
      destruct (decide (k0 = k)) as [Heq | Hne];
      try reflexivity;
      try (destruct (query_value params k); reflexivity);
      exfalso.
    + apply Hnin. apply elem_of_cons in Hin' as [-> | Hin']; congruence.
    + apply Hnin', elem_of_cons. right. assumption.
    + apply Hnin', elem_of_cons. right. assumption.
    + apply Hnin', elem_of_cons. left. congruence.
Qed.

Lemma timestamp_foldl_extract params ks a :
  AttributionData.attribution_timestamp (foldl (extract params) a ks)
  = AttributionData.attribution_timestamp a.
Proof.
  revert a. induction ks as [| k0 ks IH]; intros a; simpl; [reflexivity |].
  rewrite IH. apply timestamp_extract.
Qed.

Lemma get_add_referrer win new_URL a k :
  AttributionData.get k (add_referrer win new_URL a) =
  if decide (k = AttributionData.Referrer)
  then from_option Some (AttributionData.get k a) (external_referrer win new_URL)
  else AttributionData.get k a.
Proof.
  unfold add_referrer, external_referrer.
  destruct (truthy _); [| destruct (decide _); reflexivity].
  destruct (new_URL _) as [r |]; [| destruct (decide _); reflexivity].
  destruct (negb _); [| destruct (decide _); reflexivity].
  destruct (decide (k = AttributionData.Referrer)) as [-> | Hne];
    cbn [from_option].
  - apply get_set_same.
  - apply get_set_other. congruence.
Qed.

Lemma timestamp_add_referrer win new_URL a :
  AttributionData.attribution_timestamp (add_referrer win new_URL a)
  = AttributionData.attribution_timestamp a.
Proof.
  unfold add_referrer. destruct (truthy _); [| reflexivity].
  destruct (new_URL _); [| reflexivity].
  destruct (negb _); [apply timestamp_set | reflexivity].
Qed.

Lemma parseAttributionData_get p w win k :
  window w = Some win ->
  AttributionData.get k (parseAttributionData p w) = extracted_field win (new_URL w) k.
Proof.
  intros Hw. unfold parseAttributionData. rewrite Hw.
  assert (forall a, AttributionData.get k
            (match p with
             | PolicyA => AttributionData.set_timestamp (now w) a
             | PolicyB => a
             end) = AttributionData.get k a) as ->
    by (intros a; destruct p; [apply get_set_timestamp | reflexivity]).
  destruct (decide (k = AttributionData.Landing_page)) as [-> | Hlp];
    [apply get_set_same |].
  rewrite get_set_other by congruence.
  rewrite get_add_referrer, !get_foldl_extract.
  destruct p, k; try congruence; vm_compute decide;
    cbn [from_option AttributionData.get AttributionData.empty extracted_field];
    try reflexivity;
    match goal with
    | |- context [from_option _ _ ?x] => destruct x; reflexivity
    end.
Qed.

Lemma parseAttributionData_timestamp p w win :
  window w = Some win ->
  AttributionData.attribution_timestamp (parseAttributionData p w) =
  match p with PolicyA => Some (now w) | PolicyB => None end.
Proof.
  intros Hw. unfold parseAttributionData. rewrite Hw. destruct p.
  - apply timestamp_set_timestamp.
  - rewrite timestamp_set, timestamp_add_referrer, !timestamp_foldl_extract.
    reflexivity.
Qed.

(** ** The referrer of the extracted record *)

(** C8, as stated, fails: a referrer of the same host name but of another
    origin (here another scheme) is left out. *)
Lemma referrer_origin_counterexample :
  ~ referrer_by_origin PolicyA upgraded_world upgraded_window.
Proof.
  intros [_ H]. destruct H as [v Hv].
  - split; [discriminate |]. eexists. split; [reflexivity |]. discriminate.
  - vm_compute in Hv. discriminate Hv.
Qed.

Lemma external_referrer_Some win new_URL v :
  external_referrer win new_URL = Some v <->
  v = Window.document_referrer win
  /\ Window.document_referrer win <> ""
  /\ exists r, new_URL (Window.document_referrer win) = Some r
               /\ URL.hostname r <> URL.hostname (Window.location win).
Proof.
  unfold external_referrer.
  destruct (truthy (Window.document_referrer win)) eqn:Ht.
  - apply truthy_nonempty in Ht.
    destruct (new_URL (Window.document_referrer win)) as [r |].
    + destruct (String.eqb_spec (URL.hostname r) (URL.hostname (Window.location win)))
        as [Heq | Hne]; simpl.
      * split; [discriminate |]. intros (_ & _ & r' & [= <-] & Hne). contradiction.
      * split; [intros [= <-]; eauto 6 |]. intros (-> & _); reflexivity.
    + split; [discriminate |]. intros (_ & _ & r' & [=] & _).
  - split; [discriminate |]. intros (_ & Hne & _).
    apply truthy_nonempty in Hne. congruence.
Qed.

(** C8 (amended): where there is a window, the extracted record has a
    referrer exactly when the document's referrer is not empty, parses as a
    URL, and its host name differs from the page's host name; the field then
    holds the document's referrer.  A referrer of the same host name, or one
    that does not parse, is left out; the extraction always returns a
    record. *)
Theorem parseAttributionData_referrer (p : Policy) (w : World) (win : Window.t) :
  window w = Some win ->
  (is_Some (AttributionData.referrer (parseAttributionData p w)) <->
   Window.document_referrer win <> "" /\
   exists r, new_URL w (Window.document_referrer win) = Some r
             /\ URL.hostname r <> URL.hostname (Window.location win))
  /\ (forall v, AttributionData.referrer (parseAttributionData p w) = Some v ->
                v = Window.document_referrer win).
Proof.
  intros Hw.
  pose proof (parseAttributionData_get p w win AttributionData.Referrer Hw) as Hget.
  cbn [AttributionData.get extracted_field] in Hget. rewrite Hget.
  split.
  - split.
    + intros [v Hv]. apply external_referrer_Some in Hv. tauto.
    + intros [Hne Hr]. exists (Window.document_referrer win).
      apply external_referrer_Some. tauto.
  - intros v Hv. apply external_referrer_Some in Hv. tauto.
Qed.

Lemma parseAttributionData_referrer_witness :
  AttributionData.referrer (parseAttributionData PolicyB search_world)
  = Some "https://www.google.com/"
  /\ forall v,
       AttributionData.referrer (parseAttributionData PolicyB search_world) = Some v ->
       v = Window.document_referrer search_window.
Proof.
  split; [reflexivity |].
  exact (proj2 (parseAttributionData_referrer PolicyB search_world search_window eq_refl)).
Defined.

(** ** Loading the persisted attribution ([loadAttributionData]) *)

(** The age test in whole milliseconds. *)
Lemma age_within_iff (now timestamp expiry : Z) :
  (ageInMinutes now timestamp <= inject_Z expiry)%Q <->
  (now - timestamp <= expiry * 60000)%Z.
Proof. unfold ageInMinutes, Qle. simpl. lia. Qed.

Lemma loadAttributionData_stored (o : this.t) (w : World) (a : AttributionData.t)
  (timestamp : Z) :
  persisted_attribution w = Some (Json a) ->
  AttributionData.attribution_timestamp a = Some timestamp ->
  timestamp <> 0%Z ->
  loadAttributionData o w =
  if (now w - timestamp <=? Options.attributionExpiry (this.options o) * 60000)%Z
  then (this.set_currentAttribution a o, w)
  else (o, with_storage (Storage.set_attribution None) w).
Proof.
  intros Hp Hts Hne. unfold loadAttributionData, persisted_attribution, storage in *.
  destruct (window w) as [win |]; [| discriminate]. simpl in Hp. rewrite Hp.
  unfold has_timestamp. rewrite Hts.
  change (default 0%Z (Some timestamp)) with timestamp.
  rewrite (proj2 (Z.eqb_neq timestamp 0) Hne). cbn [negb].
  destruct (Qle_bool _ _) eqn:Hq.
  - apply Qle_bool_iff, age_within_iff in Hq.
    rewrite (proj2 (Z.leb_le _ _) Hq). reflexivity.
  - destruct (Z.leb_spec (now w - timestamp)
                (Options.attributionExpiry (this.options o) * 60000)) as [Hle | _];
      [| reflexivity].
    apply age_within_iff, Qle_bool_iff in Hle. congruence.
Qed.



(** With the default window of 43200 minutes, a record of exactly thirty
    days is still loaded. *)
Example loadAttributionData_thirty_days :
  let a :=
    AttributionData.set_timestamp (1700000000000 - 43200 * 60000) old_record in
  let w :=
    set_window
      (Some (Window.set_localStorage (Storage.mk None (Some (Json a)) None None)
               sample_window)) sample_world in
  this.currentAttribution (loadAttributionData (sample_tracker []) w).1 = a.
Proof. reflexivity. Qed.

(** A timestamp of [0] does not count as a timestamp: such a record is
    loaded without the age test. *)
Example loadAttributionData_zero_timestamp :
  let a := AttributionData.set_timestamp 0 old_record in
  let w :=
    set_window
      (Some (Window.set_localStorage (Storage.mk None (Some (Json a)) None None)
               sample_window)) sample_world in
  has_timestamp a = false
  /\ this.currentAttribution (loadAttributionData (sample_tracker []) w).1 = a.
Proof. split; reflexivity. Qed.

(** A new tracker of [PolicyA] that finds an expired record in storage
    starts without attribution, and the record is gone. *)
Example constructor_drops_expired :
  this.currentAttribution
    (constructor PolicyA (Options.defaults ".example.com") old_record_world).1
  = AttributionData.empty
  /\ persisted_attribution
       (constructor PolicyA (Options.defaults ".example.com") old_record_world).2
     = None.
Proof. split; reflexivity. Qed.

(** ** What the methods leave alone in the environment *)

(** [saveEvents] writes the history key or nothing. *)
Lemma saveEvents_fuel_world (fuel : nat) (o : this.t) (w : World) :
  (saveEvents_fuel fuel o w).2 = w
  \/ exists evs,
       (saveEvents_fuel fuel o w).2
       = with_storage (Storage.set_history (Some (Json evs))) w.
Proof.
  revert o. induction fuel as [| fuel IH]; intros o;
    rewrite saveEvents_fuel_unfold;
    destruct (window w); try (left; reflexivity);
    destruct (setItem_history w (this.events o));
    try (left; reflexivity); try (right; eexists; reflexivity);
    destruct (10 <? length (this.events o))%nat; try (left; reflexivity).
  apply IH.
Qed.

Lemma with_storage_outbox f w : outbox (with_storage f w) = outbox w.
Proof. unfold with_storage. destruct (window w); reflexivity. Qed.

Lemma with_storage_now f w : now (with_storage f w) = now w.
Proof. unfold with_storage. destruct (window w); reflexivity. Qed.

Lemma persisted_attribution_set_history v w :
  persisted_attribution (with_storage (Storage.set_history v) w)
  = persisted_attribution w.
Proof.
  unfold persisted_attribution, storage, with_storage.
  destruct (window w) as [win |] eqn:Hw; simpl; rewrite ?Hw; reflexivity.
Qed.

Lemma saveEvents_outbox o w : outbox (saveEvents o w).2 = outbox w.
Proof.
  unfold saveEvents.
  destruct (saveEvents_fuel_world 1 o w) as [-> | [evs ->]];
    [reflexivity | apply with_storage_outbox].
Qed.

Lemma saveEvents_now o w : now (saveEvents o w).2 = now w.
Proof.
  unfold saveEvents.
  destruct (saveEvents_fuel_world 1 o w) as [-> | [evs ->]];
    [reflexivity | apply with_storage_now].
Qed.

Lemma saveEvents_persisted_attribution o w :
  persisted_attribution (saveEvents o w).2 = persisted_attribution w.
Proof.
  unfold saveEvents.
  destruct (saveEvents_fuel_world 1 o w) as [-> | [evs ->]];
    [reflexivity | apply persisted_attribution_set_history].
Qed.

(** [addEvent] of [PolicyA] posts the event, with the identifiers of the
    object, after everything posted before. *)
Lemma addEvent_A_outbox e o w :
  outbox (addEvent PolicyA e o w).2 =
  outbox w ++ [Payload.mk (this.uuid o) (or_undefined (this.derivUserId o))
                          (or_undefined (this.oldUuid o)) e (now w)].
Proof.
  pose proof (addEvent_this_any PolicyA e o w) as Hthis.
  unfold addEvent in *. cbv zeta in *.
  match goal with
  | |- context [saveEvents ?x w] =>
    pose proof (saveEvents_outbox x w) as Hout;
    pose proof (saveEvents_now x w) as Hnow;
    destruct (saveEvents x w) as [o1 w1]
  end.
  simpl in *. subst o1. unfold sendEventToBackend. simpl.
  rewrite Hout, Hnow. reflexivity.
Qed.

Lemma addEvent_persisted_attribution p e o w :
  persisted_attribution (addEvent p e o w).2 = persisted_attribution w.
Proof.
  unfold addEvent. cbv zeta.
  match goal with
  | |- context [saveEvents ?x w] =>
    pose proof (saveEvents_persisted_attribution x w) as H;
    destruct (saveEvents x w) as [o1 w1]
  end.
  destruct p; exact H.
Qed.

(** The newest event of the log after [addEvent] is the appended one, if the
    log may hold any. *)
Lemma addEvent_last p e o w :
  (0 < Options.maxEvents (this.options o))%Z ->
  last (this.events (addEvent p e o w).1) = Some e.
Proof.
  intros Hmax. rewrite addEvent_this by lia. simpl.
  rewrite persisted_log_last, last_n_last by lia. apply last_snoc.
Qed.

Lemma generateUUID_world w :
  (generateUUID w).2 = set_drawn (drawn (generateUUID w).2) w.
Proof.
  unfold generateUUID. destruct (replace_xy _ _ _) as [s j]. reflexivity.
Qed.

(** ** Page views under [PolicyA] *)

Lemma query_value_Some params k v :
  query_value params k = Some v <->
  URL.get (AttributionData.name k) params = Some v /\ v <> "".
Proof.
  unfold query_value. destruct (URL.get _ params) as [v' |].
  - destruct (truthy v') eqn:Ht.
    + apply truthy_nonempty in Ht. split; [intros [= <-]; tauto | intros [[= <-] _]; done].
    + split; [discriminate |]. intros [[= <-] Hne].
      apply truthy_nonempty in Hne. congruence.
  - split; [discriminate | intros [[=] _]].
Qed.

Lemma marketing_extracted win new_URL k :
  k ∈ AttributionData.marketing ->
  extracted_field win new_URL k = query_value (URL.searchParams (Window.location win)) k.
Proof.
  intros Hk. destruct k; try reflexivity; exfalso;
    revert Hk; apply (bool_decide_eq_false_1 _); reflexivity.
Qed.

Lemma hasNewAttributionData_true a :
  hasNewAttributionData a = true <->
  exists k, k ∈ AttributionData.marketing /\ is_Some (AttributionData.get k a).
Proof.
  unfold hasNewAttributionData. rewrite existsb_exists.
  split; intros (k & Hk & Hs); exists k.
  - apply list_elem_of_In in Hk. apply bool_decide_eq_true in Hs. tauto.
  - split; [apply list_elem_of_In; assumption | apply bool_decide_eq_true; assumption].
Qed.

(** The extracted record has a marketing field exactly when the address
    has. *)
Lemma hasNewAttributionData_parse p w win :
  window w = Some win ->
  hasNewAttributionData (parseAttributionData p w) = true <->
  url_has_marketing (Window.location win).
Proof.
  intros Hw. rewrite hasNewAttributionData_true. unfold url_has_marketing.
  split; intros (k & Hk & Hs); exists k; (split; [assumption |]).
  - rewrite (parseAttributionData_get p w win k Hw), marketing_extracted in Hs
      by assumption.
    destruct Hs as [v Hv]. exists v. apply query_value_Some. assumption.
  - rewrite (parseAttributionData_get p w win k Hw), marketing_extracted
      by assumption.
    destruct Hs as [v Hv]. exists v. apply query_value_Some. assumption.
Qed.

Lemma saveAttributionData_world o w :
  saveAttributionData o w = w
  \/ saveAttributionData o w
     = with_storage (Storage.set_attribution (Some (Json (this.currentAttribution o)))) w.
Proof.
  unfold saveAttributionData. destruct (window w); [| left; reflexivity].
  destruct (setItem_attribution w _); [right | left | left]; reflexivity.
Qed.

Lemma saveAttributionData_outbox o w : outbox (saveAttributionData o w) = outbox w.
Proof.
  destruct (saveAttributionData_world o w) as [-> | ->];
    [reflexivity | apply with_storage_outbox].
Qed.

Lemma saveAttributionData_now o w : now (saveAttributionData o w) = now w.
Proof.
  destruct (saveAttributionData_world o w) as [-> | ->];
    [reflexivity | apply with_storage_now].
Qed.

(** What a page view of [PolicyA] leaves behind, in terms of the attribution
    [getAttributionForPageView] chose: the event is posted and, if the log
    may hold any event, is its newest entry. *)
Lemma trackCurrentPageView_A_event (o : this.t) (w : World) (win : Window.t) :
  window w = Some win ->
  this.lastTrackedUrl o <> URL.href (Window.location win) ->
  let chosen :=
    getAttributionForPageView win
      (this.set_lastTrackedUrl (URL.href (Window.location win)) o) w in
  let o' := (trackCurrentPageView_A o w).1 in
  let w' := (trackCurrentPageView_A o w).2 in
  exists eventId,
    let event :=
      PageViewEvent.mk (URL.href (Window.location win)) (now w)
        (nonempty (Window.document_referrer win))
        (nonempty (Window.document_title win))
        chosen.1.1 (this.uuid o) (this.isLoggedIn o) eventId in
    posted w' = Some event
    /\ ((0 < Options.maxEvents (this.options o))%Z ->
        last (this.events o') = Some event)
    /\ this.currentPageEventId o' = Some eventId
    /\ this.currentAttribution o' = this.currentAttribution chosen.1.2
    /\ persisted_attribution w' = persisted_attribution chosen.2
    /\ this.lastTrackedUrl o' = URL.href (Window.location win).
Proof.
  intros Hw Hurl. cbv zeta. unfold trackCurrentPageView_A. rewrite Hw.
  destruct (String.eqb_spec (this.lastTrackedUrl o) (URL.href (Window.location win)))
    as [Heq | _]; [contradiction |].
  set (o1 := this.set_lastTrackedUrl (URL.href (Window.location win)) o).
  assert (exists a x,
            getAttributionForPageView win o1 w = (a, x, (getAttributionForPageView win o1 w).2)
            /\ (x = o1 \/ exists c, x = this.set_currentAttribution c o1)
            /\ now (getAttributionForPageView win o1 w).2 = now w
            /\ outbox (getAttributionForPageView win o1 w).2 = outbox w)
    as (a & x & Hg & Hx & Hnow & Hout).
  { unfold getAttributionForPageView.
    destruct (hasNewAttributionData _);
      [| destruct (AttributionData.has_keys _)]; simpl; do 2 eexists;
      (split; [reflexivity |]); eauto using saveAttributionData_now,
        saveAttributionData_outbox. }
  rewrite Hg. cbv beta iota.
  set (w2 := (getAttributionForPageView win o1 w).2) in *.
  pose proof (generateUUID_world w2) as Hgen.
  destruct (generateUUID w2) as [eventId w3]. cbn [fst snd] in Hgen.
  exists eventId.
  assert (this.uuid x = this.uuid o /\ this.isLoggedIn x = this.isLoggedIn o
          /\ this.options x = this.options o
          /\ this.derivUserId x = this.derivUserId o
          /\ this.oldUuid x = this.oldUuid o
          /\ this.lastTrackedUrl x = URL.href (Window.location win))
    as (Huuid & Hlog & Hopt & Hid & Hold & Hlast).
  { destruct Hx as [-> | [c ->]]; repeat split; reflexivity. }
  assert (now w3 = now w /\ outbox w3 = outbox w) as [Hnow3 Hout3].
  { rewrite Hgen. simpl. split; assumption. }
  unfold page_view. rewrite Huuid, Hlog, Hnow3.
  split; [| split; [| split; [| split; [| split]]]].
  - unfold posted. rewrite addEvent_A_outbox, last_snoc. reflexivity.
  - intros Hmax. apply addEvent_last. simpl. rewrite Hopt. assumption.
  - rewrite addEvent_this_any. reflexivity.
  - rewrite addEvent_this_any. reflexivity.
  - rewrite addEvent_persisted_attribution, Hgen. reflexivity.
  - rewrite addEvent_this_any. simpl. assumption.
Qed.

(** *** A navigation that brings marketing fields *)

(** C4, as stated, fails: when the write to storage fails, the record is not
    persisted. *)
Lemma new_attribution_counterexample :
  ~ new_attribution_claimed new_tracker campaign_world_unwritable.
Proof.
  intros (_ & _ & H). vm_compute in H. discriminate H.
Qed.

Lemma persisted_attribution_saved o w win :
  window w = Some win ->
  setItem_attribution w (this.currentAttribution o) = Stored ->
  persisted_attribution (saveAttributionData o w)
  = Some (Json (this.currentAttribution o)).
Proof.
  intros Hw Hs. unfold saveAttributionData. rewrite Hw, Hs.
  unfold persisted_attribution, storage, with_storage. rewrite Hw. reflexivity.
Qed.

Lemma persisted_attribution_not_saved o w :
  setItem_attribution w (this.currentAttribution o) <> Stored ->
  saveAttributionData o w = w.
Proof.
  intros Hs. unfold saveAttributionData. destruct (window w); [| reflexivity].
  destruct (setItem_attribution w _); [contradiction | reflexivity | reflexivity].
Qed.

(** C4 (amended): under [PolicyA], at a navigation to an address other than
    the last tracked one whose query string gives one of the ten marketing
    fields a non-empty value, the new event (the one posted and, if the log
    may hold events, its newest entry) carries exactly the record extracted
    from the address, field by field a function of the page alone; the
    current attribution becomes that record; and the record is written to
    storage, where it replaces the stored one unless the write fails, in
    which case the storage keeps what it had. *)
Theorem trackCurrentPageView_A_new_attribution (o : this.t) (w : World)
  (win : Window.t) :
  window w = Some win ->
  this.lastTrackedUrl o <> URL.href (Window.location win) ->
  url_has_marketing (Window.location win) ->
  let fresh := parseAttributionData PolicyA w in
  let o' := (trackCurrentPageView_A o w).1 in
  let w' := (trackCurrentPageView_A o w).2 in
  PageViewEvent.attribution <$> posted w' = Some fresh
  /\ ((0 < Options.maxEvents (this.options o))%Z ->
      PageViewEvent.attribution <$> last (this.events o') = Some fresh)
  /\ (forall k, AttributionData.get k fresh = extracted_field win (new_URL w) k)
  /\ AttributionData.attribution_timestamp fresh = Some (now w)
  /\ this.currentAttribution o' = fresh
  /\ (setItem_attribution w fresh = Stored ->
      persisted_attribution w' = Some (Json fresh))
  /\ (setItem_attribution w fresh <> Stored ->
      persisted_attribution w' = persisted_attribution w).
Proof.
  intros Hw Hurl Hm. cbv zeta.
  destruct (trackCurrentPageView_A_event o w win Hw Hurl)
    as (eventId & Hposted & Hlast & _ & Hcur & Hpers & _).
  apply (hasNewAttributionData_parse PolicyA w win Hw) in Hm.
  unfold getAttributionForPageView in *. rewrite Hm in *. simpl in *.
  rewrite Hposted, Hcur, Hpers.
  split; [reflexivity |].
  split; [intros Hmax; rewrite (Hlast Hmax); reflexivity |].
  split; [intros k; apply parseAttributionData_get; assumption |].
  split; [apply (parseAttributionData_timestamp PolicyA w win Hw) |].
  split; [reflexivity |].
  split.
  - intros Hs.
    rewrite (persisted_attribution_saved
               (this.set_currentAttribution (parseAttributionData PolicyA w)
                  (this.set_lastTrackedUrl (URL.href (Window.location win)) o))
               w win Hw Hs).
    reflexivity.
  - intros Hs. rewrite persisted_attribution_not_saved by exact Hs. reflexivity.
Qed.

Lemma campaign_has_marketing : url_has_marketing campaign_location.
Proof.
  exists AttributionData.Utm_source. split.
  - apply (bool_decide_eq_true_1 _). reflexivity.
  - exists "google". split; [reflexivity | discriminate].
Defined.

Lemma trackCurrentPageView_A_new_attribution_witness :
  url_has_marketing campaign_location
  /\ this.currentAttribution (trackCurrentPageView_A new_tracker campaign_world).1
     = parseAttributionData PolicyA campaign_world
  /\ persisted_attribution (trackCurrentPageView_A new_tracker campaign_world).2
     = Some (Json (parseAttributionData PolicyA campaign_world)).
Proof.
  split; [exact campaign_has_marketing |].
  pose proof (trackCurrentPageView_A_new_attribution new_tracker campaign_world
                campaign_window eq_refl) as H.
  destruct H as (_ & _ & _ & _ & Hcur & Hsaved & _).
  - discriminate.
  - exact campaign_has_marketing.
  - split; [exact Hcur | apply Hsaved; reflexivity].
Defined.

(** *** A navigation without marketing fields *)

(** The record a tracker holds is attached to the new event although its
    window has elapsed: the age of the record is tested only where it is
    loaded from storage. *)
Lemma inherited_expired_counterexample :
  expired stale_tracker checkout_world (this.currentAttribution stale_tracker) = true
  /\ ~ inherited_claimed stale_tracker checkout_world checkout_window.
Proof.
  split; [reflexivity |]. intros H. vm_compute in H. discriminate H.
Qed.

(** What [getAttributionForPageView] does under [PolicyA] at a navigation to
    an address other than the last tracked one whose query string gives none
    of the ten marketing fields a non-empty value: the new event (the one
    posted and, if the log may hold events, its newest entry) carries the
    attribution the object holds, with the landing page replaced by the
    current path and every other field as it is, whenever the object holds a
    non-empty one, and the extracted record, which has no marketing field,
    when it holds none.  Neither the current attribution nor the stored one
    changes. *)
Theorem trackCurrentPageView_A_inherits (o : this.t) (w : World) (win : Window.t) :
  window w = Some win ->
  this.lastTrackedUrl o <> URL.href (Window.location win) ->
  ~ url_has_marketing (Window.location win) ->
  let fresh := parseAttributionData PolicyA w in
  let current := this.currentAttribution o in
  let inherited :=
    if AttributionData.has_keys current
    then AttributionData.set AttributionData.Landing_page
           (URL.pathname (Window.location win)) current
    else fresh in
  let o' := (trackCurrentPageView_A o w).1 in
  let w' := (trackCurrentPageView_A o w).2 in
  PageViewEvent.attribution <$> posted w' = Some inherited
  /\ ((0 < Options.maxEvents (this.options o))%Z ->
      PageViewEvent.attribution <$> last (this.events o') = Some inherited)
  /\ (forall k, k ∈ AttributionData.marketing -> AttributionData.get k fresh = None)
  /\ (AttributionData.has_keys current = true ->
      AttributionData.landing_page inherited
      = Some (URL.pathname (Window.location win))
      /\ AttributionData.attribution_timestamp inherited
         = AttributionData.attribution_timestamp current
      /\ forall k, k <> AttributionData.Landing_page ->
                   AttributionData.get k inherited = AttributionData.get k current)
  /\ this.currentAttribution o' = current
  /\ persisted_attribution w' = persisted_attribution w.
Proof.
  intros Hw Hurl Hm. cbv zeta.
  destruct (trackCurrentPageView_A_event o w win Hw Hurl)
    as (eventId & Hposted & Hlast & _ & Hcur & Hpers & _).
  assert (hasNewAttributionData (parseAttributionData PolicyA w) = false) as Hnew.
  { apply not_true_is_false. intros H. apply Hm.
    apply (hasNewAttributionData_parse PolicyA w win Hw). exact H. }
  unfold getAttributionForPageView in *. rewrite Hnew in *. simpl in *.
  split; [| split; [| split; [| split; [| split]]]].
  - rewrite Hposted. simpl. destruct (AttributionData.has_keys _); reflexivity.
  - intros Hmax. rewrite (Hlast Hmax). simpl.
    destruct (AttributionData.has_keys _); reflexivity.
  - intros k Hk. destruct (AttributionData.get k _) as [v |] eqn:Hv; [| reflexivity].
    exfalso. apply not_true_iff_false in Hnew. apply Hnew.
    apply hasNewAttributionData_true. exists k. split; [assumption |].
    rewrite Hv. eauto.
  - intros Hkeys. rewrite Hkeys. split; [| split].
    + apply (get_set_same AttributionData.Landing_page).
    + apply timestamp_set.
    + intros k Hk. apply get_set_other. congruence.
  - rewrite Hcur. destruct (AttributionData.has_keys _); reflexivity.
  - rewrite Hpers. destruct (AttributionData.has_keys _); reflexivity.
Qed.

Lemma checkout_no_marketing : ~ url_has_marketing checkout_location.
Proof. intros (k & _ & v & Hv & _). discriminate Hv. Defined.

Lemma trackCurrentPageView_A_inherits_witness :
  ~ url_has_marketing checkout_location
  /\ PageViewEvent.attribution
     <$> posted (trackCurrentPageView_A stale_tracker checkout_world).2
     = Some (AttributionData.set AttributionData.Landing_page "/checkout" old_record).
Proof.
  split; [exact checkout_no_marketing |].
  refine (proj1 (trackCurrentPageView_A_inherits stale_tracker checkout_world
                   checkout_window eq_refl _ checkout_no_marketing)).
  discriminate.
Defined.

(** C3: the code does not do what is claimed for a record that has expired.
    A tracker is constructed while the stored record is one minute short of
    its window of thirty days, and loads it.  Two minutes later [init] runs
    on [/checkout], a page without marketing fields.  Its load finds the
    record expired and removes it from storage, but leaves it in the object,
    and the page view carries [utm_source=google] from it.  A tracker that
    is constructed at that moment carries the extracted record, as claimed
    for an expired record. *)
Theorem init_attaches_expired_attribution :
  let options := Options.defaults ".example.com" in
  let tracker := (constructor PolicyA options (recent_record_world 0)).1 in
  let later := recent_record_world 120000 in
  let started := init PolicyA None None tracker later in
  let new := constructor PolicyA options later in
  let restarted := init PolicyA None None new.1 new.2 in
  this.currentAttribution tracker = recent_record
  /\ (Options.attributionExpiry options * 60000 < now later - recent_capture)%Z
  /\ persisted_attribution started.2 = None
  /\ PageViewEvent.attribution <$> posted started.2
     = Some (AttributionData.set AttributionData.Landing_page "/checkout"
               recent_record)
  /\ PageViewEvent.attribution <$> posted restarted.2
     = Some (parseAttributionData PolicyA later)
  /\ AttributionData.utm_source (parseAttributionData PolicyA later) = None.
Proof. vm_compute. repeat split. Qed.

(** The scenario of the specification: a visit with
    [utm_source=google&utm_medium=cpc&utm_campaign=spring_sale], then
    [/checkout] without parameters.  The second event carries the three
    fields and the landing page [/checkout]. *)
Example campaign_then_checkout :
  let '(o1, w1) := trackCurrentPageView_A new_tracker campaign_world in
  let '(o2, w2) := trackCurrentPageView_A o1 (navigate checkout_location w1) in
  exists second,
    this.events o2 !! 1 = Some second
    /\ PageViewEvent.url second = "https://shop.example.com/checkout"
    /\ AttributionData.utm_source (PageViewEvent.attribution second) = Some "google"
    /\ AttributionData.utm_medium (PageViewEvent.attribution second) = Some "cpc"
    /\ AttributionData.utm_campaign (PageViewEvent.attribution second)
       = Some "spring_sale"
    /\ AttributionData.landing_page (PageViewEvent.attribution second)
       = Some "/checkout".
Proof. vm_compute. eexists. repeat split. Qed.

(** ** Page views under [PolicyB] *)

Lemma all_keys_complete k : k ∈ AttributionData.all_keys.
Proof. destruct k; apply (bool_decide_eq_true_1 _); reflexivity. Qed.

Lemma entries_elem a k v :
  (k, v) ∈ AttributionData.entries a <-> AttributionData.get k a = Some v.
Proof.
  unfold AttributionData.entries. rewrite list_elem_of_omap. split.
  - intros (k' & _ & H). destruct (AttributionData.get k' a) eqn:E; [| discriminate].
    injection H as <- <-. exact E.
  - intros H. exists k. split; [apply all_keys_complete |]. rewrite H. reflexivity.
Qed.

Lemma marketing_iff k :
  k ∈ AttributionData.marketing <->
  AttributionData.key_eqb k AttributionData.Referrer
  || AttributionData.key_eqb k AttributionData.Landing_page = false.
Proof.
  destruct k; simpl; split; intros H; try reflexivity; try discriminate;
    try (apply (bool_decide_eq_true_1 _); reflexivity);
    exfalso; revert H; apply (bool_decide_eq_false_1 _); reflexivity.
Qed.

Lemma compare_entries_true fresh last_attribution :
  existsb
    (fun '(key, value) =>
       if AttributionData.key_eqb key AttributionData.Referrer
          || AttributionData.key_eqb key AttributionData.Landing_page
       then false
       else truthy value
            && bool_decide (AttributionData.get key last_attribution <> Some value))
    (AttributionData.entries fresh) = true
  <-> brings_new_value fresh last_attribution.
Proof.
  rewrite existsb_exists. unfold brings_new_value. split.
  - intros ([k v] & Hin & H). apply list_elem_of_In, entries_elem in Hin.
    destruct (_ || _) eqn:Hk; [discriminate |].
    apply andb_true_iff in H as [Ht Hd].
    exists k, v. rewrite marketing_iff, <- truthy_nonempty.
    apply bool_decide_eq_true in Hd. tauto.
  - intros (k & v & Hk & Hget & Hne & Hd). exists (k, v). split.
    + apply list_elem_of_In, entries_elem. assumption.
    + apply marketing_iff in Hk. rewrite Hk.
      apply andb_true_iff. split; [apply truthy_nonempty; assumption |].
      apply bool_decide_eq_true. assumption.
Qed.

(** When [isNewAttributionSource] says no: the log is not empty, its last
    event has the address of the page, and the fresh record brings no new
    value. *)
Lemma isNewAttributionSource_false win fresh o :
  isNewAttributionSource win fresh o = false <->
  exists lastEvent,
    last (this.events o) = Some lastEvent
    /\ PageViewEvent.url lastEvent = URL.href (Window.location win)
    /\ ~ brings_new_value fresh (PageViewEvent.attribution lastEvent).
Proof.
  unfold isNewAttributionSource.
  destruct (last (this.events o)) as [lastEvent |].
  - destruct (String.eqb_spec (PageViewEvent.url lastEvent)
                (URL.href (Window.location win))) as [Heq | Hne]; simpl.
    + split.
      * intros H. exists lastEvent. split; [reflexivity |]. split; [assumption |].
        rewrite <- compare_entries_true, H. discriminate.
      * intros (e & [= <-] & _ & H). apply not_true_is_false.
        rewrite compare_entries_true. exact H.
    + split; [discriminate |]. intros (e & [= <-] & Heq & _). contradiction.
  - split; [discriminate |]. intros (e & [=] & _).
Qed.

(** The values of the extracted marketing fields are not empty. *)
Lemma parseAttributionData_nonempty p w win k v :
  window w = Some win ->
  k ∈ AttributionData.marketing ->
  AttributionData.get k (parseAttributionData p w) = Some v ->
  v <> "".
Proof.
  intros Hw Hk Hv.
  rewrite (parseAttributionData_get p w win k Hw), marketing_extracted in Hv
    by assumption.
  apply query_value_Some in Hv. tauto.
Qed.

(** C2, as stated, fails: a field that the last event has and the fresh
    record lacks does not make the visit a new one. *)
Lemma dedup_absent_field_counterexample :
  ~ dedup_claimed (sample_tracker [inherited_event]) sample_world sample_window.
Proof.
  intros [H _]. destruct (H eq_refl) as (e & [= <-] & _ & Hsame).
  specialize (Hsame AttributionData.Utm_source).
  assert (AttributionData.Utm_source ∈ AttributionData.marketing) as Hin
    by (apply (bool_decide_eq_true_1 _); reflexivity).
  specialize (Hsame Hin). discriminate Hsame.
Qed.

(** The claimed rule is the stricter one. *)
Lemma same_fields_same_source win fresh o :
  same_fields win fresh o -> same_source win fresh o.
Proof.
  intros (e & Hlast & Hurl & Hsame). exists e. repeat split; try assumption.
  intros k v Hk Hv. rewrite <- (Hsame k Hk). exact Hv.
Qed.

Lemma isNewAttributionSource_parse_false w win o :
  window w = Some win ->
  isNewAttributionSource win (parseAttributionData PolicyB w) o = false
  <-> same_source win (parseAttributionData PolicyB w) o.
Proof.
  intros Hw. rewrite isNewAttributionSource_false. unfold same_source.
  split; intros (e & Hlast & Hurl & H); exists e; repeat split; try assumption.
  - intros k v Hk Hv.
    destruct (decide (AttributionData.get k (PageViewEvent.attribution e) = Some v))
      as [Heq | Hne]; [assumption |].
    exfalso. apply H. exists k, v. repeat split; try assumption.
    apply (parseAttributionData_nonempty PolicyB w win k v); assumption.
  - intros (k & v & Hk & Hv & _ & Hne). apply Hne, H; assumption.
Qed.

(** C2 (amended): under [PolicyB], with a window, a page view (a run of
    [trackCurrentPageView], which [init], [trackPageView] and the listeners
    start) logs nothing -
    object and environment stay as they are - when the log is not empty, the
    address equals the last logged event's address, and every marketing
    field of the freshly extracted record has the same value in the last
    event's record (the referrer and the landing page are not compared, and
    a field that only the last event has is no difference).  In every other
    case a new event with the address and the extracted record is appended:
    the log becomes the old log with that event, trimmed and persisted, the
    event becomes the current one, and it is the newest entry if the log may
    hold events. *)
Theorem trackCurrentPageView_B_dedup (o : this.t) (w : World) (win : Window.t) :
  window w = Some win ->
  let fresh := parseAttributionData PolicyB w in
  let o' := (trackCurrentPageView_B o w).1 in
  (same_source win fresh o -> trackCurrentPageView_B o w = (o, w))
  /\ (~ same_source win fresh o ->
      exists eventId,
        let event :=
          PageViewEvent.mk (URL.href (Window.location win)) (now w)
            (nonempty (Window.document_referrer win))
            (nonempty (Window.document_title win))
            fresh (this.uuid o) (this.isLoggedIn o) eventId in
        this.events o' =
          persisted_log w
            (trimmed (Options.maxEvents (this.options o)) (this.events o ++ [event]))
        /\ this.currentPageEventId o' = Some eventId
        /\ ((0 < Options.maxEvents (this.options o))%Z ->
            last (this.events o') = Some event)).
Proof.
  intros Hw. cbv zeta.
  pose proof (isNewAttributionSource_parse_false w win o Hw) as Hiff.
  unfold trackCurrentPageView_B. rewrite Hw.
  destruct (isNewAttributionSource win (parseAttributionData PolicyB w) o).
  - split; [intros Hs; apply Hiff in Hs; discriminate |]. intros _.
    pose proof (generateUUID_world w) as Hgen.
    destruct (generateUUID w) as [eventId w1]. cbn [fst snd] in Hgen.
    exists eventId. unfold page_view.
    assert (now w1 = now w) as -> by (rewrite Hgen; reflexivity).
    split; [| split].
    + rewrite addEvent_this_any, Hgen. reflexivity.
    + rewrite addEvent_this_any. reflexivity.
    + intros Hmax. apply addEvent_last. exact Hmax.
  - split; [reflexivity |]. intros Hn. exfalso. apply Hn, Hiff. reflexivity.
Qed.

Lemma sample_same_source :
  same_source sample_window (parseAttributionData PolicyB sample_world)
              (sample_tracker [inherited_event]).
Proof.
  exists inherited_event. split; [reflexivity |]. split; [reflexivity |].
  intros k v Hk Hv. destruct k; vm_compute in Hv; try discriminate Hv.
  exfalso. revert Hk. apply (bool_decide_eq_false_1 _). reflexivity.
Defined.

Lemma trackCurrentPageView_B_dedup_witness :
  trackCurrentPageView_B (sample_tracker [inherited_event]) sample_world
  = (sample_tracker [inherited_event], sample_world).
Proof.
  exact (proj1 (trackCurrentPageView_B_dedup (sample_tracker [inherited_event])
                  sample_world sample_window eq_refl) sample_same_source).
Defined.

(** A listener of [PolicyB] that fires while the address is still the last
    tracked one does nothing; otherwise it records the address and runs the
    page view above. *)
Lemma on_navigation_B o w win :
  window w = Some win ->
  on_navigation PolicyB o w =
  if String.eqb (URL.href (Window.location win)) (this.lastTrackedUrl o)
  then (o, w)
  else trackCurrentPageView_B
         (this.set_lastTrackedUrl (URL.href (Window.location win)) o) w.
Proof.
  intros Hw. unfold on_navigation. rewrite Hw.
  destruct (String.eqb _ _); reflexivity.
Qed.

(** ** Scenarios of the specification *)

(** [maxEvents = 3] and four navigations to different addresses: the log
    holds the three last ones. *)
Example four_navigations (p : Policy) :
  PageViewEvent.url <$> this.events (visit p ["/a"; "/b"; "/c"; "/d"] small_tracker
                                       counting_world).1
  = ["https://shop.example.com/b"; "https://shop.example.com/c";
     "https://shop.example.com/d"].
Proof. destruct p; vm_compute; reflexivity. Qed.

(** [recordLogin] with [resetOnLogin = true] after five logged events: the
    log is empty afterwards, and the fifth event was posted with its flag
    set before the reset. *)
Example login_after_five_events :
  let '(o5, w5) :=
    visit PolicyA ["/a"; "/b"; "/c"; "/d"; "/e"] new_tracker counting_world in
  let '(o6, w6, end6) := recordLogin PolicyA "user-42" o5 w5 in
  length (this.events o5) = 5
  /\ end6 = Return tt
  /\ getEvents o6 = []
  /\ (PageViewEvent.url <$> posted w6) = Some "https://shop.example.com/e"
  /\ (PageViewEvent.is_loggedin <$> posted w6) = Some true
  /\ (PageViewEvent.event_id <$> posted w6) = this.currentPageEventId o5.
Proof. vm_compute. repeat split. Qed.

(** ** What the returned array shares with the log *)

Lemma read_attribution_weaken (h h' : gmap Heap.loc Heap.object) l a :
  h ⊆ h' -> Heap.read_attribution h l = Some a -> Heap.read_attribution h' l = Some a.
Proof.
  intros Hsub. unfold Heap.read_attribution.
  destruct (h !! l) as [o |] eqn:Hl; [| discriminate].
  rewrite (lookup_weaken _ _ _ _ Hl Hsub). done.
Qed.

Lemma read_event_weaken (h h' : gmap Heap.loc Heap.object) l e :
  h ⊆ h' -> Heap.read_event h l = Some e -> Heap.read_event h' l = Some e.
Proof.
  intros Hsub. unfold Heap.read_event.
  destruct (h !! l) as [o |] eqn:Hl; [| discriminate].
  rewrite (lookup_weaken _ _ _ _ Hl Hsub).
  destruct o as [| ev |]; try discriminate.
  destruct (Heap.read_attribution h (Heap.attribution ev)) as [a |] eqn:Ha;
    [| discriminate].
  rewrite (read_attribution_weaken h h' _ a Hsub Ha). done.
Qed.

Lemma read_events_weaken (h h' : gmap Heap.loc Heap.object) ls evs :
  h ⊆ h' -> mapM (Heap.read_event h) ls = Some evs ->
  mapM (Heap.read_event h') ls = Some evs.
Proof.
  intros Hsub Hm. apply mapM_Some. apply mapM_Some in Hm.
  induction Hm; constructor; eauto using read_event_weaken.
Qed.

(** Adding objects to the heap does not change how an array reads. *)
Lemma read_array_weaken (h h' : gmap Heap.loc Heap.object) l evs :
  h ⊆ h' -> Heap.read_array h l = Some evs -> Heap.read_array h' l = Some evs.
Proof.
  intros Hsub. unfold Heap.read_array.
  destruct (h !! l) as [o |] eqn:Hl; [| discriminate].
  rewrite (lookup_weaken _ _ _ _ Hl Hsub).
  destruct o; try discriminate. apply read_events_weaken. assumption.
Qed.

Lemma fresh_unused (h : gmap Heap.loc Heap.object) : h !! fresh (dom h) = None.
Proof. apply not_elem_of_dom, is_fresh. Qed.

(** The returned array is a new object that reads as the log, and making it
    does not change the log. *)
Lemma getEvents_copy (h : gmap Heap.loc Heap.object) (events : Heap.loc) evs :
  Heap.read_array h events = Some evs ->
  Heap.read_array (Heap.getEvents h events).1 (Heap.getEvents h events).2 = Some evs
  /\ Heap.read_array (Heap.getEvents h events).1 events = Some evs
  /\ (Heap.getEvents h events).2 <> events.
Proof.
  intros Hread. pose proof (fresh_unused h) as Hfresh.
  pose proof (insert_subseteq h (fresh (dom h))) as Hsub.
  unfold Heap.getEvents, Heap.read_array in *.
  destruct (h !! events) as [[elements | |] |] eqn:He; try discriminate.
  simpl. rewrite lookup_insert_eq. split; [| split].
  - apply (read_events_weaken h); auto.
  - rewrite lookup_insert_ne by congruence. rewrite He.
    apply (read_events_weaken h); auto.
  - congruence.
Qed.

(** Whatever the caller does to the returned array itself, the log reads as
    before. *)
Lemma getEvents_array_isolated (h : gmap Heap.loc Heap.object) (events : Heap.loc)
  evs elements :
  Heap.read_array h events = Some evs ->
  Heap.read_array
    (Heap.mutate (Heap.getEvents h events).1 (Heap.getEvents h events).2
       (Heap.SetElements elements))
    events
  = Some evs.
Proof.
  intros Hread. pose proof (fresh_unused h) as Hfresh.
  apply (read_array_weaken h); [| assumption].
  unfold Heap.getEvents, Heap.read_array in *.
  destruct (h !! events) as [[els | |] |] eqn:He; try discriminate.
  simpl. rewrite alter_insert_eq. apply insert_subseteq. assumption.
Qed.

(** C9 fails on the code: [const evs = tracker.getEvents();
    evs[0].is_loggedin = true] changes the event of the log, because the
    returned array holds the log's own event objects. *)
Lemma getEvents_shares_events :
  let '(h1, returned) := Heap.getEvents Heap.one_event_heap 1%positive in
  let h2 := Heap.mutate h1 returned (Heap.SetEventProperty 0 (Heap.set_is_loggedin true)) in
  fmap (M:=list) PageViewEvent.is_loggedin <$> Heap.read_array h1 1%positive = Some [false]
  /\ fmap (M:=list) PageViewEvent.is_loggedin <$> Heap.read_array h2 1%positive = Some [true].
Proof. vm_compute. split; reflexivity. Qed.

(** The same through the attribution of an event:
    [evs[0].attribution.utm_source = "x"]. *)
Lemma getEvents_shares_attribution :
  let '(h1, returned) := Heap.getEvents Heap.one_event_heap 1%positive in
  let h2 :=
    Heap.mutate h1 returned
      (Heap.SetAttributionProperty 0 (AttributionData.set AttributionData.Utm_source "x")) in
  Heap.read_array h2 1%positive <> Heap.read_array h1 1%positive.
Proof. vm_compute. discriminate. Qed.

(** Hence the copy is not defensive in the sense of the claim. *)
Lemma getEvents_not_defensive :
  ~ Heap.defensive_copy Heap.one_event_heap 1%positive.
Proof.
  unfold Heap.defensive_copy.
  destruct (Heap.getEvents Heap.one_event_heap 1%positive) as [h1 returned] eqn:Hg.
  intros [_ H].
  specialize (H (Heap.SetEventProperty 0 (Heap.set_is_loggedin true))).
  injection Hg as <- <-. vm_compute in H. discriminate H.
Qed.

(** ** The shape of an identifier ([generateUUID]) *)

Lemma hex_digit_hex (v : Z) : (0 <= v < 16)%Z -> is_hex (hex_digit v) = true.
Proof.
  intros H.
  assert (v = 0 \/ v = 1 \/ v = 2 \/ v = 3 \/ v = 4 \/ v = 5 \/ v = 6 \/ v = 7
          \/ v = 8 \/ v = 9 \/ v = 10 \/ v = 11 \/ v = 12 \/ v = 13 \/ v = 14
          \/ v = 15)%Z as Hv by lia.
  repeat (destruct Hv as [-> | Hv]; [reflexivity |]). subst v. reflexivity.
Qed.

(** [r & 0x3 | 0x8] is one of [8], [9], [10] and [11]. *)
Lemma hex_digit_variant (r : Z) :
  (0 <= r < 16)%Z -> is_variant (hex_digit (Z.lor (Z.land r 3) 8)) = true.
Proof.
  intros H.
  assert (r = 0 \/ r = 1 \/ r = 2 \/ r = 3 \/ r = 4 \/ r = 5 \/ r = 6 \/ r = 7
          \/ r = 8 \/ r = 9 \/ r = 10 \/ r = 11 \/ r = 12 \/ r = 13 \/ r = 14
          \/ r = 15)%Z as Hr by lia.
  repeat (destruct Hr as [-> | Hr]; [reflexivity |]). subst r. reflexivity.
Qed.

Lemma replace_xy_matches rnd i template :
  matches_template template (replace_xy rnd i template).1 = true.
Proof.
  revert i. induction template as [| c rest IH]; intros i; [reflexivity |].
  cbn [replace_xy]. destruct (Ascii.eqb c "x") eqn:Hx.
  - specialize (IH (S i)). destruct (replace_xy rnd (S i) rest) as [s j].
    cbn [fst matches_template] in *. rewrite Hx, IH, hex_digit_hex; [reflexivity |].
    apply Z.mod_pos_bound. lia.
  - destruct (Ascii.eqb c "y") eqn:Hy.
    + specialize (IH (S i)). destruct (replace_xy rnd (S i) rest) as [s j].
      cbn [fst matches_template] in *.
      rewrite Hx, Hy, IH, hex_digit_variant; [reflexivity |].
      apply Z.mod_pos_bound. lia.
    + specialize (IH i). destruct (replace_xy rnd i rest) as [s j].
      cbn [fst matches_template] in *.
      rewrite Hx, Hy, IH, Ascii.eqb_refl. reflexivity.
Qed.

(** One random value is used for each [x] and [y] of the template. *)
Lemma replace_xy_drawn rnd i template :
  (replace_xy rnd i template).2 =
  i + length (filter (fun c => Ascii.eqb c "x" || Ascii.eqb c "y" = true) template).
Proof.
  revert i. induction template as [| c rest IH]; intros i; [simpl; lia |].
  cbn [replace_xy]. rewrite filter_cons.
  destruct (Ascii.eqb c "x") eqn:Hx; [| destruct (Ascii.eqb c "y") eqn:Hy].
  - specialize (IH (S i)). destruct (replace_xy rnd (S i) rest) as [s j].
    cbn [snd] in *. subst j. destruct (decide _) as [_ | Hn]; [simpl; lia |].
    exfalso. apply Hn. reflexivity.
  - specialize (IH (S i)). destruct (replace_xy rnd (S i) rest) as [s j].
    cbn [snd] in *. subst j. destruct (decide _) as [_ | Hn]; [simpl; lia |].
    exfalso. apply Hn. reflexivity.
  - specialize (IH i). destruct (replace_xy rnd i rest) as [s j].
    cbn [snd] in *. subst j. destruct (decide _) as [Hd | _]; [discriminate Hd | lia].
Qed.

(** X1: whatever the random source gives, [generateUUID] returns a text of
    the shape [xxxxxxxx-xxxx-4xxx-yxxx-xxxxxxxxxxxx] in which every [x] is a
    lower-case hexadecimal digit and [y] is one of [8], [9], [a] and [b]; it
    uses 31 random values and changes nothing else in the environment. *)
Theorem generateUUID_v4 (w : World) :
  uuid_v4 (generateUUID w).1 = true
  /\ (generateUUID w).2 = set_drawn (drawn w + 31) w.
Proof.
  unfold generateUUID, uuid_v4.
  pose proof (replace_xy_matches (random w) (drawn w)
                (list_ascii_of_string uuid_template)) as Hm.
  pose proof (replace_xy_drawn (random w) (drawn w)
                (list_ascii_of_string uuid_template)) as Hd.
  destruct (replace_xy _ _ _) as [s j]. simpl in *.
  rewrite list_ascii_of_string_of_list_ascii. split; [exact Hm |].
  rewrite Hd. reflexivity.
Qed.

(** ** Strings: [split] *)

Lemma split_nonempty sep s : split sep s <> [].
Proof.
  destruct s as [| c rest]; simpl; [discriminate |].
  destruct (Ascii.eqb c sep); [discriminate |].
  destruct (split sep rest); discriminate.
Qed.

Lemma split_no_sep sep s : has_char sep s = false -> split sep s = [s].
Proof.
  induction s as [| c rest IH]; simpl; [reflexivity |].
  intros H. apply orb_false_iff in H as [Hc Hrest].
  rewrite Hc, IH by assumption. reflexivity.
Qed.

Lemma split_app sep s t :
  split sep (s +:+ String sep t) = split sep s ++ split sep t.
Proof.
  induction s as [| c rest IH]; simpl.
  - rewrite Ascii.eqb_refl. reflexivity.
  - destruct (Ascii.eqb c sep); [rewrite IH; reflexivity |].
    rewrite IH. pose proof (split_nonempty sep rest) as Hne.
    destruct (split sep rest); [contradiction | reflexivity].
Qed.

Lemma length_split_sep sep s : has_char sep s = true -> 2 <= length (split sep s).
Proof.
  induction s as [| c rest IH]; simpl; [discriminate |].
  destruct (Ascii.eqb c sep); simpl.
  - intros _. pose proof (split_nonempty sep rest).
    destruct (split sep rest); [contradiction | simpl; lia].
  - intros H. specialize (IH H).
    destruct (split sep rest); simpl in *; lia.
Qed.

(** [join] undoes [split] on pieces without the separator. *)
Lemma split_concat (sep : ascii) (pieces : list string) :
  pieces <> [] ->
  Forall (fun piece => has_char sep piece = false) pieces ->
  split sep (String.concat (String sep "") pieces) = pieces.
Proof.
  intros Hne Hok. induction Hok as [| piece rest Hpiece Hrest IH]; [contradiction |].
  destruct rest as [| piece' rest'].
  - simpl. apply split_no_sep. assumption.
  - change (String.concat (String sep "") (piece :: piece' :: rest'))
      with (piece +:+ String sep (String.concat (String sep "") (piece' :: rest'))).
    rewrite split_app, split_no_sep, IH by (assumption || discriminate).
    reflexivity.
Qed.

(** ** The cookie domain ([getTopLevelDomain]) *)

Lemma slice_minus_two (l : list string) : slice (-2) l = last_n 2 l.
Proof.
  unfold slice, last_n. simpl. f_equal. lia.
Qed.

(** X2: for a host name made of labels that are joined by dots,
    [getTopLevelDomain] gives the host name itself when there is one label
    (as for [localhost]), and otherwise a dot followed by the two last
    labels joined by a dot, whatever these are. *)
Theorem getTopLevelDomain_labels (w : World) (win : Window.t)
  (labels : list string) :
  window w = Some win ->
  labels <> [] ->
  Forall (fun label => has_char "." label = false) labels ->
  URL.hostname (Window.location win) = String.concat "." labels ->
  getTopLevelDomain w =
  match labels with
  | [label] => label
  | _ => "." +:+ String.concat "." (last_n 2 labels)
  end.
Proof.
  intros Hw Hne Hok Hhost. unfold getTopLevelDomain. rewrite Hw, Hhost.
  cbv zeta. rewrite (split_concat "." labels Hne Hok), slice_minus_two.
  destruct labels as [| a [| b rest]]; [contradiction | reflexivity |].
  reflexivity.
Qed.

Lemma getTopLevelDomain_labels_witness :
  getTopLevelDomain sample_world = ".example.com".
Proof.
  refine (getTopLevelDomain_labels sample_world sample_window
            ["shop"; "example"; "com"] eq_refl _ _ eq_refl).
  - discriminate.
  - repeat constructor.
Defined.

(** X3: a host name with a dot in it and every host name that puts further
    labels in front of it have the same cookie domain. *)
Theorem getTopLevelDomain_subdomain (w1 w2 : World) (win1 win2 : Window.t)
  (sub : string) :
  window w1 = Some win1 ->
  window w2 = Some win2 ->
  has_char "." (URL.hostname (Window.location win2)) = true ->
  URL.hostname (Window.location win1)
  = sub +:+ "." +:+ URL.hostname (Window.location win2) ->
  getTopLevelDomain w1 = getTopLevelDomain w2.
Proof.
  intros Hw1 Hw2 Hdot Hhost. unfold getTopLevelDomain.
  rewrite Hw1, Hw2, Hhost. cbv zeta.
  change (sub +:+ "." +:+ URL.hostname (Window.location win2))
    with (sub +:+ String "." (URL.hostname (Window.location win2))).
  rewrite split_app. apply length_split_sep in Hdot.
  pose proof (split_nonempty "." sub) as Hsub.
  set (l2 := split "." (URL.hostname (Window.location win2))) in *.
  set (l1 := split "." sub) in *.
  rewrite length_app.
  destruct (Nat.leb_spec (length l1 + length l2) 1); [lia |].
  destruct (Nat.leb_spec (length l2) 1); [lia |].
  rewrite !slice_minus_two. f_equal. f_equal.
  unfold last_n. rewrite length_app.
  replace (length l1 + length l2 - 2) with (length l1 + (length l2 - 2)) by lia.
  rewrite drop_app_add'; reflexivity.
Qed.

Lemma getTopLevelDomain_subdomain_witness :
  getTopLevelDomain sample_world = getTopLevelDomain apex_world.
Proof.
  refine (getTopLevelDomain_subdomain sample_world apex_world sample_window _ "shop"
            eq_refl eq_refl _ _); reflexivity.
Defined.

(** ** Reading the cookie ([getCookie]) *)

Lemma strip_spaces_length s : String.length (strip_spaces s) <= String.length s.
Proof.
  induction s as [| c rest IH]; simpl; [lia |].
  destruct (Ascii.eqb c " "); simpl; lia.
Qed.

Lemma strip_spaces_app n t :
  strip_spaces n = n -> strip_spaces (n +:+ String "=" t) = n +:+ String "=" t.
Proof.
  destruct n as [| c rest]; simpl; [reflexivity |].
  destruct (Ascii.eqb c " "); [| reflexivity].
  intros H. pose proof (strip_spaces_length rest) as Hlen.
  rewrite H in Hlen. simpl in Hlen. lia.
Qed.

Lemma prefix_cons (a b : ascii) (s t : string) :
  String.prefix (String a s) (String b t)
  = if Ascii.eqb a b then String.prefix s t else false.
Proof.
  cbn [String.prefix].
  destruct (ascii_dec a b) as [-> | Hne].
  - rewrite Ascii.eqb_refl. reflexivity.
  - destruct (Ascii.eqb_spec a b); [contradiction | reflexivity].
Qed.

Lemma prefix_name (name n v : string) :
  has_char "=" name = false -> has_char "=" n = false ->
  String.prefix (name +:+ "=") (n +:+ String "=" v) = String.eqb n name.
Proof.
  revert n. induction name as [| c rest IH]; intros [| d n] Hname Hn.
  - change (String.prefix (String "=" "") (String "=" v) = true).
    rewrite prefix_cons. destruct v; reflexivity.
  - change (String.prefix (String "=" "") (String d (n +:+ String "=" v)) = false).
    rewrite prefix_cons. cbn [has_char] in Hn.
    apply orb_false_iff in Hn as [Hd _].
    rewrite Ascii.eqb_sym, Hd. reflexivity.
  - change (String.prefix (String c (rest +:+ "=")) (String "=" v) = false).
    rewrite prefix_cons. cbn [has_char] in Hname.
    apply orb_false_iff in Hname as [Hc _]. rewrite Hc. reflexivity.
  - change (String.prefix (String c (rest +:+ "=")) (String d (n +:+ String "=" v))
            = if Ascii.eqb d c then String.eqb n rest else false).
    rewrite prefix_cons, (Ascii.eqb_sym c d). cbn [has_char] in Hname, Hn.
    apply orb_false_iff in Hname as [_ Hname].
    apply orb_false_iff in Hn as [_ Hn].
    destruct (Ascii.eqb d c); [apply IH; assumption | reflexivity].
Qed.

Lemma substring_from_app (name v : string) :
  substring_from (String.length (name +:+ "=")) (name +:+ String "=" v) = v.
Proof. induction name as [| c rest IH]; simpl; [reflexivity | exact IH]. Qed.

Lemma split_cookie_text (first : string) (rest : list string) :
  Forall (fun piece => has_char ";" piece = false) (first :: rest) ->
  split ";" (String.concat "; " (first :: rest)) = first :: (String " " <$> rest).
Proof.
  revert first. induction rest as [| second rest IH]; intros first Hok.
  - simpl. apply split_no_sep. inversion Hok. assumption.
  - change (String.concat "; " (first :: second :: rest))
      with (first +:+ String ";" (String " " (String.concat "; " (second :: rest)))).
    inversion Hok as [| ? ? Hfirst Hrest]; subst.
    rewrite split_app, split_no_sep by assumption.
    cbn [split]. change (Ascii.eqb " " ";") with false. cbv iota.
    rewrite IH by assumption. reflexivity.
Qed.

Lemma getCookie_loop_lookup (decodeURIComponent : string -> option string)
  (name : string) (pieces : list string) (jar : list (string * string)) :
  has_char "=" name = false ->
  Forall2 (fun piece nv =>
             strip_spaces piece = nv.1 +:+ String "=" nv.2
             /\ has_char "=" nv.1 = false) pieces jar ->
  getCookie_loop decodeURIComponent (name +:+ "=") pieces
  = decoded decodeURIComponent (cookie_value name jar).
Proof.
  intros Hname Hall.
  induction Hall as [| piece [n v] pieces jar [Hpiece Hn] _ IH]; [reflexivity |].
  simpl in *. rewrite Hpiece, prefix_name by assumption.
  destruct (String.eqb_spec n name) as [-> | Hne]; [| exact IH].
  rewrite substring_from_app. reflexivity.
Qed.

(** X4: on the text [document.cookie] of a jar of cookies, [getCookie] of a
    name without an equals sign finds the first cookie of exactly that name
    - not one whose name only starts or ends with it - and returns its
    decoded value; it returns [null] when the jar has no such cookie, and
    throws when the value found does not decode. *)
Theorem getCookie_lookup (decodeURIComponent : string -> option string)
  (name : string) (jar : list (string * string)) :
  has_char "=" name = false ->
  Forall cookie_ok jar ->
  getCookie decodeURIComponent (Some (cookie_text jar)) name
  = decoded decodeURIComponent (cookie_value name jar).
Proof.
  intros Hname Hjar. unfold getCookie, cookie_text.
  destruct jar as [| [n v] jar].
  - simpl. destruct name; reflexivity.
  - assert (forall nv, cookie_ok nv ->
              has_char ";" (nv.1 +:+ "=" +:+ nv.2) = false) as Hsemi.
    { intros [a b] (Ha & _ & _ & Hb). simpl in *.
      induction a as [| c a IH]; simpl in *; [assumption |].
      apply orb_false_iff in Ha as [Hc Ha]. rewrite Hc. apply IH. assumption. }
    cbn [fmap list_fmap]. rewrite split_cookie_text.
    + apply getCookie_loop_lookup; [assumption |].
      inversion Hjar as [| ? ? Hnv Hrest]; subst.
      constructor.
      * destruct Hnv as (_ & Heq & Hstrip & _). split; [| assumption].
        apply strip_spaces_app. assumption.
      * clear -Hrest. induction Hrest as [| [a b] jar (_ & Heq & Hstrip & _) _ IH];
          constructor; [| exact IH].
        split; [| assumption]. simpl. apply strip_spaces_app. assumption.
    + change (Forall (fun piece => has_char ";" piece = false)
                ((fun nv => nv.1 +:+ "=" +:+ nv.2) <$> (n, v) :: jar)).
      apply Forall_fmap.
      eapply Forall_impl; [exact Hjar |]. intros nv Hnv. apply Hsemi. assumption.
Qed.

Lemma getCookie_lookup_witness :
  getCookie Some
    (Some "xuser_journey_uuid=other; theme=dark; user_journey_uuid=device-1")
    "user_journey_uuid"
  = Return (Some "device-1").
Proof.
  refine (getCookie_lookup Some "user_journey_uuid"
            [("xuser_journey_uuid", "other"); ("theme", "dark");
             ("user_journey_uuid", "device-1")] eq_refl _).
  repeat constructor.
Defined.

(** ** What tracking leaves alone *)

Lemma surroundings_with_storage_history v w :
  surroundings (with_storage (Storage.set_history v) w) = surroundings w.
Proof.
  unfold surroundings, stored_user_id, stored_old_uuid, storage, with_storage.
  destruct (window w) as [win |] eqn:Hw; simpl; rewrite ?Hw; reflexivity.
Qed.

Lemma surroundings_with_storage_attribution v w :
  surroundings (with_storage (Storage.set_attribution v) w) = surroundings w.
Proof.
  unfold surroundings, stored_user_id, stored_old_uuid, storage, with_storage.
  destruct (window w) as [win |] eqn:Hw; simpl; rewrite ?Hw; reflexivity.
Qed.

Lemma surroundings_set_drawn n w : surroundings (set_drawn n w) = surroundings w.
Proof. reflexivity. Qed.

Lemma surroundings_set_outbox l w : surroundings (set_outbox l w) = surroundings w.
Proof. reflexivity. Qed.

Lemma surroundings_generateUUID w : surroundings (generateUUID w).2 = surroundings w.
Proof. rewrite generateUUID_world. reflexivity. Qed.

Lemma surroundings_saveEvents o w : surroundings (saveEvents o w).2 = surroundings w.
Proof.
  unfold saveEvents.
  destruct (saveEvents_fuel_world 1 o w) as [-> | [evs ->]];
    [reflexivity | apply surroundings_with_storage_history].
Qed.

Lemma surroundings_addEvent p e o w : surroundings (addEvent p e o w).2 = surroundings w.
Proof.
  unfold addEvent. cbv zeta.
  match goal with
  | |- context [saveEvents ?x w] =>
    pose proof (surroundings_saveEvents x w) as H;
    destruct (saveEvents x w) as [o1 w1]
  end.
  destruct p; exact H.
Qed.

Lemma surroundings_saveAttributionData o w :
  surroundings (saveAttributionData o w) = surroundings w.
Proof.
  destruct (saveAttributionData_world o w) as [-> | ->];
    [reflexivity | apply surroundings_with_storage_attribution].
Qed.

Lemma surroundings_loadAttributionData o w :
  surroundings (loadAttributionData o w).2 = surroundings w.
Proof.
  unfold loadAttributionData. destruct (window w) as [win |]; [| reflexivity].
  destruct (Storage.attribution _) as [[| a] |]; try reflexivity.
  destruct (has_timestamp a); [destruct (Qle_bool _ _) |]; try reflexivity.
  apply surroundings_with_storage_attribution.
Qed.

Lemma surroundings_getAttributionForPageView win o w :
  surroundings (getAttributionForPageView win o w).2 = surroundings w.
Proof.
  unfold getAttributionForPageView.
  destruct (hasNewAttributionData _);
    [apply surroundings_saveAttributionData |].
  destruct (AttributionData.has_keys _); reflexivity.
Qed.

Lemma surroundings_trackCurrentPageView_A o w :
  surroundings (trackCurrentPageView_A o w).2 = surroundings w.
Proof.
  unfold trackCurrentPageView_A. destruct (window w) as [win |]; [| reflexivity].
  destruct (String.eqb _ _); [reflexivity |].
  match goal with
  | |- context [getAttributionForPageView win ?x w] =>
    pose proof (surroundings_getAttributionForPageView win x w) as H;
    destruct (getAttributionForPageView win x w) as [[a o2] w2]
  end.
  pose proof (surroundings_generateUUID w2) as Hg.
  destruct (generateUUID w2) as [eventId w3]. simpl in *.
  rewrite surroundings_addEvent. congruence.
Qed.

Lemma surroundings_trackCurrentPageView_B o w :
  surroundings (trackCurrentPageView_B o w).2 = surroundings w.
Proof.
  unfold trackCurrentPageView_B. destruct (window w) as [win |]; [| reflexivity].
  destruct (isNewAttributionSource _ _ _); [| reflexivity].
  pose proof (surroundings_generateUUID w) as Hg.
  destruct (generateUUID w) as [eventId w1]. simpl in *.
  rewrite surroundings_addEvent. exact Hg.
Qed.

Lemma surroundings_trackPageView p o w :
  surroundings (trackPageView p o w).2 = surroundings w.
Proof.
  unfold trackPageView. destruct (window w) as [win |]; [| reflexivity].
  destruct p;
    [apply surroundings_trackCurrentPageView_A | apply surroundings_trackCurrentPageView_B].
Qed.

Lemma surroundings_on_navigation p o w :
  surroundings (on_navigation p o w).2 = surroundings w.
Proof.
  unfold on_navigation. destruct p; [apply surroundings_trackPageView |].
  destruct (window w) as [win |]; [| reflexivity].
  destruct (negb _); [apply surroundings_trackCurrentPageView_B | reflexivity].
Qed.

Lemma surroundings_clearEvents o w : surroundings (clearEvents o w).2 = surroundings w.
Proof. apply surroundings_with_storage_history. Qed.

Lemma surroundings_update_current_event p b o w :
  surroundings (update_current_event p b o w).2 = surroundings w.
Proof.
  unfold update_current_event.
  destruct (this.currentPageEventId o) as [eventId |]; [| reflexivity].
  destruct (truthy eventId); [| reflexivity].
  assert (surroundings (updateEventLoginState eventId b o w).2 = surroundings w) as H.
  { unfold updateEventLoginState.
    destruct (findIndex _ _); [apply surroundings_saveEvents | reflexivity]. }
  destruct (updateEventLoginState eventId b o w) as [o1 w1]. simpl in H.
  destruct p; [| exact H].
  destruct (find eventId (this.events o1)); exact H.
Qed.

(** ** The session of a tracker *)

Lemma same_session_refl o : same_session o o.
Proof. repeat split. Qed.

Lemma same_session_trans a b c :
  same_session a b -> same_session b c -> same_session a c.
Proof. unfold same_session. intuition congruence. Qed.

Lemma set_events_session evs o : same_session (this.set_events evs o) o.
Proof. repeat split. Qed.

Lemma loadEvents_session o w : same_session (loadEvents o w) o.
Proof.
  unfold loadEvents. destruct (window w) as [win |]; [| apply same_session_refl].
  destruct (Storage.history _) as [[| evs] |]; repeat split.
Qed.

Lemma loadAttributionData_session o w : same_session (loadAttributionData o w).1 o.
Proof.
  unfold loadAttributionData. destruct (window w) as [win |]; [| apply same_session_refl].
  destruct (Storage.attribution _) as [[| a] |]; try apply same_session_refl.
  destruct (has_timestamp a); [destruct (Qle_bool _ _) |]; repeat split.
Qed.

Lemma addEvent_session p e o w : same_session (addEvent p e o w).1 o.
Proof. rewrite addEvent_this_any. apply set_events_session. Qed.

Lemma trackCurrentPageView_A_session o w :
  same_session (trackCurrentPageView_A o w).1 o.
Proof.
  unfold trackCurrentPageView_A.
  destruct (window w) as [win |]; [| apply same_session_refl].
  destruct (String.eqb _ _); [apply same_session_refl |].
  match goal with
  | |- context [getAttributionForPageView win ?x w] =>
    assert (same_session (getAttributionForPageView win x w).1.2 o) as H;
    [ unfold getAttributionForPageView;
      destruct (hasNewAttributionData _); [repeat split |];
      destruct (AttributionData.has_keys _); repeat split
    | destruct (getAttributionForPageView win x w) as [[a o2] w2] ]
  end.
  destruct (generateUUID w2) as [eventId w3].
  eapply same_session_trans; [apply addEvent_session |].
  eapply same_session_trans; [| exact H]. repeat split.
Qed.

Lemma trackCurrentPageView_B_session o w :
  same_session (trackCurrentPageView_B o w).1 o.
Proof.
  unfold trackCurrentPageView_B.
  destruct (window w) as [win |]; [| apply same_session_refl].
  destruct (isNewAttributionSource _ _ _); [| apply same_session_refl].
  destruct (generateUUID w) as [eventId w1].
  eapply same_session_trans; [apply addEvent_session | repeat split].
Qed.

Lemma trackPageView_session p o w : same_session (trackPageView p o w).1 o.
Proof.
  unfold trackPageView. destruct (window w) as [win |]; [| apply same_session_refl].
  destruct p; [apply trackCurrentPageView_A_session |].
  eapply same_session_trans; [apply trackCurrentPageView_B_session | repeat split].
Qed.

Lemma on_navigation_session p o w : same_session (on_navigation p o w).1 o.
Proof.
  unfold on_navigation. destruct p; [apply trackPageView_session |].
  destruct (window w) as [win |]; [| apply same_session_refl].
  destruct (negb _); [| apply same_session_refl].
  eapply same_session_trans; [apply trackCurrentPageView_B_session | repeat split].
Qed.

(** ** The device identifier and its cookie *)

Lemma device_cookie_loadAttributionData o w :
  device_cookie (loadAttributionData o w).2 = device_cookie w
  /\ drawn (loadAttributionData o w).2 = drawn w.
Proof.
  unfold loadAttributionData. destruct (window w) as [win |] eqn:Hw; [| done].
  destruct (Storage.attribution _) as [[| a] |]; try done.
  destruct (has_timestamp a); [destruct (Qle_bool _ _) |]; try done.
  unfold device_cookie, with_storage. rewrite Hw. done.
Qed.

Lemma generateUUID_assign_cookie w :
  assign_cookie (generateUUID w).2 = assign_cookie w.
Proof. rewrite generateUUID_world. reflexivity. Qed.

(** What the jar holds after [getOrCreateUUID]: the cookie it found, or the
    browser's answer to the write of the new identifier. *)
Lemma getOrCreateUUID_jar (options : Options.t) (w : World) :
  is_Some (window w) ->
  device_cookie (getOrCreateUUID options w).2
  = if truthy_opt (device_cookie w) then device_cookie w
    else assign_cookie w (getOrCreateUUID options w).1
           (Options.cookieExpireDays options) (domain_attribute options).
Proof.
  intros [win Hw]. unfold getOrCreateUUID, device_cookie. rewrite Hw.
  cbn [mbind option_bind].
  pose proof (generateUUID_world w) as Hg.
  destruct (generateUUID w) as [u w1]. cbn [fst snd] in Hg.
  destruct (truthy_opt (Window.cookie win)) eqn:Hc; cbn [fst snd].
  - rewrite Hw. reflexivity.
  - rewrite Hg. unfold setCookie, domain_attribute. rewrite truthy_eqb.
    cbn [window set_drawn]. rewrite Hw.
    destruct (String.eqb (Options.cookieDomain options) ""); reflexivity.
Qed.

Lemma getOrCreateUUID_cookie (options : Options.t) (w : World) :
  is_Some (window w) ->
  keeps_device_cookie options w ->
  device_cookie (getOrCreateUUID options w).2 = Some (getOrCreateUUID options w).1.
Proof.
  intros Hw Hkeeps. rewrite (getOrCreateUUID_jar options w Hw).
  destruct (truthy_opt (device_cookie w)) eqn:Hc; [| apply Hkeeps].
  destruct Hw as [win Hw]. unfold getOrCreateUUID, device_cookie in *.
  rewrite Hw in *. cbn [mbind option_bind] in *. rewrite Hc.
  destruct (Window.cookie win); [reflexivity | discriminate].
Qed.

Lemma getOrCreateUUID_from_cookie (options : Options.t) (w : World) (u : string) :
  device_cookie w = Some u -> u <> "" -> getOrCreateUUID options w = (u, w).
Proof.
  unfold device_cookie, getOrCreateUUID. intros Hc Hu.
  destruct (window w) as [win |]; [| discriminate]. simpl in Hc. rewrite Hc.
  cbn [truthy_opt default]. rewrite (proj2 (truthy_nonempty u) Hu). reflexivity.
Qed.

Lemma constructor_unfold p options w :
  constructor p options w =
  let o :=
    this.mk options [] false (getOrCreateUUID options w).1 None false None "" None
            AttributionData.empty in
  match p with
  | PolicyA => loadAttributionData o (getOrCreateUUID options w).2
  | PolicyB => (o, (getOrCreateUUID options w).2)
  end.
Proof. unfold constructor. destruct (getOrCreateUUID options w). reflexivity. Qed.

Lemma constructor_uuid p options w :
  this.uuid (constructor p options w).1 = (getOrCreateUUID options w).1.
Proof.
  rewrite constructor_unfold. cbv zeta. destruct p; [| reflexivity].
  rewrite loadAttributionData_uuid. reflexivity.
Qed.

Lemma constructor_cookie p options w :
  device_cookie (constructor p options w).2
  = device_cookie (getOrCreateUUID options w).2
  /\ drawn (constructor p options w).2 = drawn (getOrCreateUUID options w).2.
Proof.
  rewrite constructor_unfold. cbv zeta. destruct p; [| done].
  apply device_cookie_loadAttributionData.
Qed.

(** X5: in a browser that keeps the device cookie it is given, a tracker
    leaves its identifier in the cookie when it is constructed, and every
    tracker constructed later while the cookie holds that value takes the
    identifier from it, without drawing a random number and without writing
    the cookie.  In any browser, a tracker that finds no identifier in the
    jar leaves there what the browser answers to its write. *)
Theorem constructor_keeps_device (p p' : Policy) (options options' : Options.t)
  (w w' : World) :
  is_Some (window w) ->
  keeps_device_cookie options w ->
  device_cookie w' = device_cookie (constructor p options w).2 ->
  device_cookie (constructor p options w).2
  = Some (this.uuid (constructor p options w).1)
  /\ this.uuid (constructor p' options' w').1 = this.uuid (constructor p options w).1
  /\ drawn (constructor p' options' w').2 = drawn w'
  /\ device_cookie (constructor p' options' w').2 = device_cookie w'.
Proof.
  intros Hw Hkeeps Hsame.
  assert (device_cookie (constructor p options w).2
          = Some (this.uuid (constructor p options w).1)) as Hfirst.
  { rewrite (proj1 (constructor_cookie p options w)), constructor_uuid.
    apply getOrCreateUUID_cookie; assumption. }
  split; [exact Hfirst |].
  rewrite Hfirst in Hsame.
  pose proof (constructor_uuid_nonempty p options w) as Hne.
  pose proof (getOrCreateUUID_from_cookie options' w' _ Hsame Hne) as Hsecond.
  rewrite constructor_uuid, (proj1 (constructor_cookie p' options' w')),
    (proj2 (constructor_cookie p' options' w')), Hsecond.
  simpl. auto.
Qed.

Lemma constructor_keeps_device_witness :
  this.uuid
    (constructor PolicyB (Options.defaults ".example.com")
       (constructor PolicyA (Options.defaults ".example.com") first_visit_world).2).1
  = this.uuid
      (constructor PolicyA (Options.defaults ".example.com") first_visit_world).1.
Proof.
  refine (proj1 (proj2
    (constructor_keeps_device PolicyA PolicyB (Options.defaults ".example.com")
       (Options.defaults ".example.com") first_visit_world
       (constructor PolicyA (Options.defaults ".example.com") first_visit_world).2
       _ _ eq_refl))).
  - eexists. reflexivity.
  - intros value. reflexivity.
Defined.

(** Where the browser does not keep the cookie - here it refuses the domain
    [.co.uk] - the next tracker finds no identifier and makes another one. *)
Example refused_cookie_new_device :
  let first := constructor PolicyB (Options.defaults ".co.uk") public_suffix_world in
  let second := constructor PolicyB (Options.defaults ".co.uk") first.2 in
  device_cookie first.2 = None
  /\ this.uuid second.1 <> this.uuid first.1.
Proof. vm_compute. split; [reflexivity | discriminate]. Qed.

(** ** Initialisation ([init]) *)

Lemma init_isInitialized p b u o w : this.isInitialized (init p b u o w).1 = true.
Proof.
  unfold init. destruct (this.isInitialized o) eqn:Hi; [exact Hi |]. cbv zeta.
  match goal with
  | |- context [let '(o4, w4) := ?x in _] => destruct x as [o4 w4]
  end.
  reflexivity.
Qed.

(** X6: [init] runs once: after a call of [init], a second call, with
    whatever arguments and in whatever environment, changes neither the
    object nor the environment. *)
Theorem init_once (p : Policy) (b b' : option bool) (u u' : option string)
  (o : this.t) (w w' : World) :
  init p b' u' (init p b u o w).1 w' = ((init p b u o w).1, w').
Proof.
  pose proof (init_isInitialized p b u o w) as Hi.
  generalize dependent (init p b u o w).1. intros o1 Hi.
  unfold init. rewrite Hi. reflexivity.
Qed.

(** The object [init] tracks the first page view from. *)
Lemma init_session p b u o w :
  this.isInitialized o = false ->
  exists start,
    same_session (init p b u o w).1 start
    /\ this.options start = this.options o
    /\ this.uuid start = this.uuid o
    /\ this.oldUuid start = this.oldUuid o
    /\ (truthy_opt u = true ->
        this.derivUserId start = u
        /\ this.isLoggedIn start = default (this.isLoggedIn o) b)
    /\ (truthy_opt u = false ->
        forall stored, stored_user_id w = Some stored -> stored <> "" ->
        this.derivUserId start = Some stored /\ this.isLoggedIn start = true)
    /\ (truthy_opt u = false ->
        (forall stored, stored_user_id w = Some stored -> stored = "") ->
        this.derivUserId start = this.derivUserId o
        /\ this.isLoggedIn start = default (this.isLoggedIn o) b).
Proof.
  intros Hi. unfold init. rewrite Hi. cbv zeta.
  match goal with
  | |- context [loadEvents ?x w] => set (o2 := x)
  end.
  exists o2. split.
  - pose proof (loadEvents_session o2 w) as Hload.
    generalize dependent (loadEvents o2 w). intros o3 Hload.
    destruct p.
    + pose proof (loadAttributionData_session o3 w) as Hla.
      destruct (loadAttributionData o3 w) as [oa wa]. simpl in Hla.
      pose proof (trackCurrentPageView_A_session oa wa) as Ht.
      destruct (trackCurrentPageView_A oa wa) as [o4 w4]. simpl in *.
      eapply same_session_trans; [| exact Hload].
      eapply same_session_trans; [| exact Hla].
      eapply same_session_trans; [| exact Ht]. repeat split.
    + destruct (Options.autoTrack _); [| simpl; eapply same_session_trans;
                                          [| exact Hload]; repeat split].
      destruct (window w) as [win |];
        [| simpl; eapply same_session_trans; [| exact Hload]; repeat split].
      match goal with
      | |- context [trackCurrentPageView_B ?x w] =>
        pose proof (trackCurrentPageView_B_session x w) as Ht;
        destruct (trackCurrentPageView_B x w) as [o4 w4]
      end.
      simpl in *.
      eapply same_session_trans; [| exact Hload].
      eapply same_session_trans; [| eapply same_session_trans; [exact Ht |]];
        repeat split.
  - subst o2. unfold stored_user_id.
    destruct (truthy_opt u) eqn:Hu.
    + do 3 (split; [destruct b; reflexivity |]).
      split; [intros _; split; [reflexivity | destruct b; reflexivity] |].
      split; intros; discriminate.
    + destruct (storage w ≫= Storage.user_id) as [s |] eqn:Hs;
        [destruct (truthy s) eqn:Hts |];
        do 3 (split; [destruct b; reflexivity |]);
        (split; [intros; discriminate |]); split.
      * intros _ st [= <-] _. split; reflexivity.
      * intros _ H. specialize (H s eq_refl). subst s. discriminate Hts.
      * intros _ st [= <-] Hne. apply truthy_nonempty in Hne. congruence.
      * intros _ _. split; destruct b; reflexivity.
      * intros _ st [=].
      * intros _ _. split; destruct b; reflexivity.
Qed.

(** X7: while storage holds a user id that is not empty, [init] called
    without a user id takes that id and marks the tracker as logged in,
    whatever login state the call passes; called with a user id it takes
    that id, and the login state is the one passed, or the one the tracker
    had. *)
Theorem init_restores_user (p : Policy) (b : option bool) (u : option string)
  (o : this.t) (w : World) (stored : string) :
  this.isInitialized o = false ->
  stored_user_id w = Some stored ->
  stored <> "" ->
  let o' := (init p b u o w).1 in
  (truthy_opt u = false ->
   this.derivUserId o' = Some stored /\ this.isLoggedIn o' = true)
  /\ (truthy_opt u = true ->
      this.derivUserId o' = u
      /\ this.isLoggedIn o' = default (this.isLoggedIn o) b).
Proof.
  intros Hi Hs Hne. cbv zeta.
  destruct (init_session p b u o w Hi)
    as (start & (_ & _ & _ & Hid & Hlog) & _ & _ & _ & Hgiven & Hstored & _).
  rewrite Hid, Hlog. split.
  - intros Hu. apply (Hstored Hu stored); assumption.
  - intros Hu. apply Hgiven. assumption.
Qed.

Lemma init_restores_user_witness :
  this.isLoggedIn
    (init PolicyB (Some false) None manual_tracker returning_world).1 = true
  /\ this.derivUserId
       (init PolicyB (Some false) None manual_tracker returning_world).1
     = Some "user-42".
Proof.
  destruct (init_restores_user PolicyB (Some false) None manual_tracker
              returning_world "user-42" eq_refl eq_refl) as [H _].
  - discriminate.
  - destruct (H eq_refl) as [Hid Hlog]. split; [exact Hlog | exact Hid].
Defined.

(** ** The user id in storage *)

Lemma surroundings_getOrCreateUUID options w :
  surroundings (getOrCreateUUID options w).2 = surroundings w.
Proof.
  unfold getOrCreateUUID.
  pose proof (generateUUID_world w) as Hg.
  destruct (generateUUID w) as [u w1]. cbn [fst snd] in Hg.
  destruct (window w) as [win |] eqn:Hw; [| rewrite Hg; reflexivity].
  destruct (truthy_opt (Window.cookie win)); [reflexivity |].
  rewrite Hg. unfold setCookie. cbn [window set_drawn]. rewrite Hw.
  unfold surroundings, stored_user_id, stored_old_uuid, storage. simpl.
  rewrite Hw. reflexivity.
Qed.

Lemma surroundings_constructor p options w :
  surroundings (constructor p options w).2 = surroundings w.
Proof.
  rewrite constructor_unfold. cbv zeta.
  destruct p; [rewrite surroundings_loadAttributionData |];
    apply surroundings_getOrCreateUUID.
Qed.

Lemma constructor_isInitialized p options w :
  this.isInitialized (constructor p options w).1 = false.
Proof.
  rewrite constructor_unfold. cbv zeta. destruct p; [| reflexivity].
  unfold loadAttributionData. destruct (window _) as [win |]; [| reflexivity].
  destruct (Storage.attribution _) as [[| a] |]; try reflexivity.
  destruct (has_timestamp a); [destruct (Qle_bool _ _) |]; reflexivity.
Qed.

Lemma stored_user_id_surroundings w w' :
  surroundings w' = surroundings w -> stored_user_id w' = stored_user_id w.
Proof. unfold surroundings. intros H. congruence. Qed.

Lemma stored_old_uuid_surroundings w w' :
  surroundings w' = surroundings w -> stored_old_uuid w' = stored_old_uuid w.
Proof. unfold surroundings. intros H. congruence. Qed.

Lemma stored_user_id_set v w :
  is_Some (window w) ->
  stored_user_id (with_storage (Storage.set_user_id v) w) = v.
Proof.
  intros [win Hw]. unfold stored_user_id, storage, with_storage. rewrite Hw.
  reflexivity.
Qed.

Lemma stored_old_uuid_set v w :
  is_Some (window w) ->
  stored_old_uuid (with_storage (Storage.set_old_uuid v) w) = v.
Proof.
  intros [win Hw]. unfold stored_old_uuid, storage, with_storage. rewrite Hw.
  reflexivity.
Qed.

Lemma accepted_not_refused u w :
  setItem_user_id w u = Stored -> ~ user_id_refused w u.
Proof. intros H [_ Hr]. contradiction. Qed.

Lemma stored_user_id_recordLogin p u o w :
  is_Some (window w) ->
  setItem_user_id w u = Stored ->
  (recordLogin p u o w).2 = Return tt
  /\ stored_user_id (recordLogin p u o w).1.2 = Some u.
Proof.
  intros Hw Hs. apply accepted_not_refused in Hs.
  split; [rewrite recordLogin_completion, (store_user_id_accepted _ _ Hs); reflexivity |].
  unfold recordLogin. cbv zeta. rewrite (store_user_id_accepted _ _ Hs).
  match goal with
  | |- context [update_current_event p true ?x ?y] =>
    pose proof (surroundings_update_current_event p true x y) as H;
    destruct (update_current_event p true x y) as [o2 w2]
  end.
  cbn [fst snd] in *. apply stored_user_id_surroundings in H.
  rewrite stored_user_id_set in H by assumption.
  destruct (Options.resetOnLogin _); [| exact H].
  rewrite (stored_user_id_surroundings _ _ (surroundings_clearEvents o2 w2)).
  exact H.
Qed.

(** ** [updateLoginState] *)

Lemma store_login_id_throws u w :
  store_login_id u w = Throw <-> login_id_refused w u.
Proof.
  unfold store_login_id, login_id_refused. destruct u as [v |].
  - destruct (truthy v) eqn:Hv.
    + rewrite store_user_id_throws. apply truthy_nonempty in Hv.
      split; [eauto | intros (? & [= <-] & _ & H); exact H].
    + split; [discriminate | intros (? & [= <-] & Hne & _)].
      apply truthy_nonempty in Hne. congruence.
  - split; [discriminate | intros (? & ? & _); discriminate].
Qed.

Lemma store_login_id_Return u w w1 :
  store_login_id u w = Return w1 ->
  w1 = (if truthy_opt u
        then with_storage (Storage.set_user_id u) w
        else w).
Proof.
  unfold store_login_id. destruct u as [v |]; cbn [truthy_opt]; [| congruence].
  destruct (truthy v); [apply store_user_id_Return | congruence].
Qed.

(** [updateLoginState] by the end of its write. *)
Lemma updateLoginState_unfold p b u o w :
  updateLoginState p b u o w =
  let o2 :=
    if truthy_opt u
    then this.set_derivUserId u (this.set_isLoggedIn b o)
    else this.set_isLoggedIn b o in
  match store_login_id u w with
  | Throw => (o2, w, Throw)
  | Return w2 =>
    (match p with
     | PolicyA =>
       if negb (Bool.eqb (this.isLoggedIn o) b)
       then update_current_event PolicyA b o2 w2
       else (o2, w2)
     | PolicyB => update_current_event PolicyB b o2 w2
     end,
     Return tt)
  end.
Proof.
  unfold updateLoginState, store_login_id. cbv zeta.
  destruct u as [v |]; cbn [truthy_opt]; [destruct (truthy v) |]; reflexivity.
Qed.

(** What [updateLoginState] leaves. *)
Lemma updateLoginState_state p b u o w :
  (updateLoginState p b u o w).1 =
  match store_login_id u w with
  | Throw =>
    (if truthy_opt u
     then this.set_derivUserId u (this.set_isLoggedIn b o)
     else this.set_isLoggedIn b o, w)
  | Return _ =>
    let previousState := this.isLoggedIn o in
    let o1 := this.set_isLoggedIn b o in
    let '(o2, w2) :=
      match u with
      | Some v =>
        if truthy v
        then (this.set_derivUserId (Some v) o1,
              with_storage (Storage.set_user_id (Some v)) w)
        else (o1, w)
      | None => (o1, w)
      end in
    match p with
    | PolicyA =>
      if negb (Bool.eqb previousState b)
      then update_current_event PolicyA b o2 w2
      else (o2, w2)
    | PolicyB => update_current_event PolicyB b o2 w2
    end
  end.
Proof.
  rewrite updateLoginState_unfold. cbv zeta.
  destruct (store_login_id u w) as [w2 |] eqn:Hs; [| reflexivity].
  apply store_login_id_Return in Hs. subst w2.
  destruct u as [v |]; cbn [truthy_opt]; [destruct (truthy v) |]; reflexivity.
Qed.

(** The object after [updateLoginState]: the login state and the user id
    are set; the log is touched only if the write has not thrown. *)
Lemma updateLoginState_this p b u o w :
  (updateLoginState p b u o w).1.1 =
  this.set_events
    (match store_login_id u w with
     | Throw => this.events o
     | Return _ =>
       match p with
       | PolicyA =>
         if Bool.eqb (this.isLoggedIn o) b then this.events o
         else log_after_flag b w o
       | PolicyB => log_after_flag b w o
       end
     end)
    (if truthy_opt u
     then this.set_derivUserId u (this.set_isLoggedIn b o)
     else this.set_isLoggedIn b o).
Proof.
  rewrite updateLoginState_unfold. cbv zeta.
  assert (forall x y,
            this.events x = this.events o ->
            this.currentPageEventId x = this.currentPageEventId o ->
            (exists f, y = with_storage f w) \/ y = w ->
            (update_current_event p b x y).1
            = this.set_events (log_after_flag b w o) x) as Hstep.
  { intros x y He Hc Hy. rewrite update_current_event_this.
    f_equal. unfold log_after_flag, flag_current, current_index.
    rewrite He, Hc. destruct Hy as [[f ->] | ->];
      rewrite ?persisted_log_with_storage; reflexivity. }
  destruct (store_login_id u w) as [w2 |] eqn:Hs;
    [| destruct (truthy_opt u), o; reflexivity].
  apply store_login_id_Return in Hs.
  assert ((exists f, w2 = with_storage f w) \/ w2 = w) as Hw2
    by (subst w2; destruct (truthy_opt u); eauto).
  clear Hs.
  destruct (truthy_opt u);
    destruct p; try destruct (Bool.eqb_spec (this.isLoggedIn o) b) as [Heq | Hne];
    cbn [negb fst];
    try (rewrite Hstep by (reflexivity || assumption); reflexivity);
    try (destruct o; reflexivity).
Qed.

(** How [updateLoginState] ends. *)
Lemma updateLoginState_completion p b u o w :
  (updateLoginState p b u o w).2
  = match store_login_id u w with Throw => Throw | Return _ => Return tt end.
Proof.
  rewrite updateLoginState_unfold. cbv zeta.
  destruct (store_login_id u w); reflexivity.
Qed.

(** A call throws exactly when it writes an identity key that the storage
    refuses. *)
Lemma completion_throws p c o w :
  completion p c o w = Throw <->
  match c with
  | UpdateLoginState _ userId => login_id_refused w userId
  | RecordLogin derivUserId => user_id_refused w derivUserId
  | RecordSignup derivUserId =>
    user_id_refused w derivUserId
    \/ (this.uuid o <> "" /\ old_uuid_refused w (this.uuid o))
  | _ => False
  end.
Proof.
  destruct c; cbn [completion]; try (split; [discriminate | contradiction]).
  - rewrite updateLoginState_completion, <- store_login_id_throws.
    destruct (store_login_id userId w); split; congruence.
  - rewrite recordLogin_completion, <- store_user_id_throws.
    destruct (store_user_id derivUserId w); split; congruence.
  - rewrite recordSignup_completion. unfold store_identity.
    rewrite <- store_user_id_throws.
    destruct (store_user_id derivUserId w) as [w0 |] eqn:Hs.
    + apply store_user_id_Return in Hs. subst w0.
      destruct (truthy (this.uuid o)) eqn:Ht.
      * rewrite <- (old_uuid_refused_with_storage
                      (Storage.set_user_id (Some derivUserId))),
          <- store_old_uuid_throws.
        apply truthy_nonempty in Ht.
        destruct (store_old_uuid _ _); split;
          try discriminate; try tauto; intros [? | [_ ?]]; congruence.
      * split; [discriminate | intros [? | [Hne _]]; [discriminate |]].
        apply truthy_nonempty in Hne. congruence.
    + split; auto.
Qed.

Lemma stored_user_id_updateLoginState p b u o w :
  stored_user_id (updateLoginState p b u o w).1.2 =
  match store_login_id u w with
  | Throw => stored_user_id w
  | Return _ =>
    if truthy_opt u && bool_decide (is_Some (window w)) then u else stored_user_id w
  end.
Proof.
  rewrite updateLoginState_unfold. cbv zeta.
  assert (forall x y, stored_user_id (update_current_event p b x y).2 = stored_user_id y)
    as Hstep
    by (intros x y; apply stored_user_id_surroundings,
          surroundings_update_current_event).
  destruct (store_login_id u w) as [w2 |] eqn:Hs; [| reflexivity].
  apply store_login_id_Return in Hs.
  assert (stored_user_id w2
          = if truthy_opt u && bool_decide (is_Some (window w)) then u
            else stored_user_id w) as Hw.
  { subst w2. destruct (truthy_opt u); [| reflexivity]. simpl.
    destruct (window w) as [win |] eqn:E.
    - rewrite bool_decide_eq_true_2 by eauto. apply stored_user_id_set. eauto.
    - rewrite bool_decide_eq_false_2 by (intros [? ?]; discriminate).
      unfold with_storage. rewrite E. reflexivity. }
  destruct p; try destruct (negb _); cbn [fst snd]; rewrite ?Hstep; exact Hw.
Qed.

(** X8: [updateLoginState] sets the login state and takes a user id that is
    not empty into the object; an empty or missing one is ignored.  Where
    there is a window it then writes that user id to storage.  If the
    storage refuses it, the call throws there: the log, the storage and the
    outbox are as they were.  Otherwise the call returns; it has set the flag
    of the current event - under [PolicyA] only if the login state changes,
    under [PolicyB] always - and never resets the log, whatever the reset
    options say: without a quota failure the log keeps its length. *)
Theorem updateLoginState_effect (p : Policy) (b : bool) (u : option string)
  (o : this.t) (w : World) :
  let after := updateLoginState p b u o w in
  this.isLoggedIn after.1.1 = b
  /\ this.derivUserId after.1.1 = (if truthy_opt u then u else this.derivUserId o)
  /\ (login_id_refused w u ->
      after.2 = Throw
      /\ this.events after.1.1 = this.events o
      /\ after.1.2 = w)
  /\ (~ login_id_refused w u ->
      after.2 = Return tt
      /\ this.events after.1.1
         = match p with
           | PolicyA =>
             if Bool.eqb (this.isLoggedIn o) b then this.events o
             else flagged_log b w o
           | PolicyB => flagged_log b w o
           end
      /\ (quota_free w -> length (this.events after.1.1) = length (this.events o))
      /\ stored_user_id after.1.2
         = (if truthy_opt u && bool_decide (is_Some (window w)) then u
            else stored_user_id w)).
Proof.
  cbv zeta.
  rewrite updateLoginState_completion, updateLoginState_this,
    stored_user_id_updateLoginState.
  split; [destruct (truthy_opt u); reflexivity |].
  split; [destruct (truthy_opt u); reflexivity |].
  split.
  - intros Hr. apply store_login_id_throws in Hr.
    rewrite updateLoginState_unfold, Hr. cbv zeta. repeat split.
  - intros Hr.
    destruct (store_login_id u w) as [w2 |] eqn:Hs;
      [| apply store_login_id_throws in Hs; contradiction].
    cbn [this.events this.set_events]. rewrite <- log_after_flag_flagged.
    split; [reflexivity |]. split; [reflexivity |]. split; [| reflexivity].
    intros Hfree.
    assert (length (log_after_flag b w o) = length (this.events o)) as Hlen.
    { rewrite quota_free_log_after_flag by assumption. unfold flag_current.
      destruct (current_index o); [apply length_alter | reflexivity]. }
    destruct p; [destruct (Bool.eqb _ _) |]; auto.
Qed.

Lemma updateLoginState_effect_witness :
  let after :=
    updateLoginState PolicyB true (Some "user-42") keeping_tracker
      locked_identity_world in
  after.2 = Throw
  /\ this.isLoggedIn after.1.1 = true
  /\ this.derivUserId after.1.1 = Some "user-42"
  /\ this.events after.1.1 = this.events keeping_tracker
  /\ stored_user_id after.1.2 = None.
Proof.
  destruct (updateLoginState_effect PolicyB true (Some "user-42") keeping_tracker
              locked_identity_world) as (Hin & Hid & Hrefused & _).
  destruct Hrefused as (Hend & Hlog & Hworld).
  - exists "user-42". split; [reflexivity |]. split; [discriminate |].
    split; [eexists; reflexivity | discriminate].
  - cbv zeta. rewrite Hworld.
    split; [exact Hend |]. split; [exact Hin |]. split; [exact Hid |].
    split; [exact Hlog | reflexivity].
Defined.

(** ** A logout is not persisted *)

(** X9: in a browser whose storage takes the user id, after [recordLogin]
    with a user id, [updateLoginState(false)] logs the tracker out but leaves
    the user id in the object and in storage; a tracker that is constructed
    afterwards and initialised without a user id comes up logged in with
    that id, whatever login state [init] is given. *)
Theorem logout_is_not_persisted (p : Policy) (u : string) (o : this.t) (w : World)
  (options : Options.t) (b : option bool) :
  is_Some (window w) ->
  setItem_user_id w u = Stored ->
  u <> "" ->
  let logged_in := recordLogin p u o w in
  let logged_out := updateLoginState p false None logged_in.1.1 logged_in.1.2 in
  let reloaded := constructor p options logged_out.1.2 in
  let started := (init p b None reloaded.1 reloaded.2).1 in
  logged_in.2 = Return tt
  /\ logged_out.2 = Return tt
  /\ this.isLoggedIn logged_out.1.1 = false
  /\ this.derivUserId logged_out.1.1 = Some u
  /\ stored_user_id logged_out.1.2 = Some u
  /\ this.isLoggedIn started = true
  /\ this.derivUserId started = Some u.
Proof.
  intros Hw Hs Hu. cbv zeta.
  destruct (stored_user_id_recordLogin p u o w Hw Hs) as [Hret Hin].
  split; [exact Hret |].
  split; [rewrite updateLoginState_completion; reflexivity |].
  assert (stored_user_id
            (updateLoginState p false None (recordLogin p u o w).1.1
               (recordLogin p u o w).1.2).1.2 = Some u) as Hstored.
  { rewrite stored_user_id_updateLoginState. cbn [truthy_opt andb store_login_id].
    exact Hin. }
  assert (this.isLoggedIn
            (updateLoginState p false None (recordLogin p u o w).1.1
               (recordLogin p u o w).1.2).1.1 = false
          /\ this.derivUserId
               (updateLoginState p false None (recordLogin p u o w).1.1
                  (recordLogin p u o w).1.2).1.1 = Some u) as [Hout Hid].
  { rewrite updateLoginState_this. cbn [truthy_opt].
    rewrite recordLogin_this. split; reflexivity. }
  split; [exact Hout |]. split; [exact Hid |]. split; [exact Hstored |].
  match goal with
  | |- context [constructor p options ?x] => set (w2 := x) in *
  end.
  destruct (init_session p b None (constructor p options w2).1
              (constructor p options w2).2 (constructor_isInitialized p options w2))
    as (start & (_ & _ & _ & Hsid & Hlog) & _ & _ & _ & _ & Hrestore & _).
  rewrite Hsid, Hlog.
  destruct (Hrestore eq_refl u) as [H1 H2]; [| exact Hu | auto].
  rewrite (stored_user_id_surroundings _ _ (surroundings_constructor p options w2)).
  exact Hstored.
Qed.

Lemma logout_is_not_persisted_witness :
  let logged_in := recordLogin PolicyA "user-42" (sample_tracker []) sample_world in
  let logged_out :=
    updateLoginState PolicyA false None logged_in.1.1 logged_in.1.2 in
  let reloaded :=
    constructor PolicyA (Options.defaults ".example.com") logged_out.1.2 in
  this.isLoggedIn logged_out.1.1 = false
  /\ this.isLoggedIn (init PolicyA (Some false) None reloaded.1 reloaded.2).1 = true.
Proof.
  destruct (logout_is_not_persisted PolicyA "user-42" (sample_tracker []) sample_world
              (Options.defaults ".example.com") (Some false))
    as (_ & _ & Hout & _ & _ & Hin & _).
  - eexists. reflexivity.
  - reflexivity.
  - discriminate.
  - split; [exact Hout | exact Hin].
Defined.

(** ** The prior device identifier in storage *)

Lemma constructor_oldUuid p options w : this.oldUuid (constructor p options w).1 = None.
Proof.
  rewrite constructor_unfold. cbv zeta. destruct p; [| reflexivity].
  match goal with
  | |- context [loadAttributionData ?x ?y] =>
    destruct (loadAttributionData_device x y) as [_ H]
  end.
  exact H.
Qed.

Lemma stored_old_uuid_recordSignup p u o w :
  is_Some (window w) ->
  this.uuid o <> "" ->
  setItem_user_id w u = Stored ->
  setItem_old_uuid w (this.uuid o) = Stored ->
  (recordSignup p u o w).2 = Return tt
  /\ stored_old_uuid (recordSignup p u o w).1.2 = Some (this.uuid o).
Proof.
  intros Hw Hne Hu Hv. apply accepted_not_refused in Hu.
  apply truthy_nonempty in Hne.
  assert (store_old_uuid (this.uuid o)
            (with_storage (Storage.set_user_id (Some u)) w)
          = Return (with_storage (Storage.set_old_uuid (Some (this.uuid o)))
                      (with_storage (Storage.set_user_id (Some u)) w))) as Hstore.
  { unfold store_old_uuid.
    destruct (window (with_storage _ w)) eqn:E.
    - rewrite with_storage_setItem_old_uuid, Hv. reflexivity.
    - apply (with_storage_window_is_Some (Storage.set_user_id (Some u))) in Hw.
      rewrite E in Hw. destruct Hw; discriminate. }
  split.
  - rewrite recordSignup_completion. unfold store_identity.
    rewrite (store_user_id_accepted _ _ Hu), Hne, Hstore. reflexivity.
  - unfold recordSignup. cbv zeta. rewrite (store_user_id_accepted _ _ Hu).
    cbn [this.oldUuid this.set_derivUserId this.set_isLoggedIn this.set_oldUuid].
    rewrite Hne, Hstore.
    match goal with
    | |- context [update_current_event p true ?x ?y] =>
      pose proof (surroundings_update_current_event p true x y) as H;
      destruct (update_current_event p true x y) as [o2 w2]
    end.
    cbn [fst snd] in *. apply stored_old_uuid_surroundings in H.
    rewrite stored_old_uuid_set in H
      by (apply with_storage_window_is_Some; assumption).
    destruct (Options.resetOnSignup _); [| exact H].
    rewrite (stored_old_uuid_surroundings _ _ (surroundings_clearEvents o2 w2)).
    exact H.
Qed.

(** X10: in a browser whose storage takes the two identity keys,
    [recordSignup] writes the device identifier under the storage key of the
    prior identifier, but no method reads that key: a tracker constructed
    later, whatever the storage holds, exports no prior identifier until
    [recordSignup] is called on it. *)
Theorem old_uuid_is_never_read_back (p : Policy) (u : string) (o : this.t)
  (w w' : World) (options : Options.t) (later : list (Call * World)) :
  is_Some (window w) ->
  setItem_user_id w u = Stored ->
  setItem_old_uuid w (this.uuid o) = Stored ->
  reachable p o ->
  Forall (fun cw => forall u', cw.1 <> RecordSignup u') later ->
  (recordSignup p u o w).2 = Return tt
  /\ stored_old_uuid (recordSignup p u o w).1.2 = Some (this.uuid o)
  /\ Journey.old_uuid
       (exportJourney (calls p later (constructor p options w').1)) = None.
Proof.
  intros Hw Hu Hv Hreach Hlater.
  destruct (stored_old_uuid_recordSignup p u o w Hw
              (reachable_uuid_nonempty p o Hreach) Hu Hv) as [Hret Hstored].
  split; [exact Hret |]. split; [exact Hstored |].
  destruct (calls_device p later (constructor p options w').1 Hlater) as [_ Hold].
  unfold exportJourney. cbn [Journey.old_uuid].
  rewrite Hold, constructor_oldUuid. reflexivity.
Qed.

Lemma old_uuid_is_never_read_back_witness :
  let w' := (recordSignup PolicyA "user-42" signed_up_before sample_world).1.2 in
  stored_old_uuid w' = Some "device-1"
  /\ Journey.old_uuid
       (exportJourney
          (calls PolicyA [(Init None None, w'); (TrackPageView, checkout_world)]
             (constructor PolicyA (Options.defaults ".example.com") w').1))
     = None.
Proof.
  refine (proj2
    (old_uuid_is_never_read_back PolicyA "user-42" signed_up_before sample_world
       (recordSignup PolicyA "user-42" signed_up_before sample_world).1.2
       (Options.defaults ".example.com")
       [(Init None None, _); (TrackPageView, checkout_world)]
       _ eq_refl eq_refl signed_up_before_reachable _)).
  - eexists. reflexivity.
  - repeat constructor; discriminate.
Defined.

(** ** Edge of the bound: a maximum that is not positive *)

(** X11: with [maxEvents <= 0] every append leaves the log empty; [PolicyA]
    posts the event all the same. *)
Theorem addEvent_nonpositive_max (p : Policy) (e : PageViewEvent.t) (o : this.t)
  (w : World) :
  (Options.maxEvents (this.options o) <= 0)%Z ->
  this.events (addEvent p e o w).1 = []
  /\ posted (addEvent PolicyA e o w).2 = Some e.
Proof.
  intros Hmax. split.
  - rewrite addEvent_this_any. cbn [this.events]. unfold trimmed.
    rewrite length_app. cbn [length].
    destruct (Z.ltb_spec (Options.maxEvents (this.options o))
                (Z.of_nat (length (this.events o) + 1))); [| lia].
    assert (slice (Z.of_nat (length (this.events o) + 1)
                   - Options.maxEvents (this.options o))
                  (this.events o ++ [e]) = []) as ->.
    { unfold slice. rewrite length_app. cbn [length].
      destruct (Z.ltb_spec (Z.of_nat (length (this.events o) + 1)
                            - Options.maxEvents (this.options o)) 0); [lia |].
      apply drop_ge. rewrite length_app. cbn [length]. lia. }
    simpl. unfold persisted_log. destruct (quota_cut w []); reflexivity.
  - unfold posted. rewrite addEvent_A_outbox, last_snoc. reflexivity.
Qed.

Lemma addEvent_nonpositive_max_witness :
  this.events (addEvent PolicyB (sample_event 1) zero_tracker sample_world).1 = []
  /\ posted (addEvent PolicyA (sample_event 1) zero_tracker sample_world).2
     = Some (sample_event 1).
Proof.
  refine (addEvent_nonpositive_max PolicyB (sample_event 1) zero_tracker sample_world _).
  simpl. lia.
Defined.

(** ** The same address twice in a row ([PolicyA]) *)

Lemma trackCurrentPageView_A_lastTrackedUrl o w win :
  window w = Some win ->
  this.lastTrackedUrl (trackCurrentPageView_A o w).1 = URL.href (Window.location win).
Proof.
  intros Hw.
  destruct (String.eqb_spec (this.lastTrackedUrl o) (URL.href (Window.location win)))
    as [Heq | Hne].
  - unfold trackCurrentPageView_A. rewrite Hw, Heq, String.eqb_refl. exact Heq.
  - destruct (trackCurrentPageView_A_event o w win Hw Hne)
      as (eventId & _ & _ & _ & _ & _ & H).
    exact H.
Qed.

(** X12: under [PolicyA] a page view of the address that was tracked last
    is skipped: after [trackPageView()], a second [trackPageView()] or a
    listener that runs while the page has the same address changes neither
    the object nor the environment, whatever else has changed in the
    browser. *)
Theorem trackPageView_A_same_address (o : this.t) (w w' : World)
  (win win' : Window.t) :
  window w = Some win ->
  window w' = Some win' ->
  URL.href (Window.location win') = URL.href (Window.location win) ->
  trackPageView PolicyA (trackPageView PolicyA o w).1 w'
  = ((trackPageView PolicyA o w).1, w')
  /\ on_navigation PolicyA (trackPageView PolicyA o w).1 w'
     = ((trackPageView PolicyA o w).1, w').
Proof.
  intros Hw Hw' Hhref.
  assert (trackPageView PolicyA (trackPageView PolicyA o w).1 w'
          = ((trackPageView PolicyA o w).1, w')) as H.
  { pose proof (trackCurrentPageView_A_lastTrackedUrl o w win Hw) as Hlast.
    unfold trackPageView at 1. rewrite Hw'.
    unfold trackPageView. rewrite Hw.
    unfold trackCurrentPageView_A at 1. rewrite Hw', Hlast, Hhref, String.eqb_refl.
    reflexivity. }
  split; [exact H | exact H].
Qed.

Lemma trackPageView_A_same_address_witness :
  trackPageView PolicyA (trackPageView PolicyA new_tracker campaign_world).1
    checkout_world
  <> ((trackPageView PolicyA new_tracker campaign_world).1, checkout_world)
  /\ trackPageView PolicyA (trackPageView PolicyA new_tracker campaign_world).1
       campaign_world
     = ((trackPageView PolicyA new_tracker campaign_world).1, campaign_world).
Proof.
  split; [vm_compute; discriminate |].
  exact (proj1 (trackPageView_A_same_address new_tracker campaign_world campaign_world
                  campaign_window campaign_window eq_refl eq_refl eq_refl)).
Defined.

(** ** What [saveEvents] leaves in storage *)

Lemma persisted_history_set v w :
  is_Some (window w) ->
  persisted_history (with_storage (Storage.set_history v) w) = v.
Proof.
  intros [win Hw]. unfold persisted_history, storage, with_storage. rewrite Hw.
  reflexivity.
Qed.

Lemma write_succeeds_true w evs :
  write_succeeds w evs = true <->
  is_Some (window w) /\ setItem_history w evs = Stored.
Proof.
  unfold write_succeeds. rewrite andb_true_iff, !bool_decide_eq_true. tauto.
Qed.

(** The environment after [saveEvents]: the log that is kept is written, if
    the browser takes it. *)
Lemma saveEvents_world (o : this.t) (w : World) :
  (saveEvents o w).2 =
  if write_succeeds w (persisted_log w (this.events o))
  then with_storage
         (Storage.set_history (Some (Json (persisted_log w (this.events o))))) w
  else w.
Proof.
  unfold saveEvents, persisted_log. rewrite saveEvents_fuel_unfold.
  destruct (quota_cut w (this.events o)) eqn:Hq.
  - apply quota_cut_true in Hq as ([win Hw] & Hs & Hlen).
    rewrite Hw, Hs. rewrite (proj2 (Nat.ltb_lt _ _) Hlen).
    cbv zeta. rewrite saveEvents_fuel_unfold, Hw. simpl this.events.
    rewrite cut_log_length by assumption.
    rewrite slice_last_n by lia. change (Z.to_nat 10) with 10.
    unfold write_succeeds. rewrite Hw.
    rewrite (bool_decide_eq_true_2 (is_Some (Some win))) by eauto.
    destruct (setItem_history w (last_n 10 (this.events o))); reflexivity.
  - unfold write_succeeds.
    destruct (window w) as [win |] eqn:Hw;
      [| rewrite bool_decide_eq_false_2 by (intros [? ?]; discriminate); reflexivity].
    rewrite (bool_decide_eq_true_2 (is_Some (Some win))) by eauto.
    destruct (setItem_history w (this.events o)) eqn:Hs; try reflexivity.
    destruct (Nat.ltb_spec 10 (length (this.events o))) as [Hlen | Hlen];
      [| reflexivity].
    assert (quota_cut w (this.events o) = true) as Hq'
      by (apply quota_cut_true; eauto).
    congruence.
Qed.

(** X13: after [saveEvents] the storage holds exactly the log the object
    holds, or it has not been touched: the entry is replaced if and only if
    the write of the log that is kept - the log itself, or its ten newest
    events after a quota failure - succeeds.  What was written is what
    [loadEvents] gives back. *)
Theorem saveEvents_storage (o x : this.t) (w : World) :
  let kept := persisted_log w (this.events o) in
  this.events (saveEvents o w).1 = kept
  /\ persisted_history (saveEvents o w).2
     = (if write_succeeds w kept then Some (Json kept) else persisted_history w)
  /\ (write_succeeds w kept = true ->
      this.events (loadEvents x (saveEvents o w).2) = kept).
Proof.
  cbv zeta. rewrite saveEvents_this, saveEvents_world.
  split; [reflexivity |].
  destruct (write_succeeds w _) eqn:Hws.
  - apply write_succeeds_true in Hws as [[win Hw] _].
    split; [apply persisted_history_set; eauto |]. intros _.
    unfold loadEvents, with_storage. rewrite Hw. reflexivity.
  - split; [reflexivity | discriminate].
Qed.

(** ** The stored log mirrors the log *)

Lemma restorable_iff o w :
  restorable o w <->
  match persisted_history w with
  | Some (Json evs) => evs = this.events o
  | _ => this.events o = []
  end.
Proof.
  unfold restorable, loadEvents, persisted_history, storage.
  destruct (window w) as [win |]; simpl; [| split; congruence].
  destruct (Storage.history _) as [[| evs] |]; simpl; split; congruence.
Qed.

Lemma kept_or_written_restorable o w o' w' :
  restorable o w -> kept_or_written o w o' w' -> restorable o' w'.
Proof.
  rewrite !restorable_iff. intros H [[He Hp] | Hp]; rewrite Hp; [| reflexivity].
  rewrite He. exact H.
Qed.

Lemma kept_or_written_refl o w : kept_or_written o w o w.
Proof. left. split; reflexivity. Qed.

Lemma writable_surroundings w w' :
  surroundings w' = surroundings w -> writable w -> writable w'.
Proof.
  unfold surroundings, writable. intros H [[win Hw] Hs].
  injection H as Hloc _ _ _ _ Hset _ _ _ _. split.
  - rewrite Hw in Hloc. destruct (window w'); [eauto | discriminate].
  - intros evs. rewrite Hset. apply Hs.
Qed.

Lemma writable_with_storage f w : writable w -> writable (with_storage f w).
Proof.
  intros [Hw Hs]. split.
  - apply with_storage_window_is_Some. assumption.
  - intros evs. rewrite with_storage_setItem_history. apply Hs.
Qed.

Lemma writable_no_cut w evs : writable w -> persisted_log w evs = evs.
Proof.
  intros [_ Hs]. unfold persisted_log. rewrite quota_free_no_cut; [reflexivity |].
  intros evs'. rewrite Hs. discriminate.
Qed.

Lemma saveEvents_written o w :
  writable w ->
  (saveEvents o w).1 = o
  /\ persisted_history (saveEvents o w).2 = Some (Json (this.events o)).
Proof.
  intros Hw. rewrite saveEvents_this, saveEvents_world, writable_no_cut by assumption.
  split; [apply set_events_same |].
  destruct Hw as [Hwin Hs].
  rewrite (proj2 (write_succeeds_true w (this.events o))) by auto.
  apply persisted_history_set. assumption.
Qed.

Lemma addEvent_written p e o w :
  writable w ->
  persisted_history (addEvent p e o w).2
  = Some (Json (this.events (addEvent p e o w).1)).
Proof.
  intros Hw. unfold addEvent. cbv zeta.
  match goal with
  | |- context [saveEvents ?x w] =>
    destruct (saveEvents_written x w Hw) as [Ho Hp];
    destruct (saveEvents x w) as [o1 w1]
  end.
  cbn [fst snd] in *. subst o1. destruct p; exact Hp.
Qed.

Lemma persisted_history_generateUUID w :
  persisted_history (generateUUID w).2 = persisted_history w.
Proof. rewrite generateUUID_world. reflexivity. Qed.

Lemma persisted_history_set_attribution v w :
  persisted_history (with_storage (Storage.set_attribution v) w) = persisted_history w.
Proof.
  unfold persisted_history, storage, with_storage.
  destruct (window w) as [win |] eqn:Hw; simpl; rewrite ?Hw; reflexivity.
Qed.

Lemma persisted_history_set_user_id v w :
  persisted_history (with_storage (Storage.set_user_id v) w) = persisted_history w.
Proof.
  unfold persisted_history, storage, with_storage.
  destruct (window w) as [win |] eqn:Hw; simpl; rewrite ?Hw; reflexivity.
Qed.

Lemma persisted_history_set_old_uuid v w :
  persisted_history (with_storage (Storage.set_old_uuid v) w) = persisted_history w.
Proof.
  unfold persisted_history, storage, with_storage.
  destruct (window w) as [win |] eqn:Hw; simpl; rewrite ?Hw; reflexivity.
Qed.

Lemma persisted_history_saveAttributionData o w :
  persisted_history (saveAttributionData o w) = persisted_history w.
Proof.
  destruct (saveAttributionData_world o w) as [-> | ->];
    [reflexivity | apply persisted_history_set_attribution].
Qed.

Lemma loadAttributionData_log o w :
  this.events (loadAttributionData o w).1 = this.events o
  /\ persisted_history (loadAttributionData o w).2 = persisted_history w.
Proof.
  unfold loadAttributionData. destruct (window w) as [win |]; [| done].
  destruct (Storage.attribution _) as [[| a] |]; try done.
  destruct (has_timestamp a); [destruct (Qle_bool _ _) |]; try done.
  split; [reflexivity | apply persisted_history_set_attribution].
Qed.

Lemma getAttributionForPageView_log win o w :
  this.events (getAttributionForPageView win o w).1.2 = this.events o
  /\ persisted_history (getAttributionForPageView win o w).2 = persisted_history w.
Proof.
  unfold getAttributionForPageView.
  destruct (hasNewAttributionData _);
    [split; [reflexivity | apply persisted_history_saveAttributionData] |].
  destruct (AttributionData.has_keys _); done.
Qed.

Lemma trackCurrentPageView_A_log o w :
  writable w ->
  kept_or_written o w (trackCurrentPageView_A o w).1 (trackCurrentPageView_A o w).2.
Proof.
  intros Hw. unfold trackCurrentPageView_A.
  destruct (window w) as [win |]; [| apply kept_or_written_refl].
  destruct (String.eqb _ _); [apply kept_or_written_refl |].
  match goal with
  | |- context [getAttributionForPageView win ?x w] =>
    pose proof (surroundings_getAttributionForPageView win x w) as Hs;
    destruct (getAttributionForPageView win x w) as [[a o2] w2]
  end.
  pose proof (surroundings_generateUUID w2) as Hg.
  destruct (generateUUID w2) as [eventId w3]. cbn [fst snd] in *.
  right. apply addEvent_written.
  apply (writable_surroundings w); [congruence | assumption].
Qed.

Lemma trackCurrentPageView_B_log o w :
  writable w ->
  kept_or_written o w (trackCurrentPageView_B o w).1 (trackCurrentPageView_B o w).2.
Proof.
  intros Hw. unfold trackCurrentPageView_B.
  destruct (window w) as [win |]; [| apply kept_or_written_refl].
  destruct (isNewAttributionSource _ _ _); [| apply kept_or_written_refl].
  pose proof (surroundings_generateUUID w) as Hg.
  destruct (generateUUID w) as [eventId w1]. cbn [fst snd] in *.
  right. apply addEvent_written.
  apply (writable_surroundings w); assumption.
Qed.

Lemma kept_or_written_from o w x y o' w' :
  this.events x = this.events o ->
  persisted_history y = persisted_history w ->
  kept_or_written x y o' w' -> kept_or_written o w o' w'.
Proof.
  intros He Hp [[He' Hp'] | H]; [left | right; exact H].
  split; congruence.
Qed.

Lemma trackPageView_log p o w :
  writable w ->
  kept_or_written o w (trackPageView p o w).1 (trackPageView p o w).2.
Proof.
  intros Hw. unfold trackPageView.
  destruct (window w) as [win |]; [| apply kept_or_written_refl].
  destruct p; [apply trackCurrentPageView_A_log; assumption |].
  eapply kept_or_written_from; [| | apply trackCurrentPageView_B_log; assumption];
    reflexivity.
Qed.

Lemma on_navigation_log p o w :
  writable w ->
  kept_or_written o w (on_navigation p o w).1 (on_navigation p o w).2.
Proof.
  intros Hw. unfold on_navigation.
  destruct p; [apply trackPageView_log; assumption |].
  destruct (window w) as [win |]; [| apply kept_or_written_refl].
  destruct (negb _); [| apply kept_or_written_refl].
  eapply kept_or_written_from; [| | apply trackCurrentPageView_B_log; assumption];
    reflexivity.
Qed.

Lemma update_current_event_log p b o w :
  writable w ->
  kept_or_written o w (update_current_event p b o w).1 (update_current_event p b o w).2.
Proof.
  intros Hw. unfold update_current_event.
  destruct (this.currentPageEventId o) as [eventId |]; [| apply kept_or_written_refl].
  destruct (truthy eventId); [| apply kept_or_written_refl].
  assert (kept_or_written o w (updateEventLoginState eventId b o w).1
            (updateEventLoginState eventId b o w).2) as H.
  { unfold updateEventLoginState.
    destruct (findIndex _ _) as [i |]; [| apply kept_or_written_refl].
    right.
    match goal with
    | |- context [saveEvents ?x w] =>
      destruct (saveEvents_written x w Hw) as [-> ->]
    end.
    reflexivity. }
  destruct (updateEventLoginState eventId b o w) as [o1 w1]. cbn [fst snd] in *.
  destruct p; [| exact H].
  destruct (find eventId (this.events o1)); exact H.
Qed.

Lemma clearEvents_restorable o w :
  is_Some (window w) -> restorable (clearEvents o w).1 (clearEvents o w).2.
Proof.
  intros Hw. apply restorable_iff. unfold clearEvents. cbn [fst snd].
  rewrite persisted_history_set by assumption. reflexivity.
Qed.

Lemma update_current_event_writable p b o w :
  writable w -> writable (update_current_event p b o w).2.
Proof. apply writable_surroundings, surroundings_update_current_event. Qed.

Lemma restorable_same_log o w x :
  restorable o w -> this.events x = this.events o -> restorable x w.
Proof.
  intros Hr He. apply restorable_iff. rewrite He. apply restorable_iff. assumption.
Qed.

Lemma recordLogin_restorable p u o w :
  writable w -> restorable o w ->
  restorable (recordLogin p u o w).1.1 (recordLogin p u o w).1.2.
Proof.
  intros Hw Hr. rewrite recordLogin_state. cbv zeta.
  destruct (store_user_id u w) as [w' |];
    [| apply (restorable_same_log o); [assumption | reflexivity]].
  match goal with
  | |- context [update_current_event p true ?x ?y] =>
    pose proof (update_current_event_log p true x y
                  (writable_with_storage _ w Hw)) as Hlog;
    pose proof (update_current_event_writable p true x y
                  (writable_with_storage _ w Hw)) as Hwr;
    destruct (update_current_event p true x y) as [o2 w2]
  end.
  cbn [fst snd] in *.
  destruct (Options.resetOnLogin (this.options o2));
    [apply clearEvents_restorable, Hwr |].
  apply (kept_or_written_restorable o w); [assumption |].
  eapply kept_or_written_from; [| | exact Hlog];
    [reflexivity | apply persisted_history_set_user_id].
Qed.

Lemma recordSignup_restorable p u o w :
  writable w -> restorable o w ->
  restorable (recordSignup p u o w).1.1 (recordSignup p u o w).1.2.
Proof.
  intros Hw Hr. rewrite recordSignup_state. cbv zeta.
  destruct (store_user_id u w) as [w' |];
    [| apply (restorable_same_log o); [assumption | reflexivity]].
  match goal with
  | |- context [match ?s with Return _ => _ | Throw => _ end] =>
    destruct s as [w'' |]
  end.
  2: { cbn [fst snd]. apply restorable_iff.
       rewrite persisted_history_set_user_id. apply restorable_iff.
       apply (restorable_same_log o); [assumption | reflexivity]. }
  match goal with
  | |- context [update_current_event p true ?x ?y] =>
    assert (writable y) as Hy
      by (destruct (truthy_opt _); repeat apply writable_with_storage; assumption);
    assert (persisted_history y = persisted_history w) as Hp
      by (destruct (truthy_opt _);
          rewrite ?persisted_history_set_old_uuid, ?persisted_history_set_user_id;
          reflexivity);
    pose proof (update_current_event_log p true x y Hy) as Hlog;
    pose proof (update_current_event_writable p true x y Hy) as Hwr;
    destruct (update_current_event p true x y) as [o2 w2]
  end.
  cbn [fst snd] in *.
  destruct (Options.resetOnSignup (this.options o2));
    [apply clearEvents_restorable, Hwr |].
  apply (kept_or_written_restorable o w); [assumption |].
  eapply kept_or_written_from; [| exact Hp | exact Hlog]. reflexivity.
Qed.

Lemma updateLoginState_restorable p b u o w :
  writable w -> restorable o w ->
  restorable (updateLoginState p b u o w).1.1 (updateLoginState p b u o w).1.2.
Proof.
  intros Hw Hr. rewrite updateLoginState_state.
  destruct (store_login_id u w) as [w' |];
    [| apply (restorable_same_log o);
       [assumption | destruct (truthy_opt u); reflexivity]].
  cbv zeta.
  assert (forall x y,
            this.events x = this.events o ->
            persisted_history y = persisted_history w ->
            writable y ->
            restorable (update_current_event p b x y).1 (update_current_event p b x y).2)
    as Hstep.
  { intros x y He Hp Hy. apply (kept_or_written_restorable o w); [assumption |].
    eapply kept_or_written_from; [exact He | exact Hp |].
    apply update_current_event_log. assumption. }
  assert (forall x y,
            this.events x = this.events o ->
            persisted_history y = persisted_history w ->
            restorable x y) as Hsame.
  { intros x y He Hp. apply restorable_iff. rewrite Hp, He.
    apply restorable_iff. assumption. }
  destruct u as [u |]; [destruct (truthy u) |];
    destruct p; try destruct (negb _); cbn [fst snd];
    first [ apply Hstep;
            [reflexivity
            | rewrite ?persisted_history_set_user_id; reflexivity
            | try apply writable_with_storage; assumption]
          | apply Hsame;
            [reflexivity | rewrite ?persisted_history_set_user_id; reflexivity] ].
Qed.

Lemma loadEvents_restorable o x w :
  restorable o w -> this.events x = this.events o ->
  this.events (loadEvents x w) = this.events o.
Proof.
  intros Hr He. apply restorable_iff in Hr.
  unfold loadEvents, persisted_history, storage in *.
  destruct (window w) as [win |]; simpl in *; [| exact He].
  destruct (Storage.history _) as [[| evs] |]; simpl; congruence.
Qed.

Lemma init_restorable p b u o w :
  writable w -> restorable o w ->
  restorable (init p b u o w).1 (init p b u o w).2.
Proof.
  intros Hw Hr. unfold init.
  destruct (this.isInitialized o); [assumption |]. cbv zeta.
  match goal with
  | |- context [loadEvents ?x w] =>
    assert (this.events (loadEvents x w) = this.events o) as He
      by (apply loadEvents_restorable; [assumption |];
          destruct b, (truthy_opt u);
          try destruct (storage w ≫= Storage.user_id) as [s |];
          try destruct (truthy s); reflexivity);
    generalize dependent (loadEvents x w); intros o3 He
  end.
  assert (forall o4 w4, kept_or_written o w o4 w4 ->
            restorable (this.set_isInitialized true o4) w4) as Hend.
  { intros o4 w4 H. apply (kept_or_written_restorable o w); [assumption |].
    destruct H as [[H1 H2] | H]; [left; split; assumption | right; exact H]. }
  destruct p.
  - pose proof (loadAttributionData_log o3 w) as [Hle Hlp].
    pose proof (surroundings_loadAttributionData o3 w) as Hls.
    destruct (loadAttributionData o3 w) as [oa wa]. cbn [fst snd] in *.
    pose proof (trackCurrentPageView_A_log oa wa
                  (writable_surroundings w wa Hls Hw)) as Ht.
    destruct (trackCurrentPageView_A oa wa) as [o4 w4]. cbn [fst snd] in *.
    apply Hend. eapply kept_or_written_from; [| exact Hlp | exact Ht]. congruence.
  - destruct (Options.autoTrack _);
      [| apply Hend; left; split; [exact He | reflexivity]].
    destruct (window w) as [win |];
      [| apply Hend; left; split; [exact He | reflexivity]].
    match goal with
    | |- context [trackCurrentPageView_B ?x w] =>
      pose proof (trackCurrentPageView_B_log x w Hw) as Ht;
      destruct (trackCurrentPageView_B x w) as [o4 w4]
    end.
    cbn [fst snd] in *. apply Hend.
    eapply kept_or_written_from; [| | exact Ht]; [exact He | reflexivity].
Qed.

Lemma surroundings_init p b u o w : surroundings (init p b u o w).2 = surroundings w.
Proof.
  unfold init. destruct (this.isInitialized o); [reflexivity |]. cbv zeta.
  match goal with
  | |- context [loadEvents ?x w] => generalize (loadEvents x w); intros o3
  end.
  destruct p.
  - pose proof (surroundings_loadAttributionData o3 w) as Hls.
    destruct (loadAttributionData o3 w) as [oa wa]. cbn [snd] in Hls.
    pose proof (surroundings_trackCurrentPageView_A oa wa) as Ht.
    destruct (trackCurrentPageView_A oa wa) as [o4 w4]. cbn [snd] in *. congruence.
  - destruct (Options.autoTrack _); [| reflexivity].
    destruct (window w) as [win |]; [| reflexivity].
    match goal with
    | |- context [trackCurrentPageView_B ?x w] =>
      pose proof (surroundings_trackCurrentPageView_B x w) as Ht;
      destruct (trackCurrentPageView_B x w) as [o4 w4]
    end.
    exact Ht.
Qed.

Lemma call_writable p c o w : writable w -> writable (call p c o w).2.
Proof.
  intros Hw. destruct c; unfold call.
  - apply (writable_surroundings w); [apply surroundings_init | assumption].
  - apply (writable_surroundings w); [apply surroundings_trackPageView | assumption].
  - apply (writable_surroundings w); [apply surroundings_on_navigation | assumption].
  - rewrite updateLoginState_state.
    destruct (store_login_id userId w) as [w' |]; [| assumption]. cbv zeta.
    destruct userId as [u |]; [destruct (truthy u) |];
      destruct p; try destruct (negb _); cbn [snd];
      try apply update_current_event_writable;
      try apply writable_with_storage; assumption.
  - rewrite recordLogin_state. cbv zeta.
    destruct (store_user_id derivUserId w) as [w' |]; [| assumption].
    match goal with
    | |- context [update_current_event p true ?x ?y] =>
      pose proof (update_current_event_writable p true x y
                    (writable_with_storage _ w Hw)) as Hwr;
      destruct (update_current_event p true x y) as [o2 w2]
    end.
    cbn [snd] in *. destruct (Options.resetOnLogin _); [| assumption].
    apply writable_with_storage. assumption.
  - rewrite recordSignup_state. cbv zeta.
    destruct (store_user_id derivUserId w) as [w' |]; [| assumption].
    match goal with
    | |- context [match ?s with Return _ => _ | Throw => _ end] =>
      destruct s as [w'' |]
    end; [| apply writable_with_storage; assumption].
    match goal with
    | |- context [update_current_event p true ?x ?y] =>
      assert (writable y) as Hy
        by (destruct (truthy_opt _); repeat apply writable_with_storage; assumption);
      pose proof (update_current_event_writable p true x y Hy) as Hwr;
      destruct (update_current_event p true x y) as [o2 w2]
    end.
    cbn [snd] in *. destruct (Options.resetOnSignup _); [| assumption].
    apply writable_with_storage. assumption.
  - apply writable_with_storage. assumption.
Qed.

(** X14: in a browser whose storage takes every write of the log, the
    stored log mirrors the log of the object: if a tracker that starts anew
    and loads the stored log would get the log of the object before a call,
    it would get the log of the object after the call, and the storage still
    takes every write.  A tracker with an empty log comes to that state by
    [init]. *)
Theorem stored_log_mirrors_log (p : Policy) (c : Call) (o : this.t) (w : World) :
  writable w ->
  (this.events o = [] -> this.isInitialized o = false ->
   restorable (init p None None o w).1 (init p None None o w).2)
  /\ (restorable o w ->
      restorable (call p c o w).1 (call p c o w).2
      /\ writable (call p c o w).2).
Proof.
  intros Hw. split.
  - intros He Hi.
    assert (forall x, this.events x = [] -> restorable (loadEvents x w) w) as Hload.
    { intros x Hx. apply restorable_iff.
      unfold loadEvents, persisted_history, storage.
      destruct (window w) as [win |]; simpl; [| exact Hx].
      destruct (Storage.history _) as [[| evs] |]; simpl; [exact Hx | reflexivity | exact Hx]. }
    unfold init. rewrite Hi. cbv zeta.
    match goal with
    | |- context [loadEvents ?x w] =>
      pose proof (Hload x) as Hr;
      generalize dependent (loadEvents x w); intros o3 Hr
    end.
    assert (restorable o3 w) as Hr3.
    { apply Hr. destruct (storage w ≫= Storage.user_id) as [s |];
        [destruct (truthy s) |]; exact He. }
    clear Hr.
    assert (forall o4 w4, kept_or_written o3 w o4 w4 ->
              restorable (this.set_isInitialized true o4) w4) as Hend.
    { intros o4 w4 H. apply (kept_or_written_restorable o3 w); [assumption |].
      destruct H as [[H1 H2] | H]; [left; split; assumption | right; exact H]. }
    destruct p.
    + pose proof (loadAttributionData_log o3 w) as [Hle Hlp].
      pose proof (surroundings_loadAttributionData o3 w) as Hls.
      destruct (loadAttributionData o3 w) as [oa wa]. cbn [fst snd] in *.
      pose proof (trackCurrentPageView_A_log oa wa
                    (writable_surroundings w wa Hls Hw)) as Ht.
      destruct (trackCurrentPageView_A oa wa) as [o4 w4]. cbn [fst snd] in *.
      apply Hend. eapply kept_or_written_from; [| exact Hlp | exact Ht]. congruence.
    + destruct (Options.autoTrack _); [| apply Hend, kept_or_written_refl].
      destruct (window w) as [win |]; [| apply Hend, kept_or_written_refl].
      match goal with
      | |- context [trackCurrentPageView_B ?x w] =>
        pose proof (trackCurrentPageView_B_log x w Hw) as Ht;
        destruct (trackCurrentPageView_B x w) as [o4 w4]
      end.
      cbn [fst snd] in *. apply Hend.
      eapply kept_or_written_from; [| | exact Ht]; reflexivity.
  - intros Hr. split; [| apply call_writable; assumption].
    destruct c; unfold call.
    + apply init_restorable; assumption.
    + apply (kept_or_written_restorable o w); [assumption |].
      apply trackPageView_log. assumption.
    + apply (kept_or_written_restorable o w); [assumption |].
      apply on_navigation_log. assumption.
    + apply updateLoginState_restorable; assumption.
    + apply recordLogin_restorable; assumption.
    + apply recordSignup_restorable; assumption.
    + apply clearEvents_restorable. destruct Hw. assumption.
Qed.

Lemma stored_log_mirrors_log_witness :
  restorable
    (call PolicyB TrackPageView (sample_tracker ten_events)
       (with_storage (Storage.set_history (Some (Json ten_events))) sample_world)).1
    (call PolicyB TrackPageView (sample_tracker ten_events)
       (with_storage (Storage.set_history (Some (Json ten_events))) sample_world)).2.
Proof.
  refine (proj1 (proj2
    (stored_log_mirrors_log PolicyB TrackPageView (sample_tracker ten_events)
       (with_storage (Storage.set_history (Some (Json ten_events))) sample_world) _)
    _)).
  - split; [eexists; reflexivity | reflexivity].
  - reflexivity.
Defined.

(** ** The backend *)

Lemma outbox_generateUUID w : outbox (generateUUID w).2 = outbox w.
Proof. rewrite generateUUID_world. reflexivity. Qed.

Lemma persisted_attribution_generateUUID w :
  persisted_attribution (generateUUID w).2 = persisted_attribution w.
Proof. rewrite generateUUID_world. reflexivity. Qed.

Lemma persisted_attribution_set_user_id v w :
  persisted_attribution (with_storage (Storage.set_user_id v) w)
  = persisted_attribution w.
Proof.
  unfold persisted_attribution, storage, with_storage.
  destruct (window w) as [win |] eqn:Hw; simpl; rewrite ?Hw; reflexivity.
Qed.

Lemma persisted_attribution_set_old_uuid v w :
  persisted_attribution (with_storage (Storage.set_old_uuid v) w)
  = persisted_attribution w.
Proof.
  unfold persisted_attribution, storage, with_storage.
  destruct (window w) as [win |] eqn:Hw; simpl; rewrite ?Hw; reflexivity.
Qed.

Lemma now_surroundings w w' : surroundings w' = surroundings w -> now w' = now w.
Proof. unfold surroundings. intros H. congruence. Qed.

Lemma outbox_loadAttributionData o w : outbox (loadAttributionData o w).2 = outbox w.
Proof.
  unfold loadAttributionData. destruct (window w) as [win |]; [| reflexivity].
  destruct (Storage.attribution _) as [[| a] |]; try reflexivity.
  destruct (has_timestamp a); [destruct (Qle_bool _ _) |]; try reflexivity.
  apply with_storage_outbox.
Qed.

Lemma outbox_getAttributionForPageView win o w :
  outbox (getAttributionForPageView win o w).2 = outbox w.
Proof.
  unfold getAttributionForPageView.
  destruct (hasNewAttributionData _); [apply saveAttributionData_outbox |].
  destruct (AttributionData.has_keys _); reflexivity.
Qed.

(** *** [PolicyB] posts nothing and keeps no attribution *)

Lemma silent_refl o w : silent o w o w.
Proof. repeat split. Qed.

Lemma silent_trans o w o1 w1 o2 w2 :
  silent o w o1 w1 -> silent o1 w1 o2 w2 -> silent o w o2 w2.
Proof. unfold silent. intuition congruence. Qed.

Lemma silent_with_storage_user_id v o w :
  silent o w o (with_storage (Storage.set_user_id v) w).
Proof.
  split; [apply with_storage_outbox |].
  split; [apply persisted_attribution_set_user_id | reflexivity].
Qed.

Lemma silent_with_storage_old_uuid v o w :
  silent o w o (with_storage (Storage.set_old_uuid v) w).
Proof.
  split; [apply with_storage_outbox |].
  split; [apply persisted_attribution_set_old_uuid | reflexivity].
Qed.

Lemma silent_saveEvents o w : silent o w (saveEvents o w).1 (saveEvents o w).2.
Proof.
  split; [apply saveEvents_outbox |].
  split; [apply saveEvents_persisted_attribution |].
  rewrite saveEvents_this. reflexivity.
Qed.

Lemma silent_addEvent_B e o w :
  silent o w (addEvent PolicyB e o w).1 (addEvent PolicyB e o w).2.
Proof.
  split; [| split; [apply addEvent_persisted_attribution
                   | rewrite addEvent_this_any; reflexivity]].
  unfold addEvent. cbv zeta.
  match goal with
  | |- context [saveEvents ?x w] =>
    pose proof (saveEvents_outbox x w) as H; destruct (saveEvents x w) as [o1 w1]
  end.
  exact H.
Qed.

Lemma silent_trackCurrentPageView_B o w :
  silent o w (trackCurrentPageView_B o w).1 (trackCurrentPageView_B o w).2.
Proof.
  unfold trackCurrentPageView_B.
  destruct (window w) as [win |]; [| apply silent_refl].
  destruct (isNewAttributionSource _ _ _); [| apply silent_refl].
  pose proof (outbox_generateUUID w) as Ho.
  pose proof (persisted_attribution_generateUUID w) as Hp.
  destruct (generateUUID w) as [eventId w1]. cbn [fst snd] in *.
  eapply silent_trans; [| apply silent_addEvent_B]. repeat split; assumption.
Qed.

Lemma silent_update_current_event_B b o w :
  silent o w (update_current_event PolicyB b o w).1
         (update_current_event PolicyB b o w).2.
Proof.
  unfold update_current_event.
  destruct (this.currentPageEventId o) as [eventId |]; [| apply silent_refl].
  destruct (truthy eventId); [| apply silent_refl].
  assert (silent o w (updateEventLoginState eventId b o w).1
            (updateEventLoginState eventId b o w).2) as H.
  { unfold updateEventLoginState.
    destruct (findIndex _ _) as [i |]; [| apply silent_refl].
    eapply silent_trans; [| apply silent_saveEvents]. repeat split. }
  destruct (updateEventLoginState eventId b o w) as [o1 w1]. exact H.
Qed.

Lemma silent_clearEvents o w : silent o w (clearEvents o w).1 (clearEvents o w).2.
Proof.
  split; [apply with_storage_outbox |].
  split; [apply persisted_attribution_set_history | reflexivity].
Qed.

Lemma silent_step o w x y o' w' :
  this.currentAttribution x = this.currentAttribution o ->
  silent o w o y -> silent x y o' w' -> silent o w o' w'.
Proof.
  intros Hx (H1 & H2 & _) (H3 & H4 & H5). unfold silent. intuition congruence.
Qed.

(** X15: under [PolicyB] no call posts a request, writes or removes the
    stored attribution, or changes the current attribution. *)
Theorem policyB_is_silent (c : Call) (o : this.t) (w : World) :
  outbox (call PolicyB c o w).2 = outbox w
  /\ persisted_attribution (call PolicyB c o w).2 = persisted_attribution w
  /\ this.currentAttribution (call PolicyB c o w).1 = this.currentAttribution o.
Proof.
  change (silent o w (call PolicyB c o w).1 (call PolicyB c o w).2).
  destruct c; unfold call.
  - unfold init. destruct (this.isInitialized o); [apply silent_refl |]. cbv zeta.
    match goal with
    | |- context [loadEvents ?x w] =>
      assert (this.currentAttribution (loadEvents x w) = this.currentAttribution o)
        as Hc
        by (unfold loadEvents; destruct (window w) as [win |];
            [destruct (Storage.history _) as [[| evs] |] |];
            destruct isLoggedIn, (truthy_opt userId);
            try destruct (storage w ≫= Storage.user_id) as [s |];
            try destruct (truthy s); reflexivity);
      generalize dependent (loadEvents x w); intros o3 Hc
    end.
    destruct (Options.autoTrack _); [| repeat split; exact Hc].
    destruct (window w) as [win |]; [| repeat split; exact Hc].
    match goal with
    | |- context [trackCurrentPageView_B ?x w] =>
      pose proof (silent_trackCurrentPageView_B x w) as Ht;
      destruct (trackCurrentPageView_B x w) as [o4 w4]
    end.
    cbn [fst snd] in *. destruct Ht as (H1 & H2 & H3).
    repeat split; simpl in *; congruence.
  - unfold trackPageView. destruct (window w) as [win |]; [| apply silent_refl].
    eapply silent_step; [| apply silent_refl | apply silent_trackCurrentPageView_B].
    reflexivity.
  - unfold on_navigation. destruct (window w) as [win |]; [| apply silent_refl].
    destruct (negb _); [| apply silent_refl].
    eapply silent_step; [| apply silent_refl | apply silent_trackCurrentPageView_B].
    reflexivity.
  - rewrite updateLoginState_state.
    destruct (store_login_id userId w) as [w' |];
      [| destruct (truthy_opt userId); repeat split].
    cbv zeta.
    destruct userId as [u |]; [destruct (truthy u) |]; cbn [fst snd];
      (eapply silent_step; [| | apply silent_update_current_event_B]);
      try reflexivity; try apply silent_refl; apply silent_with_storage_user_id.
  - rewrite recordLogin_state. cbv zeta.
    destruct (store_user_id derivUserId w) as [w' |]; [| repeat split].
    match goal with
    | |- context [update_current_event PolicyB true ?x ?y] =>
      pose proof (silent_update_current_event_B true x y) as H;
      destruct (update_current_event PolicyB true x y) as [o2 w2]
    end.
    cbn [fst snd] in H.
    assert (silent o w o2 w2) as H2.
    { eapply silent_step; [| apply (silent_with_storage_user_id (Some derivUserId))
                           | exact H]. reflexivity. }
    destruct (Options.resetOnLogin _); [| exact H2].
    eapply silent_trans; [exact H2 | apply silent_clearEvents].
  - rewrite recordSignup_state. cbv zeta.
    destruct (store_user_id derivUserId w) as [w' |]; [| repeat split].
    match goal with
    | |- context [match ?s with Return _ => _ | Throw => _ end] =>
      destruct s as [w'' |]
    end;
      [| eapply silent_step;
         [| apply (silent_with_storage_user_id (Some derivUserId)) | apply silent_refl];
         reflexivity].
    match goal with
    | |- context [update_current_event PolicyB true ?x ?y] =>
      pose proof (silent_update_current_event_B true x y) as H;
      assert (silent o w o y) as Hy;
      [ destruct (truthy_opt _);
        [ eapply silent_trans;
          [apply (silent_with_storage_user_id (Some derivUserId))
          | apply silent_with_storage_old_uuid]
        | apply silent_with_storage_user_id ]
      | destruct (update_current_event PolicyB true x y) as [o2 w2] ]
    end.
    cbn [fst snd] in H.
    assert (silent o w o2 w2) as H2.
    { eapply silent_step; [| exact Hy | exact H]. reflexivity. }
    destruct (Options.resetOnSignup _); [| exact H2].
    eapply silent_trans; [exact H2 | apply silent_clearEvents].
  - apply silent_clearEvents.
Qed.

(** *** [PolicyA] posts at most one request per call *)

Lemma posts_same_identity o o' w w' :
  this.uuid o' = this.uuid o ->
  this.derivUserId o' = this.derivUserId o ->
  this.oldUuid o' = this.oldUuid o ->
  posts_at_most_one o w w' -> posts_at_most_one o' w w'.
Proof.
  intros H1 H2 H3 [H | [e H]]; [left; exact H | right; exists e].
  unfold request. rewrite H1, H2, H3. exact H.
Qed.

Lemma posts_from o w y w' :
  outbox y = outbox w -> now y = now w ->
  posts_at_most_one o y w' -> posts_at_most_one o w w'.
Proof.
  intros Ho Hn [H | [e H]]; [left; congruence | right; exists e].
  unfold request in *. rewrite <- Ho, <- Hn. exact H.
Qed.

Lemma posts_session o o' w w' :
  same_session o' o -> posts_at_most_one o w w' -> posts_at_most_one o' w w'.
Proof.
  intros (_ & H1 & H2 & H3 & _). apply posts_same_identity; assumption.
Qed.

Lemma posts_trackCurrentPageView_A o w :
  posts_at_most_one o w (trackCurrentPageView_A o w).2.
Proof.
  unfold trackCurrentPageView_A.
  destruct (window w) as [win |]; [| left; reflexivity].
  destruct (String.eqb _ _); [left; reflexivity |].
  match goal with
  | |- context [getAttributionForPageView win ?x w] =>
    pose proof (outbox_getAttributionForPageView win x w) as Ho;
    pose proof (now_surroundings _ _ (surroundings_getAttributionForPageView win x w))
      as Hn;
    assert (same_session (getAttributionForPageView win x w).1.2 o) as Hs;
    [ unfold getAttributionForPageView;
      destruct (hasNewAttributionData _); [repeat split |];
      destruct (AttributionData.has_keys _); repeat split
    | destruct (getAttributionForPageView win x w) as [[a o2] w2] ]
  end.
  pose proof (outbox_generateUUID w2) as Ho3.
  pose proof (now_surroundings _ _ (surroundings_generateUUID w2)) as Hn3.
  destruct (generateUUID w2) as [eventId w3]. cbn [fst snd] in *.
  right. eexists. rewrite addEvent_A_outbox. cbn [this.uuid this.derivUserId
    this.oldUuid this.set_currentPageEventId].
  destruct Hs as (_ & H1 & H2 & H3 & _).
  unfold request. rewrite Ho3, Ho, Hn3, Hn, H1, H2, H3. reflexivity.
Qed.

Lemma posts_update_current_event_A b o w :
  posts_at_most_one o w (update_current_event PolicyA b o w).2.
Proof.
  unfold update_current_event.
  destruct (this.currentPageEventId o) as [eventId |]; [| left; reflexivity].
  destruct (truthy eventId); [| left; reflexivity].
  assert (outbox (updateEventLoginState eventId b o w).2 = outbox w
          /\ now (updateEventLoginState eventId b o w).2 = now w
          /\ same_session (updateEventLoginState eventId b o w).1 o)
    as (Ho & Hn & Hs).
  { rewrite updateEventLoginState_this. unfold updateEventLoginState.
    destruct (findIndex _ _) as [i |];
      [split; [apply saveEvents_outbox |]; split; [apply saveEvents_now |]
      | split; [reflexivity |]; split; [reflexivity |]];
      apply set_events_session. }
  destruct (updateEventLoginState eventId b o w) as [o1 w1]. cbn [fst snd] in *.
  destruct (find eventId (this.events o1)) as [e |]; [| left; exact Ho].
  right. exists e. unfold sendEventToBackend, request. cbn [outbox set_outbox].
  destruct Hs as (_ & H1 & H2 & H3 & _). rewrite Ho, Hn, H1, H2, H3. reflexivity.
Qed.

(** X16: under [PolicyA] a call posts at most one request.  The request
    comes after the ones posted before and carries the device identifier,
    the user id and the prior device identifier that the tracker has after
    the call, and the time of the call. *)
Theorem policyA_posts_at_most_one (c : Call) (o : this.t) (w : World) :
  posts_at_most_one (call PolicyA c o w).1 w (call PolicyA c o w).2.
Proof.
  destruct c; unfold call.
  - unfold init. destruct (this.isInitialized o); [left; reflexivity |]. cbv zeta.
    match goal with
    | |- context [loadEvents ?x w] => generalize (loadEvents x w)
    end.
    intros o3.
    pose proof (outbox_loadAttributionData o3 w) as Ho.
    pose proof (now_surroundings _ _ (surroundings_loadAttributionData o3 w)) as Hn.
    destruct (loadAttributionData o3 w) as [oa wa]. cbn [fst snd] in *.
    pose proof (posts_trackCurrentPageView_A oa wa) as Hp.
    pose proof (trackCurrentPageView_A_session oa wa) as Hs.
    destruct (trackCurrentPageView_A oa wa) as [o4 w4]. cbn [fst snd] in *.
    apply (posts_from _ w wa); [assumption | assumption |].
    apply (posts_session oa); [| exact Hp].
    eapply same_session_trans; [| exact Hs]. repeat split.
  - apply (posts_session o); [apply trackPageView_session |].
    unfold trackPageView. destruct (window w); [| left; reflexivity].
    apply posts_trackCurrentPageView_A.
  - apply (posts_session o); [apply on_navigation_session |].
    unfold on_navigation, trackPageView. destruct (window w); [| left; reflexivity].
    apply posts_trackCurrentPageView_A.
  - rewrite updateLoginState_this, updateLoginState_state.
    destruct (store_login_id userId w) as [w' |]; [| left; reflexivity].
    cbv zeta.
    destruct userId as [u |]; [destruct (truthy u) eqn:Hu |]; cbn [truthy_opt];
      rewrite ?Hu; destruct (negb _); cbn [fst snd];
      try (left; reflexivity); try (left; apply with_storage_outbox);
      match goal with
      | |- context [update_current_event PolicyA isLoggedIn ?x ?y] =>
        apply (posts_from _ w y);
        [ try apply with_storage_outbox; reflexivity
        | try apply with_storage_now; reflexivity
        | apply (posts_same_identity x);
          [reflexivity | reflexivity | reflexivity
          | apply posts_update_current_event_A] ]
      end.
  - rewrite recordLogin_this, recordLogin_state. cbv zeta.
    destruct (store_user_id derivUserId w) as [w' |]; [| left; reflexivity].
    match goal with
    | |- context [update_current_event PolicyA true ?x ?y] =>
      pose proof (posts_update_current_event_A true x y) as Hp;
      destruct (update_current_event PolicyA true x y) as [o2 w2]
    end.
    cbn [fst snd] in *.
    assert (outbox (if Options.resetOnLogin (this.options o2)
                    then clearEvents o2 w2 else (o2, w2)).2 = outbox w2) as Hout
      by (destruct (Options.resetOnLogin _); [apply with_storage_outbox | reflexivity]).
    apply (posts_from _ w (with_storage (Storage.set_user_id (Some derivUserId)) w));
      [apply with_storage_outbox | apply with_storage_now |].
    destruct Hp as [Hp | [e Hp]]; [left | right; exists e]; rewrite Hout; exact Hp.
  - rewrite recordSignup_this, recordSignup_state. unfold store_identity.
    cbv zeta.
    destruct (store_user_id derivUserId w) as [w' |] eqn:Hs; [| left; reflexivity].
    apply store_user_id_Return in Hs. subst w'.
    match goal with
    | |- context [match ?s with Return _ => _ | Throw => _ end] =>
      destruct s as [w'' |]
    end; [| left; apply with_storage_outbox].
    match goal with
    | |- context [update_current_event PolicyA true ?x ?y] =>
      assert (outbox y = outbox w /\ now y = now w) as [Hoy Hny]
        by (destruct (truthy_opt _);
            rewrite ?with_storage_outbox, ?with_storage_now; split; reflexivity);
      set (w1 := y) in *; clearbody w1;
      pose proof (posts_update_current_event_A true x w1) as Hp;
      destruct (update_current_event PolicyA true x w1) as [o2 w2]
    end.
    cbn [fst snd] in *.
    assert (outbox (if Options.resetOnSignup (this.options o2)
                    then clearEvents o2 w2 else (o2, w2)).2 = outbox w2) as Hout
      by (destruct (Options.resetOnSignup _); [apply with_storage_outbox | reflexivity]).
    apply (posts_from _ w w1); [assumption | assumption |].
    destruct Hp as [Hp | [e Hp]]; [left | right; exists e]; rewrite Hout; exact Hp.
  - left. apply with_storage_outbox.
Qed.

(** ** The extracted record in the two revisions *)

Lemma attribution_ext (a b : AttributionData.t) :
  (forall k, AttributionData.get k a = AttributionData.get k b) ->
  AttributionData.attribution_timestamp a = AttributionData.attribution_timestamp b ->
  a = b.
Proof.
  intros Hget Hts. destruct a, b.
  pose proof (Hget AttributionData.Utm_campaign).
  pose proof (Hget AttributionData.Utm_medium).
  pose proof (Hget AttributionData.Utm_source).
  pose proof (Hget AttributionData.Utm_term).
  pose proof (Hget AttributionData.Utm_ad_id).
  pose proof (Hget AttributionData.Utm_ad_group_id).
  pose proof (Hget AttributionData.Utm_campaign_id).
  pose proof (Hget AttributionData.Gclid).
  pose proof (Hget AttributionData.Fbclid).
  pose proof (Hget AttributionData.Mkclid).
  pose proof (Hget AttributionData.Referrer).
  pose proof (Hget AttributionData.Landing_page).
  simpl in *. congruence.
Qed.

(** X17: the two revisions list the UTM names in different orders and
    extract the same fields; the record of [PolicyA] is the record of
    [PolicyB] with the time of capture added, and the record of [PolicyB]
    has no time of capture. *)
Theorem parseAttributionData_revisions_agree (w : World) :
  (forall k, AttributionData.get k (parseAttributionData PolicyA w)
             = AttributionData.get k (parseAttributionData PolicyB w))
  /\ parseAttributionData PolicyA w
     = match window w with
       | Some _ =>
         AttributionData.set_timestamp (now w) (parseAttributionData PolicyB w)
       | None => parseAttributionData PolicyB w
       end
  /\ AttributionData.attribution_timestamp (parseAttributionData PolicyB w) = None.
Proof.
  destruct (window w) as [win |] eqn:Hw.
  - assert (forall k, AttributionData.get k (parseAttributionData PolicyA w)
                      = AttributionData.get k (parseAttributionData PolicyB w)) as Hget
      by (intros k; rewrite !(parseAttributionData_get _ w win k Hw); reflexivity).
    split; [exact Hget |]. split.
    + apply attribution_ext.
      * intros k. rewrite get_set_timestamp. apply Hget.
      * rewrite timestamp_set_timestamp.
        apply (parseAttributionData_timestamp PolicyA w win Hw).
    + apply (parseAttributionData_timestamp PolicyB w win Hw).
  - unfold parseAttributionData. rewrite Hw. repeat split.
Qed.

(** X18: the extracted record depends on the page only through the first
    value of each of the ten recognised parameters (if it is not empty), the
    path, and the external referrer: other parameters, later values of a
    parameter, and the order of the parameters make no difference. *)
Theorem parseAttributionData_recognised (p : Policy) (w w' : World)
  (win win' : Window.t) :
  window w = Some win ->
  window w' = Some win' ->
  now w' = now w ->
  URL.pathname (Window.location win') = URL.pathname (Window.location win) ->
  external_referrer win' (new_URL w') = external_referrer win (new_URL w) ->
  (forall k, k ∈ AttributionData.marketing ->
     query_value (URL.searchParams (Window.location win')) k
     = query_value (URL.searchParams (Window.location win)) k) ->
  parseAttributionData p w' = parseAttributionData p w.
Proof.
  intros Hw Hw' Hnow Hpath Href Hq. apply attribution_ext.
  - intros k. rewrite (parseAttributionData_get p w' win' k Hw'),
      (parseAttributionData_get p w win k Hw).
    destruct (decide (k ∈ AttributionData.marketing)) as [Hk | Hk].
    + rewrite !marketing_extracted by assumption. apply Hq. assumption.
    + destruct k; simpl; try congruence;
        exfalso; apply Hk; apply (bool_decide_eq_true_1 _); reflexivity.
  - rewrite (parseAttributionData_timestamp p w' win' Hw'),
      (parseAttributionData_timestamp p w win Hw), Hnow. reflexivity.
Qed.

Lemma parseAttributionData_recognised_witness :
  parseAttributionData PolicyA campaign_world_shuffled
  = parseAttributionData PolicyA campaign_world.
Proof.
  refine (parseAttributionData_recognised PolicyA campaign_world
            campaign_world_shuffled campaign_window _ eq_refl eq_refl eq_refl
            eq_refl eq_refl _).
  intros k _. destruct k; reflexivity.
Defined.

(** ** The attribution across a reload ([PolicyA]) *)

Lemma persisted_attribution_surroundless_getOrCreateUUID options w :
  persisted_attribution (getOrCreateUUID options w).2 = persisted_attribution w.
Proof.
  unfold getOrCreateUUID.
  pose proof (generateUUID_world w) as Hg.
  destruct (generateUUID w) as [u w1]. cbn [fst snd] in Hg.
  destruct (window w) as [win |] eqn:Hw; [| rewrite Hg; reflexivity].
  destruct (truthy_opt (Window.cookie win)); [reflexivity |].
  rewrite Hg. unfold setCookie. cbn [window set_drawn]. rewrite Hw.
  unfold persisted_attribution, storage. simpl. rewrite Hw. reflexivity.
Qed.

(** X19: the record that a page view of [PolicyA] has written to storage
    is the current attribution of a tracker constructed later, as long as no
    more than [attributionExpiry] minutes have passed since the page view;
    after that the new tracker starts without attribution and removes the
    record from storage. *)
Theorem attribution_survives_reload (o : this.t) (w w' : World)
  (win : Window.t) (options : Options.t) :
  window w = Some win ->
  this.lastTrackedUrl o <> URL.href (Window.location win) ->
  url_has_marketing (Window.location win) ->
  setItem_attribution w (parseAttributionData PolicyA w) = Stored ->
  now w <> 0%Z ->
  persisted_attribution w' = persisted_attribution (trackCurrentPageView_A o w).2 ->
  let fresh := parseAttributionData PolicyA w in
  let reloaded := constructor PolicyA options w' in
  ((now w' - now w <= Options.attributionExpiry options * 60000)%Z ->
   this.currentAttribution reloaded.1 = fresh
   /\ persisted_attribution reloaded.2 = Some (Json fresh))
  /\ ((Options.attributionExpiry options * 60000 < now w' - now w)%Z ->
      this.currentAttribution reloaded.1 = AttributionData.empty
      /\ persisted_attribution reloaded.2 = None).
Proof.
  intros Hw Hurl Hm Hs Hnow Hp. cbv zeta.
  assert (persisted_attribution w' = Some (Json (parseAttributionData PolicyA w)))
    as Hstored.
  { rewrite Hp.
    destruct (trackCurrentPageView_A_event o w win Hw Hurl)
      as (eventId & _ & _ & _ & _ & Hpers & _).
    rewrite Hpers. unfold getAttributionForPageView.
    rewrite (proj2 (hasNewAttributionData_parse PolicyA w win Hw) Hm). cbn [snd].
    apply (persisted_attribution_saved
             (this.set_currentAttribution (parseAttributionData PolicyA w)
                (this.set_lastTrackedUrl (URL.href (Window.location win)) o))
             w win Hw).
    exact Hs. }
  rewrite constructor_unfold. cbv zeta.
  rewrite (loadAttributionData_stored _ _ (parseAttributionData PolicyA w) (now w));
    [| rewrite persisted_attribution_surroundless_getOrCreateUUID; exact Hstored
     | apply (parseAttributionData_timestamp PolicyA w win Hw)
     | exact Hnow].
  rewrite (now_surroundings _ _ (surroundings_getOrCreateUUID options w')).
  cbn [this.options].
  assert (is_Some (window (getOrCreateUUID options w').2)) as [win2 Hw2].
  { pose proof (persisted_attribution_surroundless_getOrCreateUUID options w') as H.
    rewrite Hstored in H. unfold persisted_attribution, storage in H.
    destruct (window (getOrCreateUUID options w').2); [eauto | discriminate]. }
  split; intros Hage.
  - rewrite (proj2 (Z.leb_le _ _) Hage). cbn [fst snd].
    split; [reflexivity |].
    rewrite persisted_attribution_surroundless_getOrCreateUUID. exact Hstored.
  - rewrite (proj2 (Z.leb_gt _ _) Hage). cbn [fst snd].
    split; [reflexivity |].
    unfold persisted_attribution, storage, with_storage. rewrite Hw2. reflexivity.
Qed.

Lemma attribution_survives_reload_witness :
  this.currentAttribution
    (constructor PolicyA (Options.defaults ".example.com")
       (trackCurrentPageView_A new_tracker campaign_world).2).1
  = parseAttributionData PolicyA campaign_world.
Proof.
  destruct (attribution_survives_reload new_tracker campaign_world
              (trackCurrentPageView_A new_tracker campaign_world).2
              campaign_window (Options.defaults ".example.com") eq_refl)
    as [H _].
  - discriminate.
  - exact campaign_has_marketing.
  - reflexivity.
  - discriminate.
  - reflexivity.
  - apply H. vm_compute. discriminate.
Defined.

(** ** The array [getEvents] returns *)

(** X20: [getEvents] returns a new array object that reads as the log, and
    whatever the caller does to that array itself - [push], [pop],
    [length = 0], an assignment to an index - the log reads as before. *)
Theorem getEvents_new_array (h : gmap Heap.loc Heap.object) (events : Heap.loc)
  (evs : list PageViewEvent.t) (elements : list Heap.loc) :
  Heap.read_array h events = Some evs ->
  let h1 := (Heap.getEvents h events).1 in
  let returned := (Heap.getEvents h events).2 in
  returned <> events
  /\ Heap.read_array h1 returned = Some evs
  /\ Heap.read_array h1 events = Some evs
  /\ Heap.read_array (Heap.mutate h1 returned (Heap.SetElements elements)) events
     = Some evs.
Proof.
  intros Hread. cbv zeta.
  destruct (getEvents_copy h events evs Hread) as (H1 & H2 & H3).
  repeat split; try assumption.
  apply getEvents_array_isolated. assumption.
Qed.

Lemma getEvents_new_array_witness :
  Heap.read_array
    (Heap.mutate (Heap.getEvents Heap.one_event_heap 1%positive).1
       (Heap.getEvents Heap.one_event_heap 1%positive).2 (Heap.SetElements []))
    1%positive
  = Some [PageViewEvent.mk "https://shop.example.com/" 1700000000000 None None
            AttributionData.empty "device-1" false "event-1"].
Proof.
  exact (proj2 (proj2 (proj2
    (getEvents_new_array Heap.one_event_heap 1%positive _ [] eq_refl)))).
Defined.

(** ** Every event of the journey carries the device identifier *)

Lemma stamped_suffix u l k : l `suffix_of` k -> stamped u k -> stamped u l.
Proof. intros [k' ->] H. apply Forall_app in H. tauto. Qed.

Lemma stamped_persisted_log u w evs : stamped u evs -> stamped u (persisted_log w evs).
Proof. apply stamped_suffix, persisted_log_suffix. Qed.

Lemma stamped_trimmed u max evs : stamped u evs -> stamped u (trimmed max evs).
Proof.
  unfold trimmed, slice. destruct (_ <? _)%Z; [| auto].
  apply stamped_suffix, suffix_drop.
Qed.

Lemma stamped_alter u b i evs :
  stamped u evs -> stamped u (alter (PageViewEvent.set_is_loggedin b) i evs).
Proof.
  intros H. apply Forall_alter; [exact H |]. intros e _ He. exact He.
Qed.

Lemma stamped_log_after_flag b w o :
  stamped (this.uuid o) (this.events o) ->
  stamped (this.uuid o) (log_after_flag b w o).
Proof.
  intros H. unfold log_after_flag, flag_current.
  destruct (current_index o); [| exact H].
  apply stamped_persisted_log, stamped_alter, H.
Qed.

Lemma addEvent_stamped p e o w u :
  stamped u (this.events o) -> PageViewEvent.uuid e = u ->
  stamped u (this.events (addEvent p e o w).1).
Proof.
  intros H He. rewrite addEvent_this_any. cbn [this.events this.set_events].
  apply stamped_persisted_log, stamped_trimmed, Forall_app.
  split; [exact H | constructor; [exact He | constructor]].
Qed.

Lemma trackCurrentPageView_A_stamped o w :
  stamped (this.uuid o) (this.events o) ->
  stamped (this.uuid o) (this.events (trackCurrentPageView_A o w).1).
Proof.
  intros H. unfold trackCurrentPageView_A.
  destruct (window w) as [win |]; [| exact H].
  destruct (String.eqb _ _); [exact H |].
  match goal with
  | |- context [getAttributionForPageView win ?x w] =>
    assert (this.uuid (getAttributionForPageView win x w).1.2 = this.uuid o
            /\ this.events (getAttributionForPageView win x w).1.2 = this.events o)
      as [Hu He];
    [ unfold getAttributionForPageView;
      destruct (hasNewAttributionData _); [split; reflexivity |];
      destruct (AttributionData.has_keys _); split; reflexivity
    | destruct (getAttributionForPageView win x w) as [[a o2] w2] ]
  end.
  destruct (generateUUID w2) as [eventId w3]. cbn [fst snd] in *.
  apply addEvent_stamped; [cbn [this.events this.set_currentPageEventId];
                           rewrite He; exact H | exact Hu].
Qed.

Lemma trackCurrentPageView_B_stamped o w :
  stamped (this.uuid o) (this.events o) ->
  stamped (this.uuid o) (this.events (trackCurrentPageView_B o w).1).
Proof.
  intros H. unfold trackCurrentPageView_B.
  destruct (window w) as [win |]; [| exact H].
  destruct (isNewAttributionSource _ _ _); [| exact H].
  destruct (generateUUID w) as [eventId w1].
  apply addEvent_stamped; [exact H | reflexivity].
Qed.

(** X21: if every event of the log, and of the log in storage, carries the
    device identifier of the tracker, then so does every event of the log
    after any call: every event of the exported journey carries the
    identifier of the journey. *)
Theorem journey_events_carry_device (p : Policy) (c : Call) (o : this.t) (w : World) :
  stamped (this.uuid o) (this.events o) ->
  stored_stamped (this.uuid o) w ->
  let journey := exportJourney (call p c o w).1 in
  Journey.uuid journey = this.uuid o
  /\ stamped (Journey.uuid journey) (Journey.events journey).
Proof.
  intros Hlog Hstored. cbv zeta. unfold exportJourney, getEvents.
  cbn [Journey.uuid Journey.events]. rewrite call_uuid. split; [reflexivity |].
  destruct c; unfold call.
  - unfold init. destruct (this.isInitialized o); [exact Hlog |]. cbv zeta.
    match goal with
    | |- context [loadEvents ?x w] =>
      assert (this.uuid (loadEvents x w) = this.uuid o
              /\ stamped (this.uuid o) (this.events (loadEvents x w))) as [Hu He];
      [ assert (this.uuid x = this.uuid o /\ this.events x = this.events o)
          as [Hxu Hxe]
          by (destruct isLoggedIn, (truthy_opt userId);
              try destruct (storage w ≫= Storage.user_id) as [s |];
              try destruct (truthy s); split; reflexivity);
        unfold loadEvents; specialize (Hstored);
        unfold stored_stamped, persisted_history, storage in Hstored;
        destruct (window w) as [win |]; simpl in Hstored;
        [ destruct (Storage.history _) as [[| evs] |];
          [ split; [exact Hxu | rewrite Hxe; exact Hlog]
          | split; [exact Hxu | apply Hstored; reflexivity]
          | split; [exact Hxu | rewrite Hxe; exact Hlog] ]
        | split; [exact Hxu | rewrite Hxe; exact Hlog] ]
      | generalize dependent (loadEvents x w); intros o3 Hu He ]
    end.
    destruct p.
    + pose proof (loadAttributionData_uuid o3 w) as Hlu.
      pose proof (proj1 (loadAttributionData_log o3 w)) as Hle.
      destruct (loadAttributionData o3 w) as [oa wa]. cbn [fst snd] in *.
      pose proof (trackCurrentPageView_A_stamped oa wa) as Ht.
      destruct (trackCurrentPageView_A oa wa) as [o4 w4]. cbn [fst snd] in *.
      rewrite Hlu, Hu, Hle in Ht. apply Ht. exact He.
    + destruct (Options.autoTrack _); [| exact He].
      destruct (window w) as [win |]; [| exact He].
      match goal with
      | |- context [trackCurrentPageView_B ?x w] =>
        pose proof (trackCurrentPageView_B_stamped x w) as Ht;
        destruct (trackCurrentPageView_B x w) as [o4 w4]
      end.
      cbn [fst snd this.uuid this.events this.set_lastTrackedUrl] in *.
      rewrite Hu in Ht. apply Ht. exact He.
  - unfold trackPageView. destruct (window w) as [win |]; [| exact Hlog].
    destruct p; [apply trackCurrentPageView_A_stamped; exact Hlog |].
    apply (trackCurrentPageView_B_stamped
             (this.set_lastTrackedUrl (URL.href (Window.location win)) o) w).
    exact Hlog.
  - unfold on_navigation, trackPageView.
    destruct p; (destruct (window w) as [win |]; [| exact Hlog]).
    + apply trackCurrentPageView_A_stamped; exact Hlog.
    + destruct (negb _); [| exact Hlog].
      apply (trackCurrentPageView_B_stamped
               (this.set_lastTrackedUrl (URL.href (Window.location win)) o) w).
      exact Hlog.
  - rewrite updateLoginState_this. cbn [this.events this.set_events].
    pose proof (stamped_log_after_flag isLoggedIn w o Hlog).
    destruct (store_login_id userId w); [| assumption].
    destruct p; [destruct (Bool.eqb _ _) |]; assumption.
  - rewrite recordLogin_this. cbn [this.events this.set_events].
    destruct (store_user_id derivUserId w); [| assumption].
    destruct (Options.resetOnLogin _); [constructor |].
    apply stamped_log_after_flag. exact Hlog.
  - rewrite recordSignup_this. cbn [this.events this.set_events].
    destruct (store_identity derivUserId o w); [| assumption].
    destruct (Options.resetOnSignup _); [constructor |].
    apply stamped_log_after_flag. exact Hlog.
  - constructor.
Qed.

Lemma journey_events_carry_device_witness :
  stamped "device-1"
    (Journey.events
       (exportJourney
          (call PolicyA TrackPageView (sample_tracker ten_events) checkout_world).1)).
Proof.
  refine (proj2 (journey_events_carry_device PolicyA TrackPageView
                   (sample_tracker ten_events) checkout_world _ _)).
  - repeat constructor.
  - intros evs H. discriminate H.
Defined.

(** ** What the calls leave alone *)

(** X22: a call that carries no user id - [init], which reads the stored
    one, [trackPageView], a listener, [clearEvents], [updateLoginState]
    without a user id - leaves the surroundings as they are: the page, the
    clock, and the user id and the prior device identifier in storage.
    Tracking a page view and clearing the log also leave the configuration,
    the identifiers and the login state of the object as they are. *)
Theorem calls_without_user_id (p : Policy) (c : Call) (o : this.t) (w : World) :
  writes_identity c = false ->
  surroundings (call p c o w).2 = surroundings w
  /\ (tracking_call c = true -> same_session (call p c o w).1 o).
Proof.
  destruct c; try discriminate; intros Hc; unfold call.
  - split; [apply surroundings_init | discriminate].
  - split; [apply surroundings_trackPageView | intros _; apply trackPageView_session].
  - split; [apply surroundings_on_navigation | intros _; apply on_navigation_session].
  - split; [| discriminate]. simpl in Hc. unfold updateLoginState. cbv zeta.
    destruct userId as [u |]; [cbn [truthy_opt] in Hc; rewrite Hc |];
      destruct p; try destruct (negb _); cbn [snd];
      try apply surroundings_update_current_event; reflexivity.
  - split; [apply surroundings_clearEvents | intros _; repeat split].
Qed.

Lemma calls_without_user_id_witness :
  surroundings (call PolicyA TrackPageView new_tracker campaign_world).2
  = surroundings campaign_world
  /\ same_session (call PolicyA TrackPageView new_tracker campaign_world).1 new_tracker.
Proof.
  destruct (calls_without_user_id PolicyA TrackPageView new_tracker campaign_world
              eq_refl) as [Hs Ho].
  split; [exact Hs | exact (Ho eq_refl)].
Defined.

(** ** [init] with [autoTrack] switched off *)

Lemma loadAttributionData_window o w win :
  window w = Some win ->
  exists win',
    window (loadAttributionData o w).2 = Some win'
    /\ Window.location win' = Window.location win.
Proof.
  intros Hw. unfold loadAttributionData. rewrite Hw.
  destruct (Storage.attribution _) as [[| a] |]; try (exists win; done).
  destruct (has_timestamp a); [destruct (Qle_bool _ _) |]; try (exists win; done).
  unfold with_storage. rewrite Hw. eexists. split; reflexivity.
Qed.

Lemma loadAttributionData_fields o w :
  this.lastTrackedUrl (loadAttributionData o w).1 = this.lastTrackedUrl o
  /\ this.options (loadAttributionData o w).1 = this.options o.
Proof.
  unfold loadAttributionData. destruct (window w) as [win |]; [| done].
  destruct (Storage.attribution _) as [[| a] |]; try done.
  destruct (has_timestamp a); [destruct (Qle_bool _ _) |]; done.
Qed.

Lemma loadEvents_fields o w :
  this.lastTrackedUrl (loadEvents o w) = this.lastTrackedUrl o
  /\ this.options (loadEvents o w) = this.options o.
Proof.
  unfold loadEvents. destruct (window w) as [win |]; [| done].
  destruct (Storage.history _) as [[| evs] |]; done.
Qed.

Lemma loadEvents_events o x w :
  this.events x = this.events o ->
  this.events (loadEvents x w) = this.events (loadEvents o w).
Proof.
  intros He. unfold loadEvents. destruct (window w) as [win |]; [| exact He].
  destruct (Storage.history _) as [[| evs] |]; simpl; congruence.
Qed.

(** X23: with [autoTrack] off, [init] of [PolicyB] loads the stored log and
    tracks nothing - the environment and the current-page pointer stay as
    they are - while [init] of [PolicyA] tracks the page it is called on all
    the same: there the option only keeps the listeners away. *)
Theorem init_autoTrack_off (b : option bool) (u : option string) (o : this.t)
  (w : World) (win : Window.t) :
  this.isInitialized o = false ->
  Options.autoTrack (this.options o) = false ->
  window w = Some win ->
  this.lastTrackedUrl o <> URL.href (Window.location win) ->
  ((init PolicyB b u o w).2 = w
   /\ this.events (init PolicyB b u o w).1 = this.events (loadEvents o w)
   /\ this.currentPageEventId (init PolicyB b u o w).1 = this.currentPageEventId o)
  /\ exists e,
       posted (init PolicyA b u o w).2 = Some e
       /\ PageViewEvent.url e = URL.href (Window.location win)
       /\ ((0 < Options.maxEvents (this.options o))%Z ->
           last (this.events (init PolicyA b u o w).1) = Some e).
Proof.
  intros Hi Hauto Hw Hurl. unfold init. rewrite Hi. cbv zeta.
  match goal with
  | |- context [loadEvents ?x w] =>
    assert (this.events x = this.events o
            /\ this.lastTrackedUrl x = this.lastTrackedUrl o
            /\ this.options x = this.options o
            /\ this.currentPageEventId x = this.currentPageEventId o)
      as (Hxe & Hxl & Hxo & Hxc)
      by (destruct b, (truthy_opt u);
          try destruct (storage w ≫= Storage.user_id) as [s |];
          try destruct (truthy s); repeat split);
    pose proof (loadEvents_events o x w Hxe) as He;
    pose proof (loadEvents_fields x w) as [Hl Ho];
    assert (this.currentPageEventId (loadEvents x w) = this.currentPageEventId o)
      as Hc
      by (rewrite <- Hxc; unfold loadEvents; rewrite Hw;
          destruct (Storage.history _) as [[| evs] |]; reflexivity);
    generalize dependent (loadEvents x w); intros o3 He Hl Ho Hc
  end.
  split.
  - rewrite Ho, Hxo, Hauto. cbn [fst snd this.events this.set_isInitialized
      this.currentPageEventId]. auto.
  - pose proof (loadAttributionData_fields o3 w) as [Hal Hao].
    destruct (loadAttributionData_window o3 w win Hw) as (wina & Hwa & Hloc).
    destruct (loadAttributionData o3 w) as [oa wa]. cbn [fst snd] in *.
    assert (this.lastTrackedUrl oa <> URL.href (Window.location wina)) as Hne
      by (rewrite Hal, Hl, Hxl, Hloc; exact Hurl).
    destruct (trackCurrentPageView_A_event oa wa wina Hwa Hne)
      as (eventId & Hposted & Hlast & _).
    destruct (trackCurrentPageView_A oa wa) as [o4 w4]. cbn [fst snd] in *.
    eexists. split; [exact Hposted |]. split; [cbn; rewrite Hloc; reflexivity |].
    intros Hmax. apply Hlast. rewrite Hao, Ho, Hxo. exact Hmax.
Qed.

Lemma init_autoTrack_off_witness :
  (init PolicyB None None manual_tracker sample_world).2 = sample_world
  /\ this.events (init PolicyB None None manual_tracker sample_world).1 = []
  /\ (PageViewEvent.url <$> posted (init PolicyA None None manual_tracker sample_world).2)
     = Some "https://shop.example.com/".
Proof.
  destruct (init_autoTrack_off None None manual_tracker sample_world sample_window
              eq_refl eq_refl eq_refl) as [(Hw & He & _) (e & Hp & Hu & _)].
  - discriminate.
  - split; [exact Hw |]. split; [exact He |]. rewrite Hp. simpl. rewrite Hu. reflexivity.
Defined.

(** ** Where the login flag lands *)

Lemma points_at_newest_index o e :
  points_at_newest o e ->
  current_index o = Some (pred (length (this.events o)))
  /\ this.events o !! pred (length (this.events o)) = Some e.
Proof.
  intros (Hlast & Hptr & Hne & Hold).
  assert (this.events o !! pred (length (this.events o)) = Some e) as Hlook
    by (rewrite <- last_lookup; exact Hlast).
  split; [| exact Hlook].
  unfold current_index, findIndex. rewrite Hptr.
  rewrite (proj2 (truthy_nonempty _) Hne).
  assert (list_find (fun e' => PageViewEvent.event_id e' = PageViewEvent.event_id e)
            (this.events o) = Some (pred (length (this.events o)), e)) as ->.
  { apply list_find_Some. split; [exact Hlook |]. split; [reflexivity |].
    intros j older Hj Hlt. apply (Hold j older); assumption. }
  reflexivity.
Qed.

Lemma last_alter_last {A : Type} (f : A -> A) (l : list A) :
  last (alter f (pred (length l)) l) = f <$> last l.
Proof.
  rewrite !last_lookup, length_alter. apply list_lookup_alter_eq.
Qed.

(** The flagged log has the flagged event as its newest entry, and no older
    entry carries its identifier. *)
Lemma flag_current_newest b o e :
  points_at_newest o e ->
  last (flag_current b o) = Some (PageViewEvent.set_is_loggedin b e)
  /\ forall j older,
       j < pred (length (flag_current b o)) ->
       flag_current b o !! j = Some older ->
       PageViewEvent.event_id older <> PageViewEvent.event_id e.
Proof.
  intros Hp. destruct (points_at_newest_index o e Hp) as [Hi Hlook].
  destruct Hp as (Hlast & _ & _ & Hold).
  unfold flag_current. rewrite Hi. split.
  - rewrite last_alter_last, Hlast. reflexivity.
  - rewrite length_alter. intros j older Hj Hlk.
    rewrite list_lookup_alter_ne in Hlk by lia. apply (Hold j older); assumption.
Qed.

Lemma find_newest (l : list PageViewEvent.t) (e : PageViewEvent.t) :
  last l = Some e ->
  (forall j older, j < pred (length l) -> l !! j = Some older ->
     PageViewEvent.event_id older <> PageViewEvent.event_id e) ->
  find (PageViewEvent.event_id e) l = Some e.
Proof.
  intros Hlast Hold. unfold find.
  assert (list_find (fun e' => PageViewEvent.event_id e' = PageViewEvent.event_id e) l
          = Some (pred (length l), e)) as ->; [| reflexivity].
  apply list_find_Some. split; [rewrite <- last_lookup; exact Hlast |].
  split; [reflexivity |]. intros j older Hj Hlt. apply (Hold j older); assumption.
Qed.

Lemma persisted_log_newest w (l : list PageViewEvent.t) (e : PageViewEvent.t) :
  last l = Some e ->
  (forall j older, j < pred (length l) -> l !! j = Some older ->
     PageViewEvent.event_id older <> PageViewEvent.event_id e) ->
  last (persisted_log w l) = Some e
  /\ forall j older,
       j < pred (length (persisted_log w l)) ->
       persisted_log w l !! j = Some older ->
       PageViewEvent.event_id older <> PageViewEvent.event_id e.
Proof.
  intros Hlast Hold. split; [rewrite persisted_log_last; exact Hlast |].
  unfold persisted_log. destruct (quota_cut w l); [| exact Hold].
  unfold last_n. intros j older Hj Hlk.
  rewrite lookup_drop in Hlk. rewrite length_drop in Hj.
  apply (Hold (length l - 10 + j) older); [lia | exact Hlk].
Qed.

Lemma update_current_event_newest p b o w e :
  points_at_newest o e ->
  last (this.events (update_current_event p b o w).1)
  = Some (PageViewEvent.set_is_loggedin b e)
  /\ posted (update_current_event PolicyA b o w).2
     = Some (PageViewEvent.set_is_loggedin b e).
Proof.
  intros Hp.
  destruct (points_at_newest_index o e Hp) as [Hi _].
  destruct (flag_current_newest b o e Hp) as [Hlast Hold].
  destruct (persisted_log_newest w (flag_current b o)
              (PageViewEvent.set_is_loggedin b e) Hlast Hold) as [Hl' Ho'].
  assert (this.events (update_current_event PolicyA b o w).1
          = persisted_log w (flag_current b o)) as HeA
    by (rewrite update_current_event_this; unfold log_after_flag; rewrite Hi;
        reflexivity).
  split.
  - rewrite update_current_event_this. unfold log_after_flag. rewrite Hi. exact Hl'.
  - destruct Hp as (_ & Hptr & Hne & _).
    unfold update_current_event in *. rewrite Hptr in *.
    rewrite (proj2 (truthy_nonempty _) Hne) in *.
    destruct (updateEventLoginState (PageViewEvent.event_id e) b o w) as [o1 w1].
    cbn [fst snd] in *.
    assert (this.events o1 = persisted_log w (flag_current b o)) as He1.
    { destruct (find (PageViewEvent.event_id e) (this.events o1)); exact HeA. }
    rewrite He1.
    pose proof (find_newest _ (PageViewEvent.set_is_loggedin b e) Hl' Ho') as Hf.
    change (PageViewEvent.event_id (PageViewEvent.set_is_loggedin b e))
      with (PageViewEvent.event_id e) in Hf.
    rewrite Hf.
    unfold posted, sendEventToBackend. cbn [outbox set_outbox snd].
    rewrite last_snoc. reflexivity.
Qed.

(** X24: if the current-page pointer names the newest event of the log and
    no older event carries the same identifier, then [updateLoginState]
    without a user id (where it flags at all: under [PolicyA] only when the
    login state changes) leaves that event with the new flag as the newest
    entry, and so does a [recordLogin] whose write of the user id is not
    refused, when it does not reset the log - also when a quota failure cuts
    the log; such a [recordLogin] of [PolicyA] posts that event with its
    flag set, whether or not it then resets the log.  A [recordLogin] whose
    write is refused throws before that: the newest event keeps its flag and
    nothing is posted. *)
Theorem login_flag_lands_on_newest (p : Policy) (b : bool) (u : string)
  (o : this.t) (w : World) (e : PageViewEvent.t) :
  points_at_newest o e ->
  (this.isLoggedIn o <> b \/ p = PolicyB ->
   last (this.events (updateLoginState p b None o w).1.1)
   = Some (PageViewEvent.set_is_loggedin b e))
  /\ (~ user_id_refused w u ->
      (Options.resetOnLogin (this.options o) = false ->
       last (this.events (recordLogin p u o w).1.1)
       = Some (PageViewEvent.set_is_loggedin true e))
      /\ posted (recordLogin PolicyA u o w).1.2
         = Some (PageViewEvent.set_is_loggedin true e))
  /\ (user_id_refused w u ->
      (recordLogin p u o w).2 = Throw
      /\ last (this.events (recordLogin p u o w).1.1) = Some e
      /\ outbox (recordLogin p u o w).1.2 = outbox w).
Proof.
  intros Hp.
  destruct (points_at_newest_index o e Hp) as [Hi _].
  assert (forall b' w', last (log_after_flag b' w' o)
                        = Some (PageViewEvent.set_is_loggedin b' e)) as Hflag.
  { intros b' w'. unfold log_after_flag. rewrite Hi.
    destruct (flag_current_newest b' o e Hp) as [Hlast Hold].
    apply (persisted_log_newest w' _ _ Hlast Hold). }
  split; [| split].
  - intros Hc. rewrite updateLoginState_this.
    cbn [this.events this.set_events store_login_id].
    destruct p; [| apply Hflag].
    destruct (Bool.eqb_spec (this.isLoggedIn o) b) as [Heq | _]; [| apply Hflag].
    destruct Hc as [Hc | Hc]; [contradiction | discriminate].
  - intros Hu. split.
    + intros Hreset.
      rewrite recordLogin_this, (store_user_id_accepted _ _ Hu), Hreset.
      apply Hflag.
    + rewrite recordLogin_state, (store_user_id_accepted _ _ Hu). cbv zeta.
      match goal with
      | |- context [update_current_event PolicyA true ?x ?y] =>
        assert (points_at_newest x e) as Hx by exact Hp;
        pose proof (proj2 (update_current_event_newest PolicyA true x y e Hx))
          as Hpost;
        destruct (update_current_event PolicyA true x y) as [o2 w2]
      end.
      cbn [fst snd] in *.
      destruct (Options.resetOnLogin _); [| exact Hpost].
      unfold posted in *. unfold clearEvents. cbn [snd].
      rewrite with_storage_outbox. exact Hpost.
  - intros Hu. rewrite (recordLogin_refused p u o w Hu).
    split; [reflexivity |]. split; [apply Hp | reflexivity].
Qed.

Lemma keeping_tracker_points_at_newest :
  points_at_newest keeping_tracker (sample_event 11).
Proof.
  split; [reflexivity |]. split; [reflexivity |]. split; [discriminate |].
  intros j older Hj Hlk.
  do 10 (destruct j as [| j]; [injection Hlk as <-; discriminate |]).
  simpl in Hj. lia.
Defined.

Lemma login_flag_lands_on_newest_witness :
  length (this.events (recordLogin PolicyB "user-42" keeping_tracker
                         full_storage_world).1.1) = 10
  /\ last (this.events (recordLogin PolicyB "user-42" keeping_tracker
                          full_storage_world).1.1)
     = Some (PageViewEvent.set_is_loggedin true (sample_event 11))
  /\ last (this.events (recordLogin PolicyB "user-42" keeping_tracker
                          locked_identity_world).1.1)
     = Some (sample_event 11).
Proof.
  split; [reflexivity |].
  destruct (login_flag_lands_on_newest PolicyB true "user-42" keeping_tracker
              full_storage_world (sample_event 11) keeping_tracker_points_at_newest)
    as (_ & Haccepted & _).
  destruct (login_flag_lands_on_newest PolicyB true "user-42" keeping_tracker
              locked_identity_world (sample_event 11)
              keeping_tracker_points_at_newest)
    as (_ & _ & Hrefused).
  split.
  - destruct Haccepted as [Hlast _]; [intros [_ H]; apply H; reflexivity |].
    apply Hlast. reflexivity.
  - apply Hrefused. split; [eexists; reflexivity | discriminate].
Defined.
